(** * MemFS: a virtual file system provider and its two search providers

    Shallow embedding of [extension/src/extension.ts]: the [MemFS]
    file-system provider (an adapter from the editor's provider contract
    to the primitives of a backing store), the filename search provider
    and the text search provider, together with the properties of these
    that the specification states.

    Conventions of the embedding.
    - JavaScript strings are [string]s of 8-bit characters; [toLowerCase]
      folds A-Z only.  File contents are [list byte]; the text decoder
      maps every byte to the character with the same code.
    - Paths are strings.  The backing store resolves a path by cutting it
      at "/" and interpreting "", "." and ".." segments from the root.
    - The backing store ([fs] of the source, an external package) is a
      tree of nodes with the contract of the eight primitives the source
      calls, as the package keeps it: a truncating write opens an entry
      of any kind, and a forced removal takes every path that does not
      resolve for absent.
    - [Uri.parse] is the parser of the editor: it cuts the value at "?"
      and "#", decodes percent escapes and throws on a malformed
      result.
    - [async] functions run to completion one after the other: a call is
      a function from the state before to an outcome and the state after.
      Recursion over the store and [while] loops take a fuel argument;
      [Diverge] or [NoFuel] is the outcome of a run that did not finish
      within it. *)

From Stdlib Require Import String Ascii List Bool Arith Lia Sorted.
From Stdlib Require Import Strings.Byte.
Import ListNotations.
Set Warnings "-register-all".
Local Open Scope string_scope.
Local Open Scope list_scope.

(* ===================================================================== *)
(** * Strings: the JavaScript string methods the source calls            *)
(* ===================================================================== *)

Module Str.

(** [s.slice(n)] for [0 <= n]. *)
Fixpoint drop (n : nat) (s : string) : string :=
  match n, s with
  | 0, _ => s
  | S _, EmptyString => EmptyString
  | S n', String _ r => drop n' r
  end.

(** First position [>= k] of an occurrence of [pat], where [s] is the
    part of the subject that starts at position [k]. *)
Fixpoint indexOf_from (pat : string) (s : string) (k : nat) : option nat :=
  if String.prefix pat s then Some k
  else match s with
       | EmptyString => None
       | String _ r => indexOf_from pat r (S k)
       end.

(** [s.indexOf(pat, start)]: the start position is clamped to the
    length of [s]; [None] stands for the result -1. *)
Definition indexOf (s pat : string) (start : nat) : option nat :=
  let k := Nat.min start (String.length s) in
  indexOf_from pat (drop k s) k.

(** All the positions from [start] on at which [pat] occurs in [s],
    in increasing order. *)
Definition occurrences (s pat : string) (start : nat) : list nat :=
  filter (fun k => String.prefix pat (drop k s))
    (seq start (String.length s + 1 - start)).

(** [s.includes(pat)]. *)
Definition includes (s pat : string) : bool :=
  match indexOf s pat 0 with Some _ => true | None => false end.

Definition lower_ascii (c : ascii) : ascii :=
  let n := nat_of_ascii c in
  if ((65 <=? n) && (n <=? 90))%nat then ascii_of_nat (n + 32) else c.

(** [s.toLowerCase()]. *)
Fixpoint toLowerCase (s : string) : string :=
  match s with
  | EmptyString => EmptyString
  | String c r => String (lower_ascii c) (toLowerCase r)
  end.

Definition LF : ascii := "010"%char.
Definition CR : ascii := "013"%char.

Definition cons_head (c : ascii) (ls : list string) : list string :=
  match ls with
  | [] => [String c EmptyString]
  | h :: t => String c h :: t
  end.

(** [s.split(/\r?\n/)]. *)
Fixpoint split_lines (s : string) : list string :=
  match s with
  | EmptyString => [EmptyString]
  | String c r =>
      if Ascii.eqb c LF then EmptyString :: split_lines r
      else
        match r with
        | String c' r' =>
            if Ascii.eqb c CR && Ascii.eqb c' LF
            then EmptyString :: split_lines r'
            else cons_head c (split_lines r)
        | EmptyString => cons_head c (split_lines r)
        end
  end.

Fixpoint contains (c : ascii) (s : string) : bool :=
  match s with
  | EmptyString => false
  | String d r => Ascii.eqb d c || contains c r
  end.

(** [x || dflt] on a string: the empty string is falsy. *)
Definition or_else (x dflt : string) : string :=
  match x with EmptyString => dflt | _ => x end.

End Str.

(* ===================================================================== *)
(** * Posix paths ([path.posix] of the source)                           *)
(* ===================================================================== *)

Module path.

Definition slash : ascii := "/"%char.

(** The pieces of [s] between slashes, empty ones included. *)
Fixpoint split (s : string) : list string :=
  match s with
  | EmptyString => [EmptyString]
  | String c r =>
      if Ascii.eqb c slash then EmptyString :: split r
      else Str.cons_head c (split r)
  end.

(** One step of path resolution. *)
Definition step (acc : list string) (seg : string) : list string :=
  if (seg =? "") || (seg =? ".") then acc
  else if seg =? ".." then removelast acc
  else acc ++ [seg].

(** The names from the root to the entry that [p] denotes. *)
Definition segments (p : string) : list string :=
  fold_left step (split p) [].

Definition of_segments (l : list string) : string :=
  ("/" ++ String.concat "/" l)%string.

(** [path.join(a, b)] for paths resolved from the root. *)
Definition join (a b : string) : string :=
  of_segments (segments (a ++ "/" ++ b)%string).

(** [path.dirname(p)]. *)
Definition dirname (p : string) : string :=
  of_segments (removelast (segments p)).

(** What a directory entry may be called. *)
Definition valid_name (e : string) : bool :=
  negb (e =? "") && negb (e =? ".") && negb (e =? "..")
  && negb (Str.contains slash e).

End path.

(* ===================================================================== *)
(** * The backing store ([fs], the promises API of the store package)    *)
(* ===================================================================== *)

Module fs.

(** Error codes of the store's exceptions. *)
Inductive errno : Type :=
  ENOENT | EEXIST | EISDIR | ENOTDIR | ENOTEMPTY | EINVAL | EBUSY.

Definition errno_message (e : errno) : string :=
  match e with
  | ENOENT => "No such file or directory"
  | EEXIST => "File exists"
  | EISDIR => "Is a directory"
  | ENOTDIR => "Not a directory"
  | ENOTEMPTY => "Directory not empty"
  | EINVAL => "Invalid argument"
  | EBUSY => "Resource busy"
  end.

(** An entry of the store.  [Other link] is an entry that [stat]
    reports as neither a regular file nor a directory, a device for
    one; [link] says whether [stat] reports it as a symbolic link, the
    case the source tests for last. *)
Inductive node : Type :=
| File (data : list byte)
| Dir (entries : list (string * node))
| Other (link : bool).

(** The store is its root entry. *)
Abbreviation store := node (only parsing).

(** Directory listings: the first binding of a name counts, new names
    go to the end. *)
Fixpoint assoc (x : string) (es : list (string * node)) : option node :=
  match es with
  | [] => None
  | (y, n) :: r => if x =? y then Some n else assoc x r
  end.

Fixpoint set (x : string) (n : node) (es : list (string * node))
  : list (string * node) :=
  match es with
  | [] => [(x, n)]
  | (y, m) :: r => if x =? y then (x, n) :: r else (y, m) :: set x n r
  end.

Definition del (x : string) (es : list (string * node))
  : list (string * node) :=
  filter (fun e => negb (x =? fst e)) es.

Definition upd (x : string) (o : option node) (es : list (string * node))
  : list (string * node) :=
  match o with Some n => set x n es | None => del x es end.

(** The entry at the end of the names [p], from the entry [o]. *)
Fixpoint lookup (p : list string) (o : option node) : option node :=
  match p with
  | [] => o
  | x :: p' =>
      match o with
      | Some (Dir es) => lookup p' (assoc x es)
      | _ => None
      end
  end.

(** The code of the failure to find [p]. *)
Fixpoint miss (p : list string) (o : option node) : errno :=
  match p, o with
  | x :: p', Some (Dir es) => miss p' (assoc x es)
  | _ :: _, Some _ => ENOTDIR
  | _, _ => ENOENT
  end.

(** Replace the entry at [p] by what [f] makes of it; the directory
    that holds it has to exist. *)
Fixpoint alter (f : option node -> errno + option node)
         (p : list string) (o : option node) : errno + option node :=
  match p with
  | [] => f o
  | x :: p' =>
      match o with
      | None => inl ENOENT
      | Some (Dir es) =>
          match alter f p' (assoc x es) with
          | inl e => inl e
          | inr c => inr (Some (Dir (upd x c es)))
          end
      | Some _ => inl ENOTDIR
      end
  end.

Definition alter_store (f : option node -> errno + option node)
           (p : list string) (s : store) : errno + store :=
  match alter f p (Some s) with
  | inl e => inl e
  | inr (Some s') => inr s'
  | inr None => inl EBUSY
  end.

(** [mkdir -p]: the missing directories along [p] are created. *)
Fixpoint mkdirp (p : list string) (o : option node) : errno + node :=
  match p with
  | [] =>
      match o with
      | None => inr (Dir [])
      | Some (Dir es) => inr (Dir es)
      | Some _ => inl EEXIST
      end
  | x :: p' =>
      match o with
      | None =>
          match mkdirp p' None with
          | inl e => inl e
          | inr c => inr (Dir [(x, c)])
          end
      | Some (Dir es) =>
          match mkdirp p' (assoc x es) with
          | inl e => inl e
          | inr c => inr (Dir (set x c es))
          end
      | Some _ => inl ENOTDIR
      end
  end.

Fixpoint diverge (p q : list string) : bool :=
  match p, q with
  | x :: p', y :: q' => if x =? y then diverge p' q' else true
  | _, _ => false
  end.

Fixpoint is_prefix (p q : list string) : bool :=
  match p, q with
  | [], _ => true
  | x :: p', y :: q' => (x =? y) && is_prefix p' q'
  | _ :: _, [] => false
  end.

(** The directory that holds the entry at [p] is there. *)
Fixpoint has_parent (p : list string) (o : option node) : bool :=
  match p with
  | [] => true
  | x :: p' =>
      match o with
      | Some (Dir es) => has_parent p' (assoc x es)
      | _ => false
      end
  end.

Definition resolve (p : string) (s : store) : option node :=
  lookup (path.segments p) (Some s).

Definition not_found (p : string) (s : store) : errno :=
  miss (path.segments p) (Some s).

(** What [Stats] tells the source. *)
Record Stats : Type := mkStats {
  isFile : bool;
  isDirectory : bool;
  isSymbolicLink : bool;
  size : nat
}.

Definition stats_of (n : node) : Stats :=
  match n with
  | File d => mkStats true false false (List.length d)
  | Dir _ => mkStats false true false 0
  | Other l => mkStats false false l 0
  end.

(** ** The eight primitives *)

Definition exists_ (p : string) (s : store) : bool :=
  match resolve p s with Some _ => true | None => false end.

Definition stat (p : string) (s : store) : errno + Stats :=
  match resolve p s with
  | Some n => inr (stats_of n)
  | None => inl (not_found p s)
  end.

Definition readdir (p : string) (s : store) : errno + list string :=
  match resolve p s with
  | Some (Dir es) => inr (map fst es)
  | Some _ => inl ENOTDIR
  | None => inl (not_found p s)
  end.

Definition readFile (p : string) (s : store) : errno + list byte :=
  match resolve p s with
  | Some (File d) => inr d
  | Some (Dir _) => inl EISDIR
  | Some (Other _) => inl EINVAL
  | None => inl (not_found p s)
  end.

(** The flags of [writeFile]: "w" truncates, "wx" creates and fails on
    an existing path.  The truncating write opens whatever entry is at
    the path without asking for its kind: it returns, and the bytes
    written are what the path reads back. *)
Inductive flag : Type := w | wx.

Definition write_at (data : list byte) (fl : flag) (o : option node)
  : errno + option node :=
  match o, fl with
  | None, _ => inr (Some (File data))
  | Some _, wx => inl EEXIST
  | Some _, w => inr (Some (File data))
  end.

Definition writeFile (p : string) (data : list byte) (fl : flag)
           (s : store) : errno + store :=
  alter_store (write_at data fl) (path.segments p) s.

(** [mkdir(p, { recursive: true })]. *)
Definition mkdir (p : string) (s : store) : errno + store :=
  mkdirp (path.segments p) (Some s).

Definition unlink (p : list string) (s : store) : errno + store :=
  match p with
  | [] => inl EBUSY
  | _ :: _ => alter_store (fun _ => inr None) p s
  end.

(** [rm(p, { force, recursive })]: with [force] a path that does not
    resolve, be it that a name is missing or that a name on the way is
    no directory, is no error; a directory that has entries goes only
    with [recursive]. *)
Definition rm (p : string) (force recursive : bool) (s : store)
  : errno + store :=
  match resolve p s with
  | None => if force then inr s else inl (not_found p s)
  | Some (Dir (_ :: _)) =>
      if recursive then unlink (path.segments p) s else inl ENOTEMPTY
  | Some _ => unlink (path.segments p) s
  end.

(** [rename(a, b)]: the entry at [a] moves to [b], over a file or an
    empty directory of its own kind; not into itself. *)
Definition rename (a b : string) (s : store) : errno + store :=
  let pa := path.segments a in
  let pb := path.segments b in
  match lookup pa (Some s) with
  | None => inl (not_found a s)
  | Some n =>
      if is_prefix pa pb then
        if is_prefix pb pa then inr s else inl EINVAL
      else
        match lookup pb (Some s), n with
        | Some (Dir (_ :: _)), _ => inl ENOTEMPTY
        | Some (Dir []), File _ | Some (Dir []), Other _ => inl EISDIR
        | Some (File _), Dir _ | Some (Other _), Dir _ => inl ENOTDIR
        | _, _ =>
            match unlink pa s with
            | inl e => inl e
            | inr s1 => alter_store (fun _ => inr (Some n)) pb s1
            end
        end
  end.

(** [stat] classifies the entry at [p] as a regular file. *)
Definition is_regular (p : string) (s : store) : bool :=
  match stat p s with
  | inr st => isFile st
  | inl _ => false
  end.

(** [stat] classifies the entry at [p] as neither a regular file nor a
    directory. *)
Definition is_special (p : string) (s : store) : bool :=
  match stat p s with
  | inr st => negb (isFile st) && negb (isDirectory st)
  | inl _ => false
  end.

(** The height of the tree under an entry. *)
Fixpoint height (n : node) : nat :=
  match n with
  | Dir es => S (list_max (map (fun e => height (snd e)) es))
  | _ => 0
  end.

(** The stores [s] and [s'] agree on every path that parts from [p]. *)
Definition same_off (p : list string) (s s' : store) : Prop :=
  forall q, diverge p q = true -> lookup q (Some s') = lookup q (Some s).

(** Every file of [s] under [src] is in [s'] at the same place under
    [dst], with the same content. *)
Definition copied (src dst : list string) (s s' : store) : Prop :=
  forall rel data,
    lookup (src ++ rel) (Some s) = Some (File data) ->
    lookup (dst ++ rel) (Some s') = Some (File data).

(** The height of the tree at a path; 0 where there is none. *)
Definition height_at (p : string) (s : store) : nat :=
  match resolve p s with
  | Some n => height n
  | None => 0
  end.

(** Nothing in the tree but regular files and directories. *)
Fixpoint no_special (n : node) : bool :=
  match n with
  | File _ => true
  | Dir es => forallb (fun e => no_special (snd e)) es
  | Other _ => false
  end.

(** Every name in the tree is one a directory entry may have. *)
Fixpoint valid_names (n : node) : bool :=
  match n with
  | Dir es =>
      forallb (fun e => path.valid_name (fst e) && valid_names (snd e)) es
  | _ => true
  end.

End fs.

(* ===================================================================== *)
(** * The editor's API ([vscode]) as far as the source uses it           *)
(* ===================================================================== *)

Module vscode.

Record Uri : Type := mkUri { scheme : string; path : string }.

Module FileType.
Inductive t : Type := Unknown | File | Directory | SymbolicLink.
End FileType.

(** The times of a [FileStat] are left out. *)
Record FileStat : Type := mkFileStat { type : FileType.t; size : nat }.

Module FileSystemError.
Inductive t : Type :=
| FileNotFound (uri : Uri)
| FileExists (uri : Uri)
| FileIsADirectory (uri : Uri)
| Unavailable (message : string).

Definition message (e : t) : string :=
  match e with
  | FileNotFound u | FileExists u | FileIsADirectory u => path u
  | Unavailable m => m
  end.
End FileSystemError.

(** [uri.path || "/"]. *)
Definition path_or_root (uri : Uri) : string := Str.or_else (path uri) "/".

(** ** [Uri.parse]

    The parser of the editor, in its lenient mode: the value is cut
    into scheme, authority, path, query and fragment, the components
    are percent-decoded, and the result is validated.  A [Uri] of the
    embedding keeps the scheme and the path, the two components the
    source reads.  A string stands for its UTF-8 encoding, so what an
    escaped octet decodes to is the character of that code. *)

Definition char_between (lo hi : nat) (c : ascii) : bool :=
  let n := nat_of_ascii c in ((lo <=? n) && (n <=? hi))%nat.

Definition is_digit (c : ascii) : bool := char_between 48 57 c.

Definition is_alpha (c : ascii) : bool :=
  char_between 65 90 c || char_between 97 122 c.

(** [\w] of a regular expression. *)
Definition is_word (c : ascii) : bool :=
  is_alpha c || is_digit c || Ascii.eqb c "_".

(** [/^\w[\w\d+.-]*$/], the pattern of a scheme. *)
Definition scheme_ok (s : string) : bool :=
  match s with
  | EmptyString => false
  | String c r =>
      is_word c &&
      forallb (fun d => is_word d || Ascii.eqb d "+" || Ascii.eqb d "."
                        || Ascii.eqb d "-")
        (list_ascii_of_string r)
  end.

Definition hex_value (c : ascii) : option nat :=
  let n := nat_of_ascii c in
  if is_digit c then Some (n - 48)
  else if char_between 65 70 c then Some (n - 55)
  else if char_between 97 102 c then Some (n - 87)
  else None.

(** The octets are the UTF-8 encoding of a sequence of code points:
    no stray continuation octet, no overlong form, no surrogate, nothing
    above U+10FFFF. *)
Fixpoint utf8_valid (l : list nat) : bool :=
  let between (lo hi b : nat) := ((lo <=? b) && (b <=? hi))%nat in
  let cont := between 128 191 in
  match l with
  | [] => true
  | b :: r =>
      if (b <? 128)%nat then utf8_valid r
      else if between 194 223 b then
        match r with
        | b1 :: r1 => cont b1 && utf8_valid r1
        | _ => false
        end
      else if between 224 239 b then
        match r with
        | b1 :: b2 :: r2 =>
            (if (b =? 224)%nat then between 160 191 b1
             else if (b =? 237)%nat then between 128 159 b1
             else cont b1)
            && cont b2 && utf8_valid r2
        | _ => false
        end
      else if between 240 244 b then
        match r with
        | b1 :: b2 :: b3 :: r3 =>
            (if (b =? 240)%nat then between 144 191 b1
             else if (b =? 244)%nat then between 128 143 b1
             else cont b1)
            && cont b2 && cont b3 && utf8_valid r3
        | _ => false
        end
      else false
  end.

(** An escape "%xy" is kept as the pair of its two characters. *)
Definition escape (t : ascii * ascii) : string :=
  String "%" (String (fst t) (String (snd t) EmptyString)).

Fixpoint octets (l : list (ascii * ascii)) : option (list nat) :=
  match l with
  | [] => Some []
  | t :: r =>
      match hex_value (fst t), hex_value (snd t), octets r with
      | Some h, Some d, Some bs => Some (16 * h + d :: bs)
      | _, _, _ => None
      end
  end.

(** [decodeURIComponent] on a run of escapes; [None] when it throws. *)
Definition decodeURIComponent (l : list (ascii * ascii)) : option string :=
  match octets l with
  | Some bs =>
      if utf8_valid bs
      then Some (string_of_list_ascii (map ascii_of_nat bs))
      else None
  | None => None
  end.

(** [decodeURIComponentGraceful]: when the run does not decode, its
    first escape is kept as it is and the rest is tried again. *)
Fixpoint decodeURIComponentGraceful (l : list (ascii * ascii)) : string :=
  match decodeURIComponent l with
  | Some s => s
  | None =>
      match l with
      | [] => EmptyString
      | t :: r => (escape t ++ decodeURIComponentGraceful r)%string
      end
  end.

(** [percentDecode]: every maximal run of escapes "%xy" with [x] and
    [y] letters or digits is replaced by what it decodes to.  [run] is
    the run read so far, last escape first. *)
Fixpoint percentDecode_from (run : list (ascii * ascii)) (s : string)
  : string :=
  match s with
  | EmptyString => decodeURIComponentGraceful (rev run)
  | String c r =>
      match r with
      | String x (String y r') =>
          if Ascii.eqb c "%"
             && (is_alpha x || is_digit x) && (is_alpha y || is_digit y)
          then percentDecode_from ((x, y) :: run) r'
          else (decodeURIComponentGraceful (rev run)
                ++ String c (percentDecode_from [] r))%string
      | _ => (decodeURIComponentGraceful (rev run)
              ++ String c (percentDecode_from [] r))%string
      end
  end.

Definition percentDecode (s : string) : string := percentDecode_from [] s.

(** [s] up to the first character that [stop] holds of, and the rest
    of [s] from that character on. *)
Fixpoint span (stop : ascii -> bool) (s : string) : string * string :=
  match s with
  | EmptyString => (EmptyString, EmptyString)
  | String c r =>
      if stop c then (EmptyString, s)
      else let (a, b) := span stop r in (String c a, b)
  end.

Definition is_delimiter (c : ascii) : bool :=
  Ascii.eqb c "/" || Ascii.eqb c "?" || Ascii.eqb c "#".

Definition starts_with_slash (s : string) : bool :=
  match s with String "/" _ => true | _ => false end.

Definition starts_with_two_slashes (s : string) : bool :=
  match s with String "/" (String "/" _) => true | _ => false end.

(** [_referenceResolution]. *)
Definition referenceResolution (scheme path : string) : string :=
  if (scheme =? "https") || (scheme =? "http") || (scheme =? "file") then
    match path with
    | EmptyString => "/"
    | String c _ => if Ascii.eqb c "/" then path else String "/" path
    end
  else path.

(** [Uri.parse(value)]; [None] when it throws. *)
Definition Uri_parse (value : string) : option Uri :=
  let (scheme0, rest) :=
    match span (fun c => Ascii.eqb c ":" || is_delimiter c) value with
    | (String c s0, String ":" rest) => (String c s0, rest)
    | _ => (EmptyString, value)
    end in
  let (authority0, rest) :=
    match rest with
    | String "/" (String "/" r) => span is_delimiter r
    | _ => (EmptyString, rest)
    end in
  let path0 :=
    fst (span (fun c => Ascii.eqb c "?" || Ascii.eqb c "#") rest) in
  let scheme := Str.or_else scheme0 "file" in
  let authority := percentDecode authority0 in
  let path := referenceResolution scheme (percentDecode path0) in
  if negb (scheme_ok scheme) then None
  else if match path, authority with
          | EmptyString, _ => false
          | _, EmptyString => starts_with_two_slashes path
          | _, _ => negb (starts_with_slash path)
          end
  then None
  else Some (mkUri scheme path).

Arguments Uri_parse : simpl never.

(** A path that [Uri.parse] leaves as it is: free of "%", "?" and "#". *)
Definition plain (p : string) : bool :=
  negb (Str.contains "%" p) && negb (Str.contains "?" p)
  && negb (Str.contains "#" p).

Record Range : Type := mkRange {
  startLine : nat; startCharacter : nat;
  endLine : nat; endCharacter : nat
}.

Record TextSearchPreview : Type := mkPreview {
  text : string; matches : Range
}.

Record TextSearchResult : Type := mkTextSearchResult {
  uri : Uri; ranges : Range; preview : TextSearchPreview
}.

Record FileSearchQuery : Type := mkFileSearchQuery { fq_pattern : string }.

(** [includes] and [maxResults] may be undefined. *)
Record SearchOptions : Type := mkSearchOptions {
  includes : option (list Uri);
  maxResults : option nat
}.

Record TextSearchQuery : Type := mkTextSearchQuery {
  pattern : string; isRegExp : bool; isCaseSensitive : bool
}.

Record TextSearchComplete : Type := mkComplete { limitHit : bool }.

End vscode.

(** Every name in the tree is free of "%", "?" and "#". *)
Fixpoint plain_names (n : fs.node) : bool :=
  match n with
  | fs.Dir es =>
      forallb (fun e => vscode.plain (fst e) && plain_names (snd e)) es
  | _ => true
  end.

(* ===================================================================== *)
(** * Exceptions and the monad of the provider's methods                 *)
(* ===================================================================== *)

(** What a [catch] clause of the source can receive. *)
Inductive exn : Type :=
| ErrnoException (code : fs.errno)
| FsError (e : vscode.FileSystemError.t)
| Error (message : string).

Inductive outcome (A : Type) : Type :=
| Return (a : A)
| Throw (e : exn)
| Diverge.
Arguments Return {A} a.
Arguments Throw {A} e.
Arguments Diverge {A}.

(** A method: from the store before to an outcome and the store after. *)
Definition M (A : Type) : Type := fs.store -> outcome A * fs.store.

Definition ret {A} (a : A) : M A := fun s => (Return a, s).
Definition throw {A} (e : exn) : M A := fun s => (Throw e, s).
Definition diverge {A} : M A := fun s => (Diverge, s).

Definition bind {A B} (m : M A) (k : A -> M B) : M B :=
  fun s =>
    match m s with
    | (Return a, s') => k a s'
    | (Throw e, s') => (Throw e, s')
    | (Diverge, s') => (Diverge, s')
    end.

(** [try { m } catch (error) { h error }]. *)
Definition try_catch {A} (m : M A) (h : exn -> M A) : M A :=
  fun s =>
    match m s with
    | (Throw e, s') => h e s'
    | r => r
    end.

(** A primitive that reads the store. *)
Definition reading {A} (f : fs.store -> fs.errno + A) : M A :=
  fun s =>
    match f s with
    | inr a => (Return a, s)
    | inl e => (Throw (ErrnoException e), s)
    end.

(** A primitive that changes the store. *)
Definition writing (f : fs.store -> fs.errno + fs.store) : M unit :=
  fun s =>
    match f s with
    | inr s' => (Return tt, s')
    | inl e => (Throw (ErrnoException e), s)
    end.

Declare Scope fsm_scope.
Delimit Scope fsm_scope with fsm.
Notation "x <- m ;; k" := (bind m (fun x => k))
  (at level 61, m at next level, right associativity) : fsm_scope.
Notation "m ;;; k" := (bind m (fun _ => k))
  (at level 61, right associativity) : fsm_scope.
Notation "'try' m 'catch' h" := (try_catch m h)
  (at level 60, m at level 9, h at level 9) : fsm_scope.

(** [await fs.exists(p)]: it never throws. *)
Definition existing (p : string) : M bool :=
  fun s => (Return (fs.exists_ p s), s).

(** [for (const x of xs) body(x)]. *)
Fixpoint for_of {A} (xs : list A) (body : A -> M unit) : M unit :=
  match xs with
  | [] => ret tt
  | x :: r => bind (body x) (fun _ => for_of r body)
  end.

(* ===================================================================== *)
(** * [class MemFS]                                                      *)
(* ===================================================================== *)

Module MemFS.
Import vscode.
Local Open Scope fsm_scope.

Record t : Type := new { this_scheme : string }.

Record WriteOptions : Type := mkWriteOptions {
  create : bool; overwrite : bool
}.

Section Methods.
Variable this : t.

Definition toFileType (stats : fs.Stats) : FileType.t :=
  if fs.isFile stats then FileType.File
  else if fs.isDirectory stats then FileType.Directory
  else if fs.isSymbolicLink stats then FileType.SymbolicLink
  else FileType.Unknown.

Definition asFsPath (uri : Uri) : M string :=
  if negb (scheme uri =? this_scheme this) then
    throw (FsError (FileSystemError.Unavailable
                      ("Unsupported scheme: " ++ scheme uri)%string))
  else ret (path_or_root uri).

Definition toFileSystemError (error : exn) (uri : Uri)
  : FileSystemError.t :=
  match error with
  | ErrnoException fs.ENOENT => FileSystemError.FileNotFound uri
  | ErrnoException fs.EEXIST => FileSystemError.FileExists uri
  | ErrnoException fs.EISDIR => FileSystemError.FileIsADirectory uri
  | ErrnoException fs.ENOTDIR => FileSystemError.FileNotFound uri
  | ErrnoException c => FileSystemError.Unavailable (fs.errno_message c)
  | FsError e => FileSystemError.Unavailable (FileSystemError.message e)
  | Error m => FileSystemError.Unavailable m
  end.

Definition rethrow {A} (uri : Uri) (error : exn) : M A :=
  throw (FsError (toFileSystemError error uri)).

(** [Uri.joinPath(uri, name)]; it throws on a Uri without path. *)
Definition Uri_joinPath (uri : Uri) (name : string) : M Uri :=
  match path uri with
  | EmptyString =>
      throw (Error "[UriError]: cannot call joinPath on URI without path")
  | _ => ret (mkUri (scheme uri) (path.join (path uri) name))
  end.

Definition stat (uri : Uri) : M FileStat :=
  fsPath <- asFsPath uri ;;
  try (stats <- reading (fs.stat fsPath) ;;
       ret (mkFileStat (toFileType stats) (fs.size stats)))
  catch (rethrow uri).

Fixpoint readDirectory_loop (uri : Uri) (entries : list string)
  : M (list (string * FileType.t)) :=
  match entries with
  | [] => ret []
  | name :: rest =>
      childUri <- Uri_joinPath uri name ;;
      childPath <- asFsPath childUri ;;
      st <- reading (fs.stat childPath) ;;
      result <- readDirectory_loop uri rest ;;
      ret ((name, toFileType st) :: result)
  end.

Definition readDirectory (uri : Uri) : M (list (string * FileType.t)) :=
  fsPath <- asFsPath uri ;;
  try (entries <- reading (fs.readdir fsPath) ;;
       readDirectory_loop uri entries)
  catch (rethrow uri).

Definition readFile (uri : Uri) : M (list byte) :=
  fsPath <- asFsPath uri ;;
  try (reading (fs.readFile fsPath)) catch (rethrow uri).

Definition writeFile (uri : Uri) (content : list byte)
           (options : WriteOptions) : M unit :=
  fsPath <- asFsPath uri ;;
  ex <- existing fsPath ;;
  if negb ex && negb (create options) then
    throw (FsError (FileSystemError.FileNotFound uri))
  else
    try (writing (fs.writeFile fsPath content
                    (if overwrite options then fs.w else fs.wx)))
    catch (rethrow uri).

(** [contents] is a string or bytes; a string goes through
    [Buffer.from]. *)
Definition writeData (uri : Uri) (contents : string + list byte)
           (options : WriteOptions) : M unit :=
  let buffer :=
    match contents with
    | inl text => list_byte_of_string text
    | inr bytes => bytes
    end in
  writeFile uri buffer options.

Definition delete (uri : Uri) (recursive : bool) : M unit :=
  fsPath <- asFsPath uri ;;
  try (writing (fs.rm fsPath true recursive)) catch (rethrow uri).

Definition rename (oldUri newUri : Uri) (overwrite : bool) : M unit :=
  oldPath <- asFsPath oldUri ;;
  newPath <- asFsPath newUri ;;
  try ((if overwrite then
          ex <- existing newPath ;;
          if ex then writing (fs.rm newPath true true) else ret tt
        else ret tt) ;;;
       writing (fs.rename oldPath newPath))
  catch (rethrow oldUri).

Definition createDirectory (uri : Uri) : M unit :=
  fsPath <- asFsPath uri ;;
  try (writing (fs.mkdir fsPath)) catch (rethrow uri).

(** The body of the [for] loop of [copyDirectory]; [rec] is
    [copyDirectory] itself.  A file is written with the default flag of
    [fs.writeFile], "w"; [overwrite] is passed along and never read. *)
Definition copyDirectory_entry (rec : Uri -> Uri -> bool -> M unit)
           (source destination : Uri) (overwrite : bool) (entry : string)
  : M unit :=
  childSource <- Uri_joinPath source entry ;;
  childDestination <- Uri_joinPath destination entry ;;
  childSourcePath <- asFsPath childSource ;;
  st <- reading (fs.stat childSourcePath) ;;
  if fs.isDirectory st then
    rec childSource childDestination overwrite
  else
    childSourcePath' <- asFsPath childSource ;;
    data <- reading (fs.readFile childSourcePath') ;;
    childDestPath <- asFsPath childDestination ;;
    writing (fs.writeFile childDestPath data fs.w).

Fixpoint copyDirectory (fuel : nat) (source destination : Uri)
         (overwrite : bool) : M unit :=
  match fuel with
  | 0 => diverge
  | S fuel' =>
      sourcePath <- asFsPath source ;;
      destPath <- asFsPath destination ;;
      ex <- existing destPath ;;
      (if negb ex then writing (fs.mkdir destPath) else ret tt) ;;;
      entries <- reading (fs.readdir sourcePath) ;;
      for_of entries
        (copyDirectory_entry (copyDirectory fuel') source destination
           overwrite)
  end.

Definition ensureParentDirectory (fsPath : string) : M unit :=
  let parent := path.dirname fsPath in
  if negb (parent =? "") && negb (parent =? fsPath) then
    ex <- existing parent ;;
    if negb ex then writing (fs.mkdir parent) else ret tt
  else ret tt.

Definition copy (fuel : nat) (source destination : Uri)
           (overwrite : bool) : M unit :=
  sourcePath <- asFsPath source ;;
  destPath <- asFsPath destination ;;
  try (exs <- existing sourcePath ;;
       if negb exs then
         throw (FsError (FileSystemError.FileNotFound source))
       else
         exd <- existing destPath ;;
         if exd && negb overwrite then
           throw (FsError (FileSystemError.FileExists destination))
         else
           ensureParentDirectory destPath ;;;
           st <- reading (fs.stat sourcePath) ;;
           if fs.isDirectory st then
             copyDirectory fuel source destination overwrite
           else
             data <- reading (fs.readFile sourcePath) ;;
             writing (fs.writeFile destPath data fs.w))
  catch (rethrow source).

(** What a run of [copyDirectory] with [fuel] does when the source and
    the destination part and the names under the source are valid: it
    changes the store under the destination only; when it returns, every
    file under the source is under the destination; and with fuel above
    the height of the source it does not run out of fuel. *)
Definition copyDirectory_correct (fuel : nat) : Prop :=
  forall source destination overwrite s,
    scheme source = this_scheme this ->
    scheme destination = this_scheme this ->
    let src := path.segments (path_or_root source) in
    let dst := path.segments (path_or_root destination) in
    fs.diverge src dst = true ->
    (forall n, fs.lookup src (Some s) = Some n -> fs.valid_names n = true) ->
    let r := copyDirectory fuel source destination overwrite s in
    fs.same_off dst s (snd r) /\
    (fst r = Return tt -> fs.copied src dst s (snd r)) /\
    (fs.height_at (path_or_root source) s < fuel -> fst r <> Diverge).

End Methods.
End MemFS.

(* ===================================================================== *)
(** * The functions of [activate]                                        *)
(* ===================================================================== *)

Module Extension.
Local Open Scope fsm_scope.

(** [makeSureRoot]. *)
Definition makeSureRoot : M unit :=
  ex <- existing "/" ;;
  if negb ex then writing (fs.mkdir "/") else ret tt.

(** The command "memfs.reset", up to the message it shows at the end:
    every name that the root lists is removed, recursively and with
    force; the bare name is what [fs.rm] gets, and the store resolves it
    from the root, its working directory.  An exception of the store is
    not caught. *)
Definition reset : M unit :=
  dirs <- reading (fs.readdir "/") ;;
  for_of dirs (fun dir => writing (fs.rm dir true true)).

End Extension.

(* ===================================================================== *)
(** * Cancellation tokens and loop control                               *)
(* ===================================================================== *)

(** A token is polled: [token n] is what the [n]-th read of
    [token.isCancellationRequested] sees. *)
Definition CancellationToken : Type := nat -> bool.

(** How a loop body or a call ends: go on, [return] from the enclosing
    function, or out of fuel. *)
Inductive ctl : Type := Continue | Exit | NoFuel.

(** The function that holds a loop has returned when the loop went
    through or a [return] left it. *)
Definition returned (c : ctl) : ctl :=
  match c with NoFuel => NoFuel | _ => Continue end.

(** [options.maxResults && n >= options.maxResults]. *)
Definition limit_reached (maxResults : option nat) (n : nat) : bool :=
  match maxResults with
  | Some m => negb (m =? 0)%nat && (m <=? n)%nat
  | None => false
  end.

(** What both searches hand out: a Uri parsed from the path that
    [path.join] made for a regular file of the store. *)
Definition made_from_regular (memFs : MemFS.t) (store : fs.store)
           (u : vscode.Uri) : Prop :=
  exists folderPath entry,
    fs.is_regular (path.join folderPath entry) store = true /\
    vscode.Uri_parse (MemFS.this_scheme memFs ++ ":"
                      ++ path.join folderPath entry) = Some u.

(* ===================================================================== *)
(** * [class MemFSFileSearchProvider]                                    *)
(* ===================================================================== *)

Module MemFSFileSearchProvider.
Import vscode.

(** The [results] array and the number of reads of the token so far. *)
Record state : Type := mkState { results : list Uri; polls : nat }.

Section Provider.
Variable memFs : MemFS.t.
Variable store : fs.store.
Variable query : FileSearchQuery.
Variable options : SearchOptions.
Variable token : CancellationToken.

Definition isCancellationRequested (st : state) : bool * state :=
  (token (polls st), mkState (results st) (S (polls st))).

Definition push (u : Uri) (st : state) : state :=
  mkState (results st ++ [u]) (polls st).

Definition patternLower : string := Str.toLowerCase (fq_pattern query).

(** The [for] loop of [searchInFolder]; [rec] is [searchInFolder]
    itself.  The loop is inside the [try] block: what [fs.stat] or
    [Uri.parse] throws ends the call. *)
Fixpoint searchInFolder_entries (rec : string -> state -> ctl * state)
         (folderPath : string) (entries : list string) (st : state)
  : ctl * state :=
  match entries with
  | [] => (Continue, st)
  | entry :: rest =>
      let (cancelled, st) := isCancellationRequested st in
      if cancelled then (Exit, st)
      else
        let entryPath := path.join folderPath entry in
        match fs.stat entryPath store with
        | inl _ => (Exit, st)
        | inr stat =>
            if fs.isDirectory stat then
              if limit_reached (maxResults options)
                   (List.length (results st))
              then (Exit, st)
              else
                match rec entryPath st with
                | (NoFuel, st') => (NoFuel, st')
                | (_, st') =>
                    searchInFolder_entries rec folderPath rest st'
                end
            else if fs.isFile stat then
              if Str.includes (Str.toLowerCase entry) patternLower then
                match Uri_parse (MemFS.this_scheme memFs ++ ":"
                                 ++ entryPath) with
                | None => (Exit, st)
                | Some u =>
                    let st := push u st in
                    if limit_reached (maxResults options)
                         (List.length (results st))
                    then (Exit, st)
                    else searchInFolder_entries rec folderPath rest st
                end
              else searchInFolder_entries rec folderPath rest st
            else searchInFolder_entries rec folderPath rest st
        end
  end.

Fixpoint searchInFolder (fuel : nat) (folderPath : string) (st : state)
  : ctl * state :=
  match fuel with
  | 0 => (NoFuel, st)
  | S fuel' =>
      let (cancelled, st) := isCancellationRequested st in
      if cancelled then (Continue, st)
      else
        match fs.readdir folderPath store with
        | inl _ => (Continue, st)
        | inr entries =>
            let (c, st') :=
              searchInFolder_entries (searchInFolder fuel')
                folderPath entries st in
            (returned c, st')
        end
  end.

(** [for (const folder of options.includes || [])]. *)
Fixpoint includes_loop (fuel : nat) (folders : list Uri) (st : state)
  : ctl * state :=
  match folders with
  | [] => (Continue, st)
  | folder :: rest =>
      let (cancelled, st) := isCancellationRequested st in
      if cancelled then (Continue, st)
      else
        let folderPath := path_or_root folder in
        match searchInFolder fuel folderPath st with
        | (NoFuel, st') => (NoFuel, st')
        | (_, st') => includes_loop fuel rest st'
        end
  end.

Definition run (fuel : nat) : ctl * state :=
  let st := mkState [] 0 in
  match includes_loop fuel
          (match includes options with Some l => l | None => [] end) st
  with
  | (NoFuel, st') => (NoFuel, st')
  | (_, st') =>
      match includes options with
      | Some (_ :: _) => (Continue, st')
      | _ => searchInFolder fuel "/" st'
      end
  end.

Definition provideFileSearchResults (fuel : nat) : outcome (list Uri) :=
  match run fuel with
  | (NoFuel, _) => Diverge
  | (_, st) => Return (results st)
  end.

(** Every result so far was made from a regular file of the store. *)
Definition results_regular (st : state) : Prop :=
  Forall (made_from_regular memFs store) (results st).

End Provider.
End MemFSFileSearchProvider.

(* ===================================================================== *)
(** * Regular expressions                                                *)
(* ===================================================================== *)

(** The engine behind [new RegExp] and [RegExp.prototype.exec]:
    [compile pattern ignoreCase] is [None] when the constructor throws a
    syntax error; [exec_at re line i] is the first match that starts at
    or after position [i], as its start and its length. *)
Record RegExpEngine : Type := mkEngine {
  RegExp : Type;
  compile : string -> bool -> option RegExp;
  exec_at : RegExp -> string -> nat -> option (nat * nat)
}.

(** What every engine guarantees on [line]: a match lies at or after the
    position the search started from, and inside the line. *)
Definition engine_sound (E : RegExpEngine) (re : RegExp E) (line : string)
  : Prop :=
  forall i idx len,
    exec_at E re line i = Some (idx, len) ->
    i <= idx /\ idx + len <= String.length line.

(** The engine of patterns without metacharacters: a pattern matches its
    own text, with letters folded when [ignoreCase] is set. *)
Module LiteralEngine.

Definition metachars : list ascii :=
  ["\"; "^"; "$"; "."; "|"; "?"; "*"; "+"; "("; ")"; "["; "]"; "{"; "}"]%char.

Definition plain (p : string) : bool :=
  forallb (fun c => negb (Str.contains c p)) metachars.

Definition compile (p : string) (ignoreCase : bool)
  : option (string * bool) :=
  if plain p then Some (if ignoreCase then Str.toLowerCase p else p,
                        ignoreCase)
  else None.

Definition exec_at (re : string * bool) (line : string) (i : nat)
  : option (nat * nat) :=
  let subject := if snd re then Str.toLowerCase line else line in
  if (String.length line <? i)%nat then None
  else match Str.indexOf subject (fst re) i with
       | Some idx => Some (idx, String.length (fst re))
       | None => None
       end.

Definition engine : RegExpEngine := mkEngine (string * bool) compile exec_at.

End LiteralEngine.

(* ===================================================================== *)
(** * [class MemFSTextSearchProvider]                                    *)
(* ===================================================================== *)

Module MemFSTextSearchProvider.
Import vscode.

(** The progress sink (oldest report first), the two shared variables
    of the closure, the number of reads of the token, and [lastIndex]
    of the one [RegExp] object of the invocation. *)
Record state : Type := mkState {
  reported : list TextSearchResult;
  resultCount : nat;
  st_limitHit : bool;
  polls : nat;
  lastIndex : nat
}.

(** [textDecoder.decode(content)]. *)
Definition decode (content : list byte) : string :=
  string_of_list_byte content.

Section Provider.
Variable E : RegExpEngine.
Variable memFs : MemFS.t.
Variable store : fs.store.
Variable query : TextSearchQuery.
Variable options : SearchOptions.
Variable token : CancellationToken.

Definition isCancellationRequested (st : state) : bool * state :=
  (token (polls st),
   mkState (reported st) (resultCount st) (st_limitHit st)
           (S (polls st)) (lastIndex st)).

(** [progress.report(r); resultCount++]. *)
Definition report (r : TextSearchResult) (st : state) : state :=
  mkState (reported st ++ [r]) (S (resultCount st)) (st_limitHit st)
          (polls st) (lastIndex st).

Definition set_limitHit (st : state) : state :=
  mkState (reported st) (resultCount st) true (polls st) (lastIndex st).

Definition set_lastIndex (i : nat) (st : state) : state :=
  mkState (reported st) (resultCount st) (st_limitHit st) (polls st) i.

(** [searchPattern.exec(line)] with the global flag. *)
Definition exec (re : RegExp E) (line : string) (st : state)
  : option (nat * nat) * state :=
  if (String.length line <? lastIndex st)%nat then
    (None, set_lastIndex 0 st)
  else
    match exec_at E re line (lastIndex st) with
    | None => (None, set_lastIndex 0 st)
    | Some (idx, len) => (Some (idx, len), set_lastIndex (idx + len) st)
    end.

Definition searchString : string :=
  if isCaseSensitive query then pattern query
  else Str.toLowerCase (pattern query).

(** The object given to [progress.report]. *)
Definition result_at (fileUri : Uri) (lineNumber : nat) (line : string)
           (index len : nat) : TextSearchResult :=
  mkTextSearchResult fileUri
    (mkRange lineNumber index lineNumber (index + len))
    (mkPreview line (mkRange 0 index 0 (index + len))).

(** The [while] loop of the regex branch. *)
Fixpoint regex_loop (fuel : nat) (re : RegExp E) (fileUri : Uri)
         (lineNumber : nat) (line : string) (st : state) : ctl * state :=
  match fuel with
  | 0 => (NoFuel, st)
  | S fuel' =>
      match exec re line st with
      | (None, st) => (Continue, st)
      | (Some (index, len), st) =>
          if st_limitHit st then (Continue, st)
          else
            let (cancelled, st) := isCancellationRequested st in
            if cancelled then (Continue, st)
            else
              let st := report (result_at fileUri lineNumber line
                                  index len) st in
              if limit_reached (maxResults options) (resultCount st)
              then (Exit, set_limitHit st)
              else regex_loop fuel' re fileUri lineNumber line st
      end
  end.

(** The [while] loop of the plain text branch. *)
Fixpoint literal_loop (fuel : nat) (fileUri : Uri) (lineNumber : nat)
         (line searchLine : string) (startIndex : nat) (st : state)
  : ctl * state :=
  match fuel with
  | 0 => (NoFuel, st)
  | S fuel' =>
      match Str.indexOf searchLine searchString startIndex with
      | None => (Continue, st)
      | Some matchIndex =>
          if st_limitHit st then (Continue, st)
          else
            let (cancelled, st) := isCancellationRequested st in
            if cancelled then (Continue, st)
            else
              let st := report (result_at fileUri lineNumber line
                                  matchIndex
                                  (String.length searchString)) st in
              if limit_reached (maxResults options) (resultCount st)
              then (Exit, set_limitHit st)
              else literal_loop fuel' fileUri lineNumber line searchLine
                     (matchIndex + 1) st
      end
  end.

(** The [for] loop over the lines of a file, from line [lineNumber]. *)
Fixpoint lines_loop (fuel : nat) (searchPattern : option (RegExp E))
         (fileUri : Uri) (lines : list string) (lineNumber : nat)
         (st : state) : ctl * state :=
  match lines with
  | [] => (Continue, st)
  | line :: rest =>
      let (cancelled, st) := isCancellationRequested st in
      if cancelled || st_limitHit st then (Exit, st)
      else
        let searchLine :=
          if isCaseSensitive query then line else Str.toLowerCase line in
        let (c, st) :=
          match searchPattern with
          | Some re =>
              regex_loop fuel re fileUri lineNumber line
                (set_lastIndex 0 st)
          | None =>
              literal_loop fuel fileUri lineNumber line searchLine 0 st
          end in
        match c with
        | Continue =>
            lines_loop fuel searchPattern fileUri rest (S lineNumber) st
        | _ => (c, st)
        end
  end.

Definition searchInFile (fuel : nat) (searchPattern : option (RegExp E))
           (filePath : string) (st : state) : ctl * state :=
  let (cancelled, st) := isCancellationRequested st in
  if cancelled || st_limitHit st then (Continue, st)
  else
    match fs.readFile filePath store with
    | inl _ => (Continue, st)
    | inr content =>
        let text := decode content in
        let lines := Str.split_lines text in
        match Uri_parse (MemFS.this_scheme memFs ++ ":" ++ filePath) with
        | None => (Continue, st)
        | Some fileUri =>
            let (c, st') :=
              lines_loop fuel searchPattern fileUri lines 0 st in
            (returned c, st')
        end
    end.

(** The [for] loop of [searchInFolder]; [rec] is [searchInFolder]
    itself. *)
Fixpoint searchInFolder_entries (fuel : nat)
         (searchPattern : option (RegExp E))
         (rec : string -> state -> ctl * state)
         (folderPath : string) (entries : list string) (st : state)
  : ctl * state :=
  match entries with
  | [] => (Continue, st)
  | entry :: rest =>
      let (cancelled, st) := isCancellationRequested st in
      if cancelled || st_limitHit st then (Exit, st)
      else
        let entryPath := path.join folderPath entry in
        match fs.stat entryPath store with
        | inl _ => (Exit, st)
        | inr stat =>
            let (c, st') :=
              if fs.isDirectory stat then rec entryPath st
              else if fs.isFile stat then
                searchInFile fuel searchPattern entryPath st
              else (Continue, st) in
            match c with
            | NoFuel => (NoFuel, st')
            | _ => searchInFolder_entries fuel searchPattern rec
                     folderPath rest st'
            end
        end
  end.

Fixpoint searchInFolder (fuel : nat) (searchPattern : option (RegExp E))
         (folderPath : string) (st : state) : ctl * state :=
  match fuel with
  | 0 => (NoFuel, st)
  | S fuel' =>
      let (cancelled, st) := isCancellationRequested st in
      if cancelled || st_limitHit st then (Continue, st)
      else
        match fs.readdir folderPath store with
        | inl _ => (Continue, st)
        | inr entries =>
            let (c, st') :=
              searchInFolder_entries fuel' searchPattern
                (searchInFolder fuel' searchPattern)
                folderPath entries st in
            (returned c, st')
        end
  end.

(** [for (const folder of options.includes || [])]. *)
Fixpoint includes_loop (fuel : nat) (searchPattern : option (RegExp E))
         (folders : list Uri) (st : state) : ctl * state :=
  match folders with
  | [] => (Continue, st)
  | folder :: rest =>
      let (cancelled, st) := isCancellationRequested st in
      if cancelled || st_limitHit st then (Continue, st)
      else
        let folderPath := path_or_root folder in
        match searchInFolder fuel searchPattern folderPath st with
        | (NoFuel, st') => (NoFuel, st')
        | (_, st') => includes_loop fuel searchPattern rest st'
        end
  end.

(** The body of [provideTextSearchResults] after the pattern has been
    compiled. *)
Definition run (fuel : nat) (searchPattern : option (RegExp E))
  : ctl * state :=
  let st := mkState [] 0 false 0 0 in
  match includes_loop fuel searchPattern
          (match includes options with Some l => l | None => [] end) st
  with
  | (NoFuel, st') => (NoFuel, st')
  | (_, st') =>
      match includes options with
      | Some (_ :: _) => (Continue, st')
      | _ => searchInFolder fuel searchPattern "/" st'
      end
  end.

(** Every report so far was made from a regular file of the store. *)
Definition reported_regular (st : state) : Prop :=
  Forall (fun r => made_from_regular memFs store (uri r)) (reported st).

(** The counter counts the reports; it is below [m] until the flag is
    set, and [m] from then on. *)
Definition within_limit (m : nat) (st : state) : Prop :=
  resultCount st = List.length (reported st) /\
  (st_limitHit st = false -> resultCount st < m) /\
  (st_limitHit st = true -> resultCount st = m).

Definition provideTextSearchResults (fuel : nat)
  : outcome TextSearchComplete * list TextSearchResult :=
  let compiled :=
    if isRegExp query then
      match compile E (pattern query) (negb (isCaseSensitive query)) with
      | Some re => Some (Some re)
      | None => None
      end
    else Some None in
  match compiled with
  | None => (Throw (Error "Invalid regular expression"), [])
  | Some searchPattern =>
      match run fuel searchPattern with
      | (NoFuel, st) => (Diverge, reported st)
      | (_, st) => (Return (mkComplete (st_limitHit st)), reported st)
      end
  end.

End Provider.
End MemFSTextSearchProvider.

(* ===================================================================== *)
(** * What a report of the text search says                              *)
(* ===================================================================== *)

(** What a report says about the store: its Uri was parsed from the
    path of a file that can be read, its line is the line of that file
    at the reported line number, its range is on that line, the preview
    is the line with the same columns on line 0, and [R] holds of the
    line, the start and the length of the match. *)
Definition report_in_file (memFs : MemFS.t) (store : fs.store)
           (R : string -> nat -> nat -> Prop)
           (r : vscode.TextSearchResult) : Prop :=
  exists filePath content line index len,
    vscode.Uri_parse (MemFS.this_scheme memFs ++ ":" ++ filePath)
    = Some (vscode.uri r) /\
    fs.readFile filePath store = inr content /\
    nth_error (Str.split_lines (MemFSTextSearchProvider.decode content))
      (vscode.startLine (vscode.ranges r)) = Some line /\
    vscode.ranges r
    = vscode.mkRange (vscode.startLine (vscode.ranges r)) index
        (vscode.startLine (vscode.ranges r)) (index + len) /\
    vscode.preview r
    = vscode.mkPreview line (vscode.mkRange 0 index 0 (index + len)) /\
    R line index len.

(** The search string of [query] occurs in [line] at [index], letters
    folded unless the query is case sensitive. *)
Definition occurrence (query : vscode.TextSearchQuery) (line : string)
           (index len : nat) : Prop :=
  len = String.length (MemFSTextSearchProvider.searchString query) /\
  String.prefix (MemFSTextSearchProvider.searchString query)
    (Str.drop index
       (if vscode.isCaseSensitive query then line
        else Str.toLowerCase line)) = true.

(** The match lies inside the line. *)
Definition inside (line : string) (index len : nat) : Prop :=
  index + len <= String.length line.

(* ===================================================================== *)
(** * A small store, used to run the definitions                         *)
(* ===================================================================== *)

Module Examples.

Definition bytes (s : string) : list byte := list_byte_of_string s.

Definition memFs : MemFS.t := MemFS.new "memfs".
Definition uri (p : string) : vscode.Uri := vscode.mkUri "memfs" p.
Definition never : CancellationToken := fun _ => false.

(** A store with a symbolic link and a device next to a file. *)
Definition special_tree : fs.store :=
  fs.Dir [("link.ts", fs.Other true);
          ("dev.ts", fs.Other false);
          ("real.ts", fs.File (bytes "link dev real"))].

(** /src/sub/f.txt to be copied over an older /dst/sub/f.txt. *)
Definition copy_tree : fs.store :=
  fs.Dir [("src", fs.Dir [("sub", fs.Dir [("f.txt", fs.File (bytes "new"))]);
                          ("g.txt", fs.File (bytes "g"))]);
          ("dst", fs.Dir [("sub", fs.Dir [("f.txt", fs.File (bytes "old"))])])].

(** A file whose name has an escaped octet in it. *)
Definition percent_tree : fs.store :=
  fs.Dir [("a%41.ts", fs.File (bytes "x"))].

(** /lib/main.ts, /main.test.ts and /main.ts, the directory first. *)
Definition tree : fs.store :=
  fs.Dir [("lib", fs.Dir [("main.ts", fs.File (bytes "Foo bar foo"))]);
          ("main.test.ts", fs.File (bytes "test"));
          ("main.ts", fs.File (bytes "aaa"))].

End Examples.

(* ===================================================================== *)
(** * Properties of the string methods                                   *)
(* ===================================================================== *)

Section StrFacts.
Import Str.

Lemma drop_length k : forall s, String.length (drop k s) = String.length s - k.
Proof.
  induction k as [|k IH]; intros [|c r]; simpl; auto.
Qed.

Lemma drop_drop i : forall k s, drop i (drop k s) = drop (k + i) s.
Proof.
  intros k. induction k as [|k IH]; intros [|c r]; simpl; auto.
  now destruct i.
Qed.

Lemma drop_all s k : String.length s <= k -> drop k s = "".
Proof.
  revert s. induction k as [|k IH]; intros [|c r]; simpl; auto; try lia.
  intros H. apply IH. lia.
Qed.

Lemma prefix_length a : forall b,
  String.prefix a b = true -> String.length a <= String.length b.
Proof.
  induction a as [|c a IH]; intros [|d b]; simpl; try lia; try discriminate.
  destruct (ascii_dec c d); [|discriminate].
  intros H. apply IH in H. lia.
Qed.

Lemma prefix_empty_subject pat :
  pat <> "" -> String.prefix pat "" = false.
Proof. destruct pat; [congruence|reflexivity]. Qed.

Lemma toLowerCase_length s :
  String.length (toLowerCase s) = String.length s.
Proof. induction s; simpl; auto. Qed.

(** What [indexOf_from] finds is the first occurrence. *)
Lemma indexOf_from_some pat : forall s k j,
  indexOf_from pat s k = Some j ->
  k <= j /\ j <= k + String.length s /\
  String.prefix pat (drop (j - k) s) = true /\
  forall i, i < j - k -> String.prefix pat (drop i s) = false.
Proof.
  induction s as [|c r IH]; intros k j; cbn [indexOf_from].
  - destruct (String.prefix pat "") eqn:Ep; [|discriminate].
    intros [= <-]. rewrite Nat.sub_diag. cbn [drop String.length].
    repeat split; auto; try lia.
  - destruct (String.prefix pat (String c r)) eqn:Ep.
    + intros [= <-]. rewrite Nat.sub_diag. cbn [drop String.length].
      repeat split; auto; try lia.
    + intros H. apply IH in H as (H1 & H2 & H3 & H4).
      replace (j - k) with (S (j - S k)) by lia. cbn [drop String.length].
      repeat split; auto; try lia.
      intros [|i] Hi; cbn [drop]; auto. apply H4. lia.
Qed.

Lemma indexOf_from_none pat : forall s k,
  indexOf_from pat s k = None ->
  forall i, String.prefix pat (drop i s) = false.
Proof.
  induction s as [|c r IH]; intros k; cbn [indexOf_from].
  - destruct (String.prefix pat "") eqn:Ep; [discriminate|].
    intros _ [|i]; auto.
  - destruct (String.prefix pat (String c r)) eqn:Ep; [discriminate|].
    intros H [|i]; cbn [drop]; auto. eapply IH; eauto.
Qed.

Lemma indexOf_some s pat start j :
  indexOf s pat start = Some j ->
  Nat.min start (String.length s) <= j /\ j <= String.length s /\
  String.prefix pat (drop j s) = true /\
  forall i, Nat.min start (String.length s) <= i -> i < j ->
            String.prefix pat (drop i s) = false.
Proof.
  unfold indexOf. intros H.
  apply indexOf_from_some in H as (H1 & H2 & H3 & H4).
  rewrite drop_length in H2. rewrite drop_drop in H3.
  set (k := Nat.min start (String.length s)) in *.
  assert (k <= String.length s) by (subst k; lia).
  replace (k + (j - k)) with j in H3 by lia.
  repeat split; auto; try lia.
  intros i Hi Hj. specialize (H4 (i - k)).
  rewrite drop_drop in H4. replace (k + (i - k)) with i in H4 by lia.
  apply H4. lia.
Qed.

Lemma indexOf_none s pat start :
  indexOf s pat start = None ->
  forall i, Nat.min start (String.length s) <= i ->
            String.prefix pat (drop i s) = false.
Proof.
  unfold indexOf. intros H i Hi.
  pose proof (indexOf_from_none _ _ _ H (i - Nat.min start (String.length s)))
    as H'.
  rewrite drop_drop in H'.
  now replace (Nat.min start (String.length s)
               + (i - Nat.min start (String.length s))) with i in H' by lia.
Qed.

Lemma filter_none {A} (f : A -> bool) l :
  (forall x, In x l -> f x = false) -> filter f l = [].
Proof.
  induction l as [|x l IH]; simpl; auto.
  intros H. rewrite (H x) by auto. apply IH. auto.
Qed.

(** The occurrences from [start] on: none when [indexOf] finds none. *)
Lemma occurrences_none s pat start :
  pat <> "" -> indexOf s pat start = None -> occurrences s pat start = [].
Proof.
  intros Hpat H. unfold occurrences. apply filter_none.
  intros k Hk. apply in_seq in Hk.
  apply (indexOf_none _ _ _ H). lia.
Qed.

(** The occurrences from [start] on: the one [indexOf] finds, then those
    from the next position on. *)
Lemma occurrences_some s pat start j :
  pat <> "" -> indexOf s pat start = Some j ->
  j < String.length s /\ start <= j /\
  occurrences s pat start = j :: occurrences s pat (j + 1).
Proof.
  intros Hpat H.
  destruct (indexOf_some _ _ _ _ H) as (H1 & H2 & H3 & H4).
  assert (Hj : j < String.length s).
  { destruct (Nat.lt_ge_cases j (String.length s)) as [|Hge]; auto.
    rewrite (drop_all _ _ Hge), (prefix_empty_subject _ Hpat) in H3.
    discriminate. }
  assert (Hs : start <= j) by lia.
  repeat split; auto.
  unfold occurrences.
  replace (String.length s + 1 - start)
    with ((j - start) + (1 + (String.length s + 1 - (j + 1)))) by lia.
  rewrite seq_app, filter_app.
  rewrite filter_none.
  - replace (start + (j - start)) with j by lia.
    simpl. rewrite H3. now replace (S j) with (j + 1) by lia.
  - intros k Hk. apply in_seq in Hk. apply H4; lia.
Qed.

End StrFacts.

(* ===================================================================== *)
(** * Properties of paths                                                *)
(* ===================================================================== *)

Section PathFacts.
Import path.

Lemma split_nonempty s : split s <> [].
Proof.
  destruct s as [|c r]; simpl; [discriminate|].
  destruct (Ascii.eqb c slash); [discriminate|].
  unfold Str.cons_head. destruct (split r); discriminate.
Qed.

Lemma split_app a b :
  split (a ++ String slash b)%string = split a ++ split b.
Proof.
  induction a as [|c r IH]; simpl; auto.
  destruct (Ascii.eqb c slash); simpl.
  - now rewrite IH.
  - rewrite IH. pose proof (split_nonempty r) as Hne.
    destruct (split r); [congruence|reflexivity].
Qed.

Lemma split_noslash e : Str.contains slash e = false -> split e = [e].
Proof.
  induction e as [|c r IH]; simpl; auto.
  intros H. apply orb_false_iff in H as [Hc Hr].
  rewrite Hc, (IH Hr). reflexivity.
Qed.

Lemma split_pieces s : Forall (fun e => Str.contains slash e = false) (split s).
Proof.
  induction s as [|c r IH]; simpl.
  - repeat constructor.
  - destruct (Ascii.eqb c slash) eqn:Ec.
    + constructor; auto.
    + unfold Str.cons_head. destruct (split r) as [|h t].
      * repeat constructor. simpl. now rewrite Ec.
      * inversion IH; subst. constructor; auto. simpl. now rewrite Ec.
Qed.

Lemma valid_name_noslash e :
  valid_name e = true -> Str.contains slash e = false.
Proof.
  unfold valid_name. intros H.
  apply andb_prop in H as [_ H]. now apply negb_true_iff in H.
Qed.

Lemma step_valid acc e : valid_name e = true -> step acc e = acc ++ [e].
Proof.
  unfold valid_name, step. intros H.
  apply andb_prop in H as [H _]. apply andb_prop in H as [H H3].
  apply andb_prop in H as [H1 H2].
  apply negb_true_iff in H1, H2, H3. now rewrite H1, H2, H3.
Qed.

Lemma fold_step_valid l :
  Forall (fun e => valid_name e = true) l ->
  forall acc, fold_left step l acc = acc ++ l.
Proof.
  induction 1 as [|e l He Hl IH]; intros acc; simpl.
  - now rewrite app_nil_r.
  - rewrite (step_valid _ _ He), IH, <- app_assoc. reflexivity.
Qed.

Lemma Forall_removelast {A} (P : A -> Prop) l :
  Forall P l -> Forall P (removelast l).
Proof.
  induction 1 as [|x l Hx Hl IH]; simpl; auto.
  destruct l; auto.
Qed.

Lemma step_keeps_valid acc e :
  Str.contains slash e = false ->
  Forall (fun e => valid_name e = true) acc ->
  Forall (fun e => valid_name e = true) (step acc e).
Proof.
  intros He Hacc. unfold step.
  destruct (e =? "") eqn:E1; simpl; auto.
  destruct (e =? ".") eqn:E2; simpl; auto.
  destruct (e =? "..") eqn:E3; simpl.
  - now apply Forall_removelast.
  - apply Forall_app. split; auto. constructor; auto.
    unfold valid_name. now rewrite E1, E2, E3, He.
Qed.

Lemma segments_valid p : Forall (fun e => valid_name e = true) (segments p).
Proof.
  unfold segments.
  assert (H : forall l acc,
             Forall (fun e => Str.contains slash e = false) l ->
             Forall (fun e => valid_name e = true) acc ->
             Forall (fun e => valid_name e = true) (fold_left step l acc)).
  { induction l as [|e l IH]; intros acc Hl Hacc; simpl; auto.
    inversion Hl; subst. apply IH; auto. now apply step_keeps_valid. }
  apply H; [apply split_pieces|constructor].
Qed.

Lemma split_concat l :
  l <> [] -> Forall (fun e => Str.contains slash e = false) l ->
  split (String.concat "/" l) = l.
Proof.
  induction l as [|x l IH]; [congruence|]. intros _ H.
  inversion H as [|? ? Hx Hl]; subst.
  destruct l as [|y l].
  - simpl. now apply split_noslash.
  - change (String.concat "/" (x :: y :: l))
      with (x ++ "/" ++ String.concat "/" (y :: l))%string.
    change ("/" ++ String.concat "/" (y :: l))%string
      with (String slash (String.concat "/" (y :: l))).
    rewrite split_app, IH by (auto; discriminate).
    now rewrite (split_noslash _ Hx).
Qed.

Lemma segments_of_segments l :
  Forall (fun e => valid_name e = true) l -> segments (of_segments l) = l.
Proof.
  intros H. unfold segments, of_segments.
  change ("/" ++ String.concat "/" l)%string
    with ("" ++ String slash (String.concat "/" l))%string.
  rewrite split_app. simpl.
  destruct l as [|x l]; [reflexivity|].
  rewrite split_concat.
  - now rewrite fold_step_valid.
  - discriminate.
  - eapply Forall_impl; [|exact H]. apply valid_name_noslash.
Qed.

(** Joining a valid name to a path adds the name to its segments. *)
Lemma segments_join a e :
  valid_name e = true -> segments (join a e) = segments a ++ [e].
Proof.
  intros He. unfold join.
  rewrite segments_of_segments by apply segments_valid.
  unfold segments.
  change (a ++ "/" ++ e)%string with (a ++ String slash e)%string.
  rewrite split_app, fold_left_app.
  rewrite (split_noslash _ (valid_name_noslash _ He)). simpl.
  now apply step_valid.
Qed.

End PathFacts.

(* ===================================================================== *)
(** * Properties of the backing store                                    *)
(* ===================================================================== *)

Section StoreFacts.
Import fs.

Lemma assoc_set_eq x n es : assoc x (set x n es) = Some n.
Proof.
  induction es as [|[y m] r IH]; simpl.
  - now rewrite String.eqb_refl.
  - destruct (x =? y) eqn:E; simpl; rewrite ?String.eqb_refl, ?E; auto.
Qed.

Lemma assoc_set_ne x y n es : x <> y -> assoc y (set x n es) = assoc y es.
Proof.
  intros Hne. induction es as [|[z m] r IH]; simpl.
  - destruct (y =? x) eqn:E; auto.
    apply String.eqb_eq in E. congruence.
  - destruct (x =? z) eqn:E; simpl.
    + apply String.eqb_eq in E. subst z.
      destruct (y =? x) eqn:E'; auto.
      apply String.eqb_eq in E'. congruence.
    + now rewrite IH.
Qed.

Lemma assoc_del_eq x es : assoc x (del x es) = None.
Proof.
  induction es as [|[y m] r IH]; simpl; auto.
  destruct (x =? y) eqn:E; simpl; auto. now rewrite E.
Qed.

Lemma assoc_del_ne x y es : x <> y -> assoc y (del x es) = assoc y es.
Proof.
  intros Hne. induction es as [|[z m] r IH]; simpl; auto.
  destruct (x =? z) eqn:E; simpl.
  - apply String.eqb_eq in E. subst z.
    destruct (y =? x) eqn:E'; auto.
    apply String.eqb_eq in E'. congruence.
  - now rewrite IH.
Qed.

Lemma assoc_upd_eq x o es : assoc x (upd x o es) = o.
Proof. destruct o; simpl; [apply assoc_set_eq | apply assoc_del_eq]. Qed.

Lemma assoc_upd_ne x y o es : x <> y -> assoc y (upd x o es) = assoc y es.
Proof.
  destruct o; simpl; [apply assoc_set_ne | apply assoc_del_ne].
Qed.

Lemma assoc_in x n es : assoc x es = Some n -> In x (map fst es).
Proof.
  induction es as [|[y m] r IH]; simpl; [discriminate|].
  destruct (x =? y) eqn:E; auto.
  apply String.eqb_eq in E. auto.
Qed.

Lemma lookup_None p : lookup p None = None.
Proof. now destruct p. Qed.

Lemma lookup_app p q o : lookup (p ++ q) o = lookup q (lookup p o).
Proof.
  revert o. induction p as [|x p IH]; intros o; simpl; auto.
  destruct o as [[| es |]|]; auto using lookup_None.
  all: now rewrite lookup_None.
Qed.

(** After [alter f p] the entry at [p] is what [f] returned. *)
Lemma lookup_alter_same f p o o' :
  alter f p o = inr o' ->
  f (lookup p o) = inr (lookup p o').
Proof.
  revert o o'. induction p as [|x p IH]; intros o o'; simpl.
  - auto.
  - destruct o as [[| es |]|]; try discriminate.
    destruct (alter f p (assoc x es)) as [e|c] eqn:E; [discriminate|].
    intros [= <-]. rewrite assoc_upd_eq. now apply IH.
Qed.

(** [alter f p] leaves every path alone that parts from [p]. *)
Lemma lookup_alter_other f p q o o' :
  alter f p o = inr o' ->
  diverge p q = true ->
  lookup q o' = lookup q o.
Proof.
  revert q o o'. induction p as [|x p IH]; intros q o o'; simpl.
  - discriminate.
  - destruct q as [|y q]; [discriminate|].
    destruct o as [[| es |]|]; try discriminate.
    destruct (alter f p (assoc x es)) as [e|c] eqn:E; [discriminate|].
    intros [= <-] Hd. simpl.
    destruct (x =? y) eqn:Exy.
    + apply String.eqb_eq in Exy. subst y.
      rewrite assoc_upd_eq. eapply IH; eauto.
    + apply String.eqb_neq in Exy. now rewrite assoc_upd_ne.
Qed.

Lemma has_parent_lookup p o n : lookup p o = Some n -> has_parent p o = true.
Proof.
  revert o. induction p as [|x p IH]; intros o; simpl; auto.
  destruct o as [[| es |]|]; try discriminate. apply IH.
Qed.

Lemma has_parent_removelast p o es :
  lookup (removelast p) o = Some (Dir es) -> has_parent p o = true.
Proof.
  revert o. induction p as [|x p IH]; intros o; simpl; auto.
  destruct p as [|y p].
  - simpl. now intros ->.
  - change (lookup (x :: removelast (y :: p)) o = Some (Dir es) ->
            has_parent (x :: y :: p) o = true).
    simpl lookup. destruct o as [[| es' |]|]; try discriminate.
    intros H. now apply IH.
Qed.

(** [alter f p] goes through when the directory that holds [p] is
    there and [f] accepts the entry. *)
Lemma alter_defined f p o r :
  has_parent p o = true ->
  f (lookup p o) = inr r ->
  exists o', alter f p o = inr o'.
Proof.
  revert o. induction p as [|x p IH]; intros o Hp Hf; simpl in *.
  - eauto.
  - destruct o as [[| es |]|]; try discriminate.
    destruct (IH _ Hp Hf) as [o' ->]. eauto.
Qed.

Lemma alter_refused f p o e :
  has_parent p o = true ->
  f (lookup p o) = inl e ->
  alter f p o = inl e.
Proof.
  revert o. induction p as [|x p IH]; intros o Hp Hf; simpl in *.
  - auto.
  - destruct o as [[| es |]|]; try discriminate.
    now rewrite (IH _ Hp Hf).
Qed.

Lemma write_at_some data fl o r :
  write_at data fl o = inr r -> r = Some (File data).
Proof.
  unfold write_at. destruct o as [[| |]|], fl; congruence.
Qed.

(** [writeFile] on a path whose directory is there: the outcome is
    that of [write_at] on the entry. *)
Lemma writeFile_accepted p data fl s r :
  has_parent (path.segments p) (Some s) = true ->
  write_at data fl (resolve p s) = inr r ->
  exists s', writeFile p data fl s = inr s' /\
             resolve p s' = Some (File data).
Proof.
  unfold writeFile, alter_store, resolve. intros Hp Hw.
  destruct (alter_defined _ _ _ _ Hp Hw) as [o' Ho'].
  rewrite Ho'. pose proof (lookup_alter_same _ _ _ _ Ho') as Hl.
  rewrite Hw in Hl. apply write_at_some in Hw. subst r.
  injection Hl as Hl.
  destruct o' as [s'|].
  - exists s'. auto.
  - now rewrite lookup_None in Hl.
Qed.

Lemma writeFile_refused p data fl s e :
  has_parent (path.segments p) (Some s) = true ->
  write_at data fl (resolve p s) = inl e ->
  writeFile p data fl s = inl e.
Proof.
  unfold writeFile, alter_store, resolve. intros Hp Hw.
  now rewrite (alter_refused _ _ _ _ Hp Hw).
Qed.

Lemma alter_store_inv f p s s' :
  alter_store f p s = inr s' -> alter f p (Some s) = inr (Some s').
Proof.
  unfold alter_store. destruct (alter f p (Some s)) as [e|[n|]];
    congruence.
Qed.

Lemma diverge_sym p q : diverge p q = diverge q p.
Proof.
  revert q. induction p as [|x p IH]; intros [|y q]; simpl; auto.
  rewrite (String.eqb_sym y x). destruct (x =? y); auto.
Qed.

Lemma is_prefix_app p q :
  is_prefix p q = true -> exists r, q = p ++ r.
Proof.
  revert q. induction p as [|x p IH]; intros q; simpl.
  - eauto.
  - destruct q as [|y q]; [discriminate|].
    intros H. apply andb_prop in H as [Hxy H].
    apply String.eqb_eq in Hxy. subst y.
    destruct (IH _ H) as [r ->]. eauto.
Qed.

(** Two paths part, or one leads to the other. *)
Lemma paths_trichotomy p q :
  is_prefix p q = true \/ is_prefix q p = true \/ diverge p q = true.
Proof.
  revert q. induction p as [|x p IH]; intros [|y q]; simpl; auto.
  rewrite (String.eqb_sym y x). destruct (x =? y); simpl; auto.
Qed.

Lemma lookup_under_absent p q o :
  is_prefix p q = true -> lookup p o = None -> lookup q o = None.
Proof.
  intros H Hn. destruct (is_prefix_app _ _ H) as [r ->].
  now rewrite lookup_app, Hn, lookup_None.
Qed.

(** [unlink p]: the entry at [p] is gone and the paths that part from
    [p] are as before. *)
Lemma unlink_spec p s s1 :
  unlink p s = inr s1 ->
  lookup p (Some s1) = None /\
  forall q, diverge p q = true -> lookup q (Some s1) = lookup q (Some s).
Proof.
  unfold unlink. destruct p as [|x p]; [discriminate|].
  intros H. apply alter_store_inv in H. split.
  - apply lookup_alter_same in H. congruence.
  - intros q Hq. eapply lookup_alter_other; eauto.
Qed.

Lemma assoc_In x c es : assoc x es = Some c -> In (x, c) es.
Proof.
  induction es as [|[y m] r IH]; simpl; [discriminate|].
  destruct (x =? y) eqn:E; auto.
  apply String.eqb_eq in E. intros [= ->]. subst. auto.
Qed.

Lemma In_assoc x es : In x (map fst es) -> exists c, assoc x es = Some c.
Proof.
  induction es as [|[y m] r IH]; simpl; [tauto|].
  intros [->|H].
  - rewrite String.eqb_refl. eauto.
  - destruct (x =? y); eauto.
Qed.

Lemma valid_names_child x c es :
  valid_names (Dir es) = true -> assoc x es = Some c ->
  path.valid_name x = true /\ valid_names c = true.
Proof.
  simpl. intros Hv Ha. apply assoc_In in Ha.
  rewrite forallb_forall in Hv. specialize (Hv _ Ha). simpl in Hv.
  now apply andb_prop in Hv.
Qed.

Lemma valid_names_lookup p : forall n c,
  valid_names n = true -> lookup p (Some n) = Some c ->
  valid_names c = true.
Proof.
  induction p as [|x p IH]; intros n c Hv; simpl.
  - now intros [= <-].
  - destruct n as [| es |]; try discriminate.
    destruct (assoc x es) as [c'|] eqn:Ea.
    + apply IH. eapply valid_names_child; eauto.
    + now rewrite lookup_None.
Qed.

Lemma height_child x c es : assoc x es = Some c -> height c < height (Dir es).
Proof.
  intros Ha. apply assoc_In in Ha. simpl.
  assert (H : height c <= list_max (map (fun e => height (snd e)) es)).
  { pose proof (proj1 (list_max_le (map (fun e => height (snd e)) es) _)
                  (Nat.le_refl _)) as Hall.
    rewrite Forall_forall in Hall. apply Hall.
    change (height c) with ((fun e => height (snd e)) (x, c)).
    now apply in_map. }
  lia.
Qed.

Lemma height_lookup p : forall n c,
  lookup p (Some n) = Some c -> height c <= height n.
Proof.
  induction p as [|x p IH]; intros n c; simpl.
  - now intros [= <-].
  - destruct n as [| es |]; try discriminate.
    destruct (assoc x es) as [c'|] eqn:Ea.
    + intros H. apply IH in H. apply height_child in Ea. lia.
    + now rewrite lookup_None.
Qed.

(** The entry that [path.join p e] denotes is the entry [e] of the
    directory at [p]. *)
Lemma resolve_join p e s :
  path.valid_name e = true ->
  resolve (path.join p e) s
  = match resolve p s with
    | Some (Dir es) => assoc e es
    | _ => None
    end.
Proof.
  intros He. unfold resolve. rewrite (segments_join p e He), lookup_app.
  destruct (lookup (path.segments p) (Some s)) as [[| es |]|]; reflexivity.
Qed.

Lemma rm_spec p force recursive s s1 n :
  resolve p s = Some n ->
  rm p force recursive s = inr s1 ->
  unlink (path.segments p) s = inr s1.
Proof.
  unfold rm. intros ->. destruct n as [|[|? ?]|]; auto.
  destruct recursive; auto. discriminate.
Qed.

End StoreFacts.

(* ===================================================================== *)
(** * Properties of [MemFS]                                              *)
(* ===================================================================== *)

Section MemFSFacts.
Import vscode.
Variable this : MemFS.t.

Lemma asFsPath_cases uri s :
  (scheme uri = MemFS.this_scheme this /\
   MemFS.asFsPath this uri s = (Return (path_or_root uri), s)) \/
  (scheme uri <> MemFS.this_scheme this /\
   exists m, MemFS.asFsPath this uri s
             = (Throw (FsError (FileSystemError.Unavailable m)), s)).
Proof.
  unfold MemFS.asFsPath.
  destruct (scheme uri =? MemFS.this_scheme this) eqn:E; simpl.
  - left. apply String.eqb_eq in E. auto.
  - right. apply String.eqb_neq in E. split; [auto|].
    eexists. reflexivity.
Qed.

Lemma asFsPath_ok uri s :
  scheme uri = MemFS.this_scheme this ->
  MemFS.asFsPath this uri s = (Return (path_or_root uri), s).
Proof.
  intros H. destruct (asFsPath_cases uri s) as [[_ ?]|[? _]]; tauto.
Qed.

(** What [writeFile] wrote is what [readFile] reads, whatever the
    options of the write were. *)
Lemma writeFile_then_readFile uri content options s s' :
  MemFS.writeFile this uri content options s = (Return tt, s') ->
  MemFS.readFile this uri s' = (Return content, s').
Proof.
  unfold MemFS.writeFile, MemFS.readFile, bind.
  destruct (asFsPath_cases uri s) as [[Hs ->]|[_ [m ->]]]; [|discriminate].
  rewrite (asFsPath_ok uri s' Hs).
  unfold existing.
  destruct (negb _ && negb _); [discriminate|].
  unfold try_catch, writing, reading, fs.writeFile, fs.readFile,
    fs.alter_store, fs.resolve.
  destruct (fs.alter _ _ _) as [e|[n|]] eqn:Ea; try discriminate.
  intros [= <-].
  apply lookup_alter_same in Ea.
  assert (Hr : fs.lookup (path.segments (path_or_root uri)) (Some n)
               = Some (fs.File content)).
  { unfold fs.write_at in Ea.
    destruct (fs.lookup _ (Some s)) as [[| |]|],
      (MemFS.overwrite options); congruence. }
  now rewrite Hr.
Qed.

(** C1.  Round trip: after a successful
    [writeFile(uri, content, { create: true, overwrite: true })],
    [readFile(uri)] returns exactly [content]. *)
Theorem C1_write_read_roundtrip uri content s s' :
  MemFS.writeFile this uri content (MemFS.mkWriteOptions true true) s
    = (Return tt, s') ->
  MemFS.readFile this uri s' = (Return content, s').
Proof. apply writeFile_then_readFile. Qed.

(** C9.  [delete] of a path that does not exist, be it that a name is
    missing or that a name on the way is no directory, returns without
    an error and leaves the store as it was, for either value of
    [recursive]. *)
Theorem C9_delete_absent_succeeds uri recursive s :
  scheme uri = MemFS.this_scheme this ->
  fs.exists_ (path_or_root uri) s = false ->
  MemFS.delete this uri recursive s = (Return tt, s).
Proof.
  intros Hs Hex. unfold MemFS.delete, bind.
  rewrite (asFsPath_ok uri s Hs).
  unfold try_catch, writing, fs.rm.
  unfold fs.exists_ in Hex.
  destruct (fs.resolve (path_or_root uri) s); [discriminate|reflexivity].
Qed.

(** C4, on the targets for which it holds.  For a [uri] of the
    provider's scheme such that the directory that would hold the target
    is there (as it is when the target exists): [writeFile] throws
    [FileNotFound] exactly when the target does not exist and [create] is
    false, and then the store is unchanged; it throws [FileExists]
    exactly when the target exists and [overwrite] is false; in every
    other case it returns and the content of the target is [content]. *)
Theorem C4_writeFile_outcomes uri content options s :
  scheme uri = MemFS.this_scheme this ->
  fs.has_parent (path.segments (path_or_root uri)) (Some s) = true ->
  let target_exists := fs.exists_ (path_or_root uri) s in
  let r := MemFS.writeFile this uri content options s in
  (fst r = Throw (FsError (FileSystemError.FileNotFound uri)) <->
   target_exists = false /\ MemFS.create options = false) /\
  (fst r = Throw (FsError (FileSystemError.FileNotFound uri)) ->
   snd r = s) /\
  (fst r = Throw (FsError (FileSystemError.FileExists uri)) <->
   target_exists = true /\ MemFS.overwrite options = false) /\
  (~ (target_exists = false /\ MemFS.create options = false) ->
   ~ (target_exists = true /\ MemFS.overwrite options = false) ->
   fst r = Return tt /\
   MemFS.readFile this uri (snd r) = (Return content, snd r)).
Proof.
  intros Hs Hp target_exists r.
  assert (Hr : r =
    if negb target_exists && negb (MemFS.create options)
    then (Throw (FsError (FileSystemError.FileNotFound uri)), s)
    else if target_exists && negb (MemFS.overwrite options)
    then (Throw (FsError (FileSystemError.FileExists uri)), s)
    else (Return tt, snd r)).
  { subst r target_exists. unfold MemFS.writeFile, bind.
    rewrite (asFsPath_ok uri s Hs). unfold existing.
    destruct (negb (fs.exists_ _ s) && negb _) eqn:E1; [reflexivity|].
    unfold try_catch, writing.
    set (fl := if MemFS.overwrite options then fs.w else fs.wx).
    destruct (fs.write_at content fl (fs.resolve (path_or_root uri) s))
      as [e|o] eqn:Ew.
    - rewrite (writeFile_refused _ _ _ _ _ Hp Ew).
      unfold fs.exists_. unfold fs.write_at in Ew. subst fl.
      destruct (fs.resolve (path_or_root uri) s) as [n|],
        (MemFS.overwrite options); try discriminate.
      injection Ew as <-. reflexivity.
    - destruct (writeFile_accepted _ _ _ _ _ Hp Ew) as [s' [Hw _]].
      rewrite Hw. simpl.
      unfold fs.exists_. unfold fs.write_at in Ew. subst fl.
      destruct (fs.resolve (path_or_root uri) s) as [n|],
        (MemFS.overwrite options); try discriminate; reflexivity. }
  assert (Hread : fst r = Return tt ->
                  MemFS.readFile this uri (snd r) = (Return content, snd r)).
  { intros Hok. apply (writeFile_then_readFile uri content options s).
    fold r. destruct r as [[[]| |] s']; simpl in *; congruence. }
  destruct target_exists, (MemFS.create options),
    (MemFS.overwrite options); simpl in Hr; rewrite Hr in *; simpl;
    repeat split; intros; try congruence; try tauto;
    try (destruct H; congruence);
    try (apply Hread; rewrite Hr; reflexivity).
Qed.

(** C5.  A successful [rename(a, b, { overwrite: true })] onto an
    existing [b] is the recursive removal of [b] followed by the
    store's rename; afterwards the entry at [b] is the one that was at
    [a], so a file at [b] reads as the file at [a] did, and [a] no
    longer exists.  (It holds whether or not the two entries
    differed.) *)
Theorem C5_rename_overwrite a b s s' na nb :
  fs.resolve (path_or_root a) s = Some na ->
  fs.resolve (path_or_root b) s = Some nb ->
  MemFS.rename this a b true s = (Return tt, s') ->
  (exists s1,
      fs.rm (path_or_root b) true true s = inr s1 /\
      fs.rename (path_or_root a) (path_or_root b) s1 = inr s') /\
  fs.resolve (path_or_root b) s' = Some na /\
  (forall d, na = fs.File d -> MemFS.readFile this b s' = (Return d, s')) /\
  fs.resolve (path_or_root a) s' = None /\
  fs.exists_ (path_or_root a) s' = false.
Proof.
  intros Ha Hb. unfold MemFS.rename, bind.
  destruct (asFsPath_cases a s) as [[Hsa ->]|[_ [m ->]]]; [|discriminate].
  destruct (asFsPath_cases b s) as [[Hsb ->]|[_ [m ->]]]; [|discriminate].
  unfold try_catch, bind, existing, fs.exists_. rewrite Hb.
  unfold writing at 1.
  destruct (fs.rm (path_or_root b) true true s) as [e|s1] eqn:Erm;
    [discriminate|].
  unfold writing.
  destruct (fs.rename (path_or_root a) (path_or_root b) s1) as [e|s2]
    eqn:Ern; [discriminate|].
  intros [= <-].
  pose proof (rm_spec _ _ _ _ _ _ Hb Erm) as Eul.
  destruct (unlink_spec _ _ _ Eul) as [Hb1 Hframe1].
  set (pa := path.segments (path_or_root a)) in *.
  set (pb := path.segments (path_or_root b)) in *.
  assert (Hres : fs.lookup pb (Some s2) = Some na /\
                 fs.lookup pa (Some s2) = None).
  { pose proof Ern as Ern'. unfold fs.rename in Ern'. fold pa pb in Ern'.
    destruct (fs.lookup pa (Some s1)) as [n|] eqn:Ha1; [|discriminate].
    destruct (fs.is_prefix pa pb) eqn:Epre.
    { destruct (fs.is_prefix pb pa) eqn:Epre'; [|discriminate].
      rewrite (lookup_under_absent _ _ _ Epre' Hb1) in Ha1. discriminate. }
    destruct (paths_trichotomy pa pb) as [H|[H|Hd]]; [congruence| |].
    { rewrite (lookup_under_absent _ _ _ H Hb1) in Ha1. discriminate. }
    assert (n = na).
    { rewrite Hframe1 in Ha1 by now rewrite diverge_sym.
      unfold fs.resolve in Ha. fold pa in Ha. congruence. }
    subst n. rewrite Hb1 in Ern'.
    destruct (fs.unlink pa s1) as [e|s3] eqn:Eu.
    { destruct na; discriminate. }
    assert (Hput : fs.alter_store (fun _ => inr (Some na)) pb s3 = inr s2)
      by (destruct na; exact Ern').
    apply alter_store_inv in Hput.
    destruct (unlink_spec _ _ _ Eu) as [Ha3 _].
    split.
    - apply lookup_alter_same in Hput. congruence.
    - rewrite (lookup_alter_other _ _ _ _ _ Hput)
        by now rewrite diverge_sym.
      exact Ha3. }
  destruct Hres as [Hb2 Ha2].
  repeat split.
  - exists s1. split; [reflexivity|exact Ern].
  - exact Hb2.
  - intros d ->. unfold MemFS.readFile, bind.
    rewrite (asFsPath_ok b s2 Hsb).
    unfold try_catch, reading, fs.readFile, fs.resolve. fold pb.
    now rewrite Hb2.
  - exact Ha2.
  - unfold fs.exists_, fs.resolve. fold pa. now rewrite Ha2.
Qed.

End MemFSFacts.

Lemma C1_write_read_roundtrip_witness :
  let r := MemFS.writeFile Examples.memFs (Examples.uri "/lib/new.ts")
             (Examples.bytes "let x") (MemFS.mkWriteOptions true true)
             Examples.tree in
  fst r = Return tt /\
  MemFS.readFile Examples.memFs (Examples.uri "/lib/new.ts") (snd r)
  = (Return (Examples.bytes "let x"), snd r).
Proof.
  intros r. split; [reflexivity|].
  apply (C1_write_read_roundtrip Examples.memFs (Examples.uri "/lib/new.ts")
           (Examples.bytes "let x") Examples.tree (snd r)).
  reflexivity.
Defined.

Lemma C9_delete_absent_succeeds_witness :
  MemFS.delete Examples.memFs (Examples.uri "/lib/gone.ts") false Examples.tree
  = (Return tt, Examples.tree)
  /\ MemFS.delete Examples.memFs (Examples.uri "/nowhere/gone.ts") true
       Examples.tree
     = (Return tt, Examples.tree)
  /\ MemFS.delete Examples.memFs (Examples.uri "/main.ts/x") false
       Examples.tree
     = (Return tt, Examples.tree).
Proof.
  split; [|split].
  - apply (C9_delete_absent_succeeds Examples.memFs
             (Examples.uri "/lib/gone.ts") false Examples.tree);
      reflexivity.
  - apply (C9_delete_absent_succeeds Examples.memFs
             (Examples.uri "/nowhere/gone.ts") true Examples.tree);
      reflexivity.
  - apply (C9_delete_absent_succeeds Examples.memFs
             (Examples.uri "/main.ts/x") false Examples.tree);
      reflexivity.
Defined.

Lemma C4_writeFile_outcomes_witness :
  let r := MemFS.writeFile Examples.memFs (Examples.uri "/main.ts")
             (Examples.bytes "new") (MemFS.mkWriteOptions false true)
             Examples.tree in
  fst r = Return tt /\
  MemFS.readFile Examples.memFs (Examples.uri "/main.ts") (snd r)
  = (Return (Examples.bytes "new"), snd r).
Proof.
  apply (C4_writeFile_outcomes Examples.memFs (Examples.uri "/main.ts")
           (Examples.bytes "new") (MemFS.mkWriteOptions false true)
           Examples.tree).
  - reflexivity.
  - reflexivity.
  - intros [H _]. discriminate H.
  - intros [_ H]. discriminate H.
Defined.

(** C4 as the specification has it fails on a target whose directory is
    missing: the target does not exist and [create] is set, yet the
    write throws [FileNotFound]; and on a Uri of another scheme: with
    both flags set the write throws [Unavailable] instead of
    returning. *)
Lemma C4_counterexample :
  let options := MemFS.mkWriteOptions true true in
  let r := MemFS.writeFile Examples.memFs (Examples.uri "/nodir/x")
             (Examples.bytes "new") options Examples.tree in
  let r' := MemFS.writeFile Examples.memFs (vscode.mkUri "file" "/main.ts")
              (Examples.bytes "new") options Examples.tree in
  (fs.exists_ "/nodir/x" Examples.tree = false /\
   r = (Throw (FsError (vscode.FileSystemError.FileNotFound
                          (Examples.uri "/nodir/x"))), Examples.tree) /\
   ~ (fst r = Throw (FsError (vscode.FileSystemError.FileNotFound
                                (Examples.uri "/nodir/x"))) <->
      fs.exists_ "/nodir/x" Examples.tree = false /\
      MemFS.create options = false)) /\
  r' = (Throw (FsError (vscode.FileSystemError.Unavailable
                          "Unsupported scheme: file")), Examples.tree).
Proof.
  split; [|reflexivity]. split; [reflexivity|]. split; [reflexivity|].
  intros [H _]. specialize (H eq_refl). destruct H as [_ H]. discriminate H.
Qed.

Lemma C5_rename_overwrite_witness :
  let s' := snd (MemFS.rename Examples.memFs (Examples.uri "/main.ts")
                   (Examples.uri "/main.test.ts") true Examples.tree) in
  fs.resolve "/main.test.ts" s' = Some (fs.File (Examples.bytes "aaa")) /\
  fs.resolve "/main.ts" s' = None.
Proof.
  intros s'.
  destruct (C5_rename_overwrite Examples.memFs (Examples.uri "/main.ts")
              (Examples.uri "/main.test.ts") Examples.tree s'
              (fs.File (Examples.bytes "aaa"))
              (fs.File (Examples.bytes "test"))
              eq_refl eq_refl eq_refl) as (_ & Hb & _ & Ha & _).
  split; [exact Hb|exact Ha].
Defined.

(* ===================================================================== *)
(** * Properties of [Uri.parse]                                          *)
(* ===================================================================== *)

Section UriFacts.
Import vscode.

Lemma span_all stop s :
  forallb (fun c => negb (stop c)) (list_ascii_of_string s) = true ->
  span stop s = (s, "").
Proof.
  induction s as [|c r IH]; simpl; auto.
  intros H. apply andb_prop in H as [Hc Hr].
  apply negb_true_iff in Hc. rewrite Hc, (IH Hr). reflexivity.
Qed.

Lemma span_app stop a c b :
  forallb (fun c => negb (stop c)) (list_ascii_of_string a) = true ->
  stop c = true ->
  span stop (a ++ String c b) = (a, String c b).
Proof.
  intros Ha Hc. induction a as [|d r IH]; simpl.
  - now rewrite Hc.
  - simpl in Ha. apply andb_prop in Ha as [Hd Hr].
    apply negb_true_iff in Hd. rewrite Hd, (IH Hr). reflexivity.
Qed.

Lemma contains_forallb c s :
  Str.contains c s = false ->
  forallb (fun d => negb (Ascii.eqb d c)) (list_ascii_of_string s) = true.
Proof.
  induction s as [|d r IH]; simpl; auto.
  intros H. apply orb_false_iff in H as [Hd Hr].
  now rewrite Hd, (IH Hr).
Qed.

Lemma forallb_impl {A} (f g : A -> bool) l :
  (forall x, f x = true -> g x = true) ->
  forallb f l = true -> forallb g l = true.
Proof.
  intros H. induction l as [|x l IH]; simpl; auto.
  intros Hl. apply andb_prop in Hl as [Hx Hl].
  now rewrite (H x Hx), (IH Hl).
Qed.

Lemma percentDecode_plain s :
  Str.contains "%" s = false -> percentDecode s = s.
Proof.
  unfold percentDecode. induction s as [|c r IH]; [reflexivity|].
  simpl. intros H. apply orb_false_iff in H as [Hc Hr].
  rewrite Hc. simpl. rewrite (IH Hr).
  destruct r as [|x [|y r']]; reflexivity.
Qed.

(** No character of a scheme ends the scheme. *)
Lemma scheme_char c :
  is_word c || Ascii.eqb c "+" || Ascii.eqb c "." || Ascii.eqb c "-" = true ->
  negb (Ascii.eqb c ":" || is_delimiter c) = true.
Proof.
  destruct c as [[] [] [] [] [] [] [] []]; vm_compute; congruence.
Qed.

Lemma scheme_ok_chars s :
  scheme_ok s = true ->
  s <> "" /\
  forallb (fun c => negb (Ascii.eqb c ":" || is_delimiter c))
    (list_ascii_of_string s) = true.
Proof.
  destruct s as [|c r]; [discriminate|]. simpl.
  intros H. apply andb_prop in H as [Hc Hr]. split; [discriminate|].
  rewrite (scheme_char c) by (now rewrite Hc). simpl.
  revert Hr. apply forallb_impl. apply scheme_char.
Qed.

(** [Uri.parse] of a well-formed scheme, a colon and an absolute path
    free of "%", "?" and "#" is the Uri of that scheme and that path. *)
Lemma Uri_parse_plain scheme p :
  scheme_ok scheme = true ->
  starts_with_slash p = true ->
  starts_with_two_slashes p = false ->
  plain p = true ->
  Uri_parse (scheme ++ ":" ++ p) = Some (mkUri scheme p).
Proof.
  intros Hs H1 H2 Hp.
  destruct (scheme_ok_chars _ Hs) as [Hne Hchars].
  unfold plain in Hp.
  apply andb_prop in Hp as [Hp Hh]. apply andb_prop in Hp as [Hpc Hq].
  apply negb_true_iff in Hpc, Hq, Hh.
  unfold Uri_parse.
  change (scheme ++ ":" ++ p)%string with (scheme ++ String ":" p)%string.
  rewrite (span_app _ scheme ":" p Hchars eq_refl).
  destruct scheme as [|c0 s0]; [congruence|].
  destruct p as [|c p']; [discriminate|].
  simpl in H1. destruct c as [[] [] [] [] [] [] [] []]; try discriminate.
  assert (Hrest : (let (authority0, rest) :=
                     match String "/" p' with
                     | String "/" (String "/" r) => span is_delimiter r
                     | _ => ("", String "/" p')
                     end in (authority0, rest)) = ("", String "/" p')).
  { destruct p' as [|d p'']; [reflexivity|].
    simpl in H2. destruct d as [[] [] [] [] [] [] [] []];
      try reflexivity. discriminate. }
  destruct (match String "/" p' with
            | String "/" (String "/" r) => span is_delimiter r
            | _ => ("", String "/" p')
            end) as [authority0 rest]. injection Hrest as -> ->.
  rewrite span_all.
  2:{ apply contains_forallb in Hq, Hh.
      rewrite forallb_forall in *. intros x Hx.
      specialize (Hq x Hx). specialize (Hh x Hx).
      apply negb_true_iff in Hq, Hh. now rewrite Hq, Hh. }
  cbn [fst Str.or_else].
  rewrite Hs. cbn [negb].
  rewrite (percentDecode_plain _ Hpc).
  change (percentDecode "") with "".
  assert (Href : referenceResolution (String c0 s0) (String "/" p')
                 = String "/" p').
  { unfold referenceResolution. destruct (_ || _); reflexivity. }
  rewrite Href. cbv beta iota.
  change (starts_with_two_slashes (String "/" p')) with
    (match p' with String "/" _ => true | _ => false end) in H2 |- *.
  now rewrite H2.
Qed.

Lemma contains_app c a b :
  Str.contains c (a ++ b) = Str.contains c a || Str.contains c b.
Proof.
  induction a as [|d r IH]; simpl; auto. now rewrite IH, orb_assoc.
Qed.

Lemma contains_concat c l :
  Str.contains c "/" = false ->
  Forall (fun e => Str.contains c e = false) l ->
  Str.contains c (String.concat "/" l) = false.
Proof.
  intros Hsep. induction 1 as [|e l He Hl IH]; [reflexivity|].
  destruct l as [|e' l']; [exact He|].
  cbn [String.concat]. rewrite !contains_app, He, Hsep.
  exact IH.
Qed.

Lemma plain_of_segments l :
  Forall (fun e => plain e = true) l -> plain (path.of_segments l) = true.
Proof.
  intros Hl. unfold plain, path.of_segments.
  assert (H : forall c, Str.contains c "/" = false ->
              Forall (fun e => Str.contains c e = false) l ->
              Str.contains c ("/" ++ String.concat "/" l) = false).
  { intros c Hc Hall. rewrite contains_app, Hc. simpl.
    now apply contains_concat. }
  rewrite !H; try reflexivity.
  all: eapply Forall_impl; [|exact Hl]; simpl; intros e He;
    unfold plain in He;
    apply andb_prop in He as [He H3]; apply andb_prop in He as [H1 H2];
    apply negb_true_iff in H1, H2, H3; assumption.
Qed.

Lemma absolute_of_segments l :
  Forall (fun e => path.valid_name e = true) l ->
  starts_with_slash (path.of_segments l) = true /\
  starts_with_two_slashes (path.of_segments l) = false.
Proof.
  intros Hl. split; [reflexivity|].
  destruct l as [|e l]; [reflexivity|].
  inversion Hl as [|? ? He _]; subst.
  unfold path.of_segments. cbn [String.concat].
  assert (Hhead : starts_with_slash e = false).
  { pose proof (valid_name_noslash _ He) as Hns.
    destruct e as [|c r]; [reflexivity|].
    simpl in Hns. apply orb_false_iff in Hns as [Hc _].
    unfold path.slash in Hc.
    destruct c as [[] [] [] [] [] [] [] []]; try reflexivity.
    discriminate. }
  assert (Hne : e <> "").
  { intros ->. discriminate. }
  destruct e as [|c r]; [congruence|].
  destruct l as [|e' l']; simpl in *;
    destruct c as [[] [] [] [] [] [] [] []]; try reflexivity;
    discriminate.
Qed.

Lemma plain_names_child x c es :
  plain_names (fs.Dir es) = true -> fs.assoc x es = Some c ->
  plain x = true /\ plain_names c = true.
Proof.
  simpl. intros Hv Ha. apply assoc_In in Ha.
  rewrite forallb_forall in Hv. specialize (Hv _ Ha). simpl in Hv.
  now apply andb_prop in Hv.
Qed.

Lemma plain_names_lookup l : forall n c,
  plain_names n = true -> fs.lookup l (Some n) = Some c ->
  Forall (fun e => plain e = true) l.
Proof.
  induction l as [|x l IH]; intros n c Hn Hl; [constructor|].
  destruct n as [| es |]; try discriminate.
  cbn [fs.lookup] in Hl.
  destruct (fs.assoc x es) as [c'|] eqn:Ex;
    [|now rewrite lookup_None in Hl].
  destruct (plain_names_child _ _ _ Hn Ex) as [Hx Hc'].
  constructor; [exact Hx|]. eapply IH; eauto.
Qed.

(** The path that [path.join] makes for an entry that is in the store
    parses to itself. *)
Lemma Uri_parse_join scheme folderPath entry store n :
  scheme_ok scheme = true ->
  plain_names store = true ->
  fs.resolve (path.join folderPath entry) store = Some n ->
  Uri_parse (scheme ++ ":" ++ path.join folderPath entry)
  = Some (mkUri scheme (path.join folderPath entry)).
Proof.
  intros Hs Hp Hr. unfold fs.resolve, path.join in *.
  rewrite segments_of_segments in Hr by apply segments_valid.
  destruct (absolute_of_segments _
              (segments_valid (folderPath ++ "/" ++ entry))) as [H1 H2].
  apply Uri_parse_plain; auto.
  apply plain_of_segments. eapply plain_names_lookup; eauto.
Qed.

End UriFacts.

(* ===================================================================== *)
(** * Properties of the filename search                                  *)
(* ===================================================================== *)

Section FileSearchFacts.
Import vscode.
Variable memFs : MemFS.t.
Variable store : fs.store.
Variable query : FileSearchQuery.
Variable options : SearchOptions.
Variable token : CancellationToken.

Local Abbreviation state := MemFSFileSearchProvider.state.
Local Abbreviation results := MemFSFileSearchProvider.results.
Local Abbreviation searchInFolder_entries :=
  (MemFSFileSearchProvider.searchInFolder_entries memFs store query options
     token).
Local Abbreviation searchInFolder :=
  (MemFSFileSearchProvider.searchInFolder memFs store query options token).
Local Abbreviation includes_loop :=
  (MemFSFileSearchProvider.includes_loop memFs store query options token).
Local Abbreviation results_regular :=
  (MemFSFileSearchProvider.results_regular memFs store).

Lemma file_entries_regular rec folderPath entries :
  (forall p st, results_regular st -> results_regular (snd (rec p st))) ->
  forall st, results_regular st ->
  results_regular (snd (searchInFolder_entries rec folderPath entries st)).
Proof.
  intros Hrec. induction entries as [|entry rest IH]; intros st Hst;
    simpl; auto.
  destruct (token _); simpl; auto.
  destruct (fs.stat _ store) as [e|stat] eqn:Estat; simpl; auto.
  destruct (fs.isDirectory stat).
  - destruct (limit_reached _ _); simpl; auto.
    destruct (rec _ _) as [c st'] eqn:Er.
    assert (results_regular st').
    { change st' with (snd (c, st')). rewrite <- Er. apply Hrec. exact Hst. }
    destruct c; auto.
  - destruct (fs.isFile stat) eqn:Efile; [|apply IH; exact Hst].
    destruct (Str.includes _ _); [|apply IH; exact Hst].
    destruct (Uri_parse _) as [u|] eqn:Eu; [|exact Hst].
    match goal with
    | |- context [MemFSFileSearchProvider.push u ?s] =>
        assert (Hpush : results_regular (MemFSFileSearchProvider.push u s))
    end.
    { unfold results_regular, MemFSFileSearchProvider.push. simpl.
      apply Forall_app. split; [exact Hst|].
      constructor; [|constructor].
      exists folderPath, entry. split; [|exact Eu].
      unfold fs.is_regular. now rewrite Estat. }
    destruct (limit_reached _ _); simpl; auto.
Qed.

Lemma file_searchInFolder_regular fuel :
  forall p st, results_regular st ->
  results_regular (snd (searchInFolder fuel p st)).
Proof.
  induction fuel as [|fuel IH]; intros p st Hst; simpl; auto.
  destruct (token _); simpl; auto.
  destruct (fs.readdir p store) as [e|entries]; simpl; auto.
  destruct (searchInFolder_entries _ _ _ _) as [c st'] eqn:Ee. simpl.
  change st' with (snd (c, st')). rewrite <- Ee.
  apply file_entries_regular; auto.
Qed.

Lemma file_includes_regular fuel folders :
  forall st, results_regular st ->
  results_regular (snd (includes_loop fuel folders st)).
Proof.
  induction folders as [|folder rest IH]; intros st Hst; simpl; auto.
  destruct (token _); simpl; auto.
  destruct (searchInFolder _ _ _) as [c st'] eqn:Es.
  assert (results_regular st').
  { change st' with (snd (c, st')). rewrite <- Es.
    apply file_searchInFolder_regular. exact Hst. }
  destruct c; auto.
Qed.

Lemma file_run_regular fuel :
  results_regular
    (snd (MemFSFileSearchProvider.run memFs store query options token fuel)).
Proof.
  unfold MemFSFileSearchProvider.run.
  destruct (includes_loop _ _ _) as [c st'] eqn:Ei.
  assert (results_regular st').
  { change st' with (snd (c, st')). rewrite <- Ei.
    apply file_includes_regular. constructor. }
  destruct c; auto.
  all: destruct (includes options) as [[|? ?]|]; auto;
    apply file_searchInFolder_regular; auto.
Qed.

(** An entry that is neither a regular file nor a directory costs one
    read of the token and nothing else. *)
Lemma file_entries_skip rec folderPath entry rest st :
  token (MemFSFileSearchProvider.polls st) = false ->
  fs.is_special (path.join folderPath entry) store = true ->
  searchInFolder_entries rec folderPath (entry :: rest) st
  = searchInFolder_entries rec folderPath rest
      (MemFSFileSearchProvider.mkState (results st)
         (S (MemFSFileSearchProvider.polls st))).
Proof.
  intros Htok Hsp. simpl. rewrite Htok.
  unfold fs.is_special in Hsp.
  destruct (fs.stat _ store) as [e|stat]; [discriminate|].
  apply andb_prop in Hsp as [Hf Hd].
  apply negb_true_iff in Hf, Hd. now rewrite Hd, Hf.
Qed.

(** ** Enough fuel *)

Lemma file_entries_returns rec folderPath entries :
  (forall entry st stat,
      In entry entries ->
      fs.stat (path.join folderPath entry) store = inr stat ->
      fs.isDirectory stat = true ->
      fst (rec (path.join folderPath entry) st) <> NoFuel) ->
  forall st,
    fst (searchInFolder_entries rec folderPath entries st) <> NoFuel.
Proof.
  induction entries as [|entry rest IH]; intros Hrec st; simpl;
    [discriminate|].
  destruct (token _); simpl; [discriminate|].
  destruct (fs.stat _ store) as [e|stat] eqn:Estat; simpl; [discriminate|].
  assert (IH' : forall st,
             fst (searchInFolder_entries rec folderPath rest st) <> NoFuel).
  { apply IH. intros entry' st0 stat0 Hin. apply Hrec. now right. }
  destruct (fs.isDirectory stat) eqn:Edir.
  - destruct (limit_reached _ _); simpl; [discriminate|].
    pose proof (Hrec entry
                  (MemFSFileSearchProvider.mkState (results st)
                     (S (MemFSFileSearchProvider.polls st)))
                  stat (or_introl eq_refl) Estat Edir) as Hret.
    destruct (rec _ _) as [c st']. simpl in Hret.
    destruct c; auto; congruence.
  - destruct (fs.isFile stat); [|apply IH'].
    destruct (Str.includes _ _); [|apply IH'].
    destruct (Uri_parse _); simpl; [|discriminate].
    destruct (limit_reached _ _); simpl; [discriminate|apply IH'].
Qed.

Lemma file_searchInFolder_returns :
  fs.valid_names store = true ->
  forall fuel p st,
    fs.height_at p store < fuel ->
    fst (searchInFolder fuel p st) <> NoFuel.
Proof.
  intros Hvalid. induction fuel as [|fuel IH]; intros p st Hfuel; [lia|].
  simpl. destruct (token _); simpl; [discriminate|].
  unfold fs.readdir, fs.height_at in *.
  destruct (fs.resolve p store) as [[| es |]|] eqn:Ep; simpl;
    try discriminate.
  assert (Hves : fs.valid_names (fs.Dir es) = true)
    by (eapply valid_names_lookup; eauto).
  match goal with
  | |- fst (let (c, st') := ?body in _) <> _ =>
      assert (Hret : fst body <> NoFuel)
  end.
  { apply file_entries_returns.
    intros entry st0 stat Hin Hstat Hdir.
    destruct (In_assoc _ _ Hin) as [c Hc].
    destruct (valid_names_child _ _ _ Hves Hc) as [Hname _].
    apply IH.
    rewrite (resolve_join _ _ _ Hname), Ep, Hc.
    apply height_child in Hc. lia. }
  destruct (MemFSFileSearchProvider.searchInFolder_entries
              _ _ _ _ _ _ _ _ _) as [c st']. simpl in *.
  destruct c; simpl; congruence.
Qed.

Lemma file_includes_returns fuel folders :
  fs.valid_names store = true ->
  fs.height store < fuel ->
  forall st, fst (includes_loop fuel folders st) <> NoFuel.
Proof.
  intros Hvalid Hfuel.
  induction folders as [|folder rest IH]; intros st; simpl;
    [discriminate|].
  destruct (token _); simpl; [discriminate|].
  match goal with
  | |- context [MemFSFileSearchProvider.searchInFolder _ _ _ _ _ fuel ?p ?s]
    => pose proof (file_searchInFolder_returns Hvalid fuel p s) as Hret
  end.
  destruct (MemFSFileSearchProvider.searchInFolder _ _ _ _ _ _ _ _)
    as [c st'].
  simpl in Hret.
  assert (fs.height_at (path_or_root folder) store <= fs.height store).
  { unfold fs.height_at, fs.resolve.
    destruct (fs.lookup _ _) as [n|] eqn:El; [|lia].
    eapply height_lookup; eauto. }
  destruct c; auto. apply Hret. lia.
Qed.

(** On a store with valid names the filename search returns, given fuel
    above the height of the store. *)
Lemma file_search_returns fuel :
  fs.valid_names store = true ->
  fs.height store < fuel ->
  MemFSFileSearchProvider.provideFileSearchResults memFs store query options
    token fuel
  = Return (results (snd (MemFSFileSearchProvider.run memFs store query
                            options token fuel))).
Proof.
  intros Hvalid Hfuel.
  unfold MemFSFileSearchProvider.provideFileSearchResults.
  assert (Hrun : fst (MemFSFileSearchProvider.run memFs store query options
                        token fuel) <> NoFuel).
  { unfold MemFSFileSearchProvider.run.
    match goal with
    | |- context [MemFSFileSearchProvider.includes_loop _ _ _ _ _ fuel ?l ?s]
      => pose proof (file_includes_returns fuel l Hvalid Hfuel s) as Hret
    end.
    destruct (MemFSFileSearchProvider.includes_loop _ _ _ _ _ _ _ _)
      as [c st'].
    simpl in Hret.
    assert (fst (searchInFolder fuel "/" st') <> NoFuel).
    { apply file_searchInFolder_returns; auto. }
    destruct c; try congruence;
      destruct (includes options) as [[|? ?]|]; auto; discriminate. }
  destruct (MemFSFileSearchProvider.run _ _ _ _ _ _) as [c st].
  destruct c; simpl in *; congruence.
Qed.

End FileSearchFacts.

(* ===================================================================== *)
(** * Properties of the text search: invariants of the traversal         *)
(* ===================================================================== *)

Section TextSearchInvariant.
Import vscode.
Variable E : RegExpEngine.
Variable memFs : MemFS.t.
Variable store : fs.store.
Variable query : TextSearchQuery.
Variable options : SearchOptions.
Variable token : CancellationToken.

Local Abbreviation state := MemFSTextSearchProvider.state.
Local Abbreviation poll :=
  (MemFSTextSearchProvider.isCancellationRequested token).
Local Abbreviation report := MemFSTextSearchProvider.report.
Local Abbreviation set_limitHit := MemFSTextSearchProvider.set_limitHit.
Local Abbreviation set_lastIndex := MemFSTextSearchProvider.set_lastIndex.
Local Abbreviation st_limitHit := MemFSTextSearchProvider.st_limitHit.
Local Abbreviation resultCount := MemFSTextSearchProvider.resultCount.
Local Abbreviation result_at := MemFSTextSearchProvider.result_at.
Local Abbreviation regex_loop :=
  (MemFSTextSearchProvider.regex_loop E options token).
Local Abbreviation literal_loop :=
  (MemFSTextSearchProvider.literal_loop query options token).
Local Abbreviation lines_loop :=
  (MemFSTextSearchProvider.lines_loop E query options token).
Local Abbreviation searchInFile :=
  (MemFSTextSearchProvider.searchInFile E memFs store query options token).
Local Abbreviation searchInFolder_entries :=
  (MemFSTextSearchProvider.searchInFolder_entries E memFs store query
     options token).
Local Abbreviation searchInFolder :=
  (MemFSTextSearchProvider.searchInFolder E memFs store query options token).
Local Abbreviation includes_loop :=
  (MemFSTextSearchProvider.includes_loop E memFs store query options token).

(** A property [I] of the state that reading the token and moving
    [lastIndex] keep, and that a report from a regular file keeps while
    the limit has not been hit. *)
Variable I : state -> Prop.
Hypothesis I_poll : forall st, I st -> I (snd (poll st)).
Hypothesis I_lastIndex : forall i st, I st -> I (set_lastIndex i st).
Hypothesis I_report :
  forall fileUri lineNumber line index len st,
    made_from_regular memFs store fileUri ->
    I st -> st_limitHit st = false ->
    let st' := report (result_at fileUri lineNumber line index len) st in
    if limit_reached (maxResults options) (resultCount st')
    then I (set_limitHit st') else I st'.

Lemma inv_regex_loop fuel re fileUri lineNumber line :
  made_from_regular memFs store fileUri ->
  forall st, I st ->
  I (snd (regex_loop fuel re fileUri lineNumber line st)).
Proof.
  intros Hreg. induction fuel as [|fuel IH]; intros st Hst; simpl; auto.
  unfold MemFSTextSearchProvider.exec.
  destruct (_ <? _)%nat; simpl; auto.
  destruct (exec_at E re line _) as [[index len]|]; simpl; auto.
  pose proof (I_lastIndex (index + len) st Hst) as Hl.
  pose proof (I_poll _ Hl) as Hp.
  pose proof (I_report fileUri lineNumber line index len _ Hreg Hp) as Hr.
  simpl in Hl, Hp, Hr |- *.
  destruct (MemFSTextSearchProvider.st_limitHit st); simpl; auto.
  destruct (token _); simpl; auto.
  specialize (Hr eq_refl).
  destruct (limit_reached _ _); simpl; auto.
Qed.

Lemma inv_literal_loop fuel fileUri lineNumber line searchLine :
  made_from_regular memFs store fileUri ->
  forall startIndex st, I st ->
  I (snd (literal_loop fuel fileUri lineNumber line searchLine startIndex
            st)).
Proof.
  intros Hreg. induction fuel as [|fuel IH]; intros startIndex st Hst;
    simpl; auto.
  destruct (Str.indexOf _ _ _) as [matchIndex|]; simpl; auto.
  pose proof (I_poll _ Hst) as Hp.
  pose proof (I_report fileUri lineNumber line matchIndex
                (String.length (MemFSTextSearchProvider.searchString query))
                _ Hreg Hp) as Hr.
  simpl in Hp, Hr |- *.
  destruct (MemFSTextSearchProvider.st_limitHit st); simpl; auto.
  destruct (token _); simpl; auto.
  specialize (Hr eq_refl).
  destruct (limit_reached _ _); simpl; auto.
Qed.

Lemma inv_lines_loop fuel sp fileUri lines :
  made_from_regular memFs store fileUri ->
  forall lineNumber st, I st ->
  I (snd (lines_loop fuel sp fileUri lines lineNumber st)).
Proof.
  intros Hreg. induction lines as [|line rest IH]; intros lineNumber st Hst;
    simpl; auto.
  pose proof (I_poll st Hst) as Hp. simpl in Hp.
  destruct (token _ || _); simpl; auto.
  destruct sp as [re|].
  - destruct (regex_loop _ _ _ _ _ _) as [c st'] eqn:El.
    assert (I st').
    { change st' with (snd (c, st')). rewrite <- El.
      apply inv_regex_loop; auto. }
    destruct c; simpl; auto.
  - destruct (literal_loop _ _ _ _ _ _ _) as [c st'] eqn:El.
    assert (I st').
    { change st' with (snd (c, st')). rewrite <- El.
      apply inv_literal_loop; auto. }
    destruct c; simpl; auto.
Qed.

Lemma inv_searchInFile fuel sp folderPath entry :
  fs.is_regular (path.join folderPath entry) store = true ->
  forall st, I st ->
  I (snd (searchInFile fuel sp (path.join folderPath entry) st)).
Proof.
  intros Hreg st Hst. unfold MemFSTextSearchProvider.searchInFile.
  pose proof (I_poll st Hst) as Hp. simpl in *.
  destruct (token _ || _); simpl; auto.
  destruct (fs.readFile _ _); simpl; auto.
  destruct (Uri_parse _) as [fileUri|] eqn:Eu; simpl; auto.
  destruct (MemFSTextSearchProvider.lines_loop _ _ _ _ _ _ _ _ _ _)
    as [c st'] eqn:El. simpl.
  change st' with (snd (c, st')). rewrite <- El.
  apply inv_lines_loop; auto.
  exists folderPath, entry. split; assumption.
Qed.

Lemma inv_entries fuel sp rec folderPath entries :
  (forall p st, I st -> I (snd (rec p st))) ->
  forall st, I st ->
  I (snd (searchInFolder_entries fuel sp rec folderPath entries st)).
Proof.
  intros Hrec. induction entries as [|entry rest IH]; intros st Hst;
    simpl; auto.
  pose proof (I_poll st Hst) as Hp. simpl in Hp.
  destruct (token _ || _); simpl; auto.
  destruct (fs.stat _ store) as [e|stat] eqn:Estat; simpl; auto.
  match goal with
  | |- context [let (c, st') := ?body in _] =>
      destruct body as [c st'] eqn:Eb; assert (I st')
  end.
  { change st' with (snd (c, st')). rewrite <- Eb.
    destruct (fs.isDirectory stat); [apply Hrec; auto|].
    destruct (fs.isFile stat) eqn:Efile; simpl; auto.
    apply inv_searchInFile; auto.
    unfold fs.is_regular. now rewrite Estat. }
  destruct c; auto.
Qed.

Lemma inv_searchInFolder fuel sp :
  forall p st, I st -> I (snd (searchInFolder fuel sp p st)).
Proof.
  induction fuel as [|fuel IH]; intros p st Hst; simpl; auto.
  pose proof (I_poll st Hst) as Hp. simpl in Hp.
  destruct (token _ || _); simpl; auto.
  destruct (fs.readdir p store) as [e|entries]; simpl; auto.
  destruct (MemFSTextSearchProvider.searchInFolder_entries
              _ _ _ _ _ _ _ _ _ _ _ _) as [c st'] eqn:Ee. simpl.
  change st' with (snd (c, st')). rewrite <- Ee.
  apply inv_entries; auto.
Qed.

Lemma inv_includes_loop fuel sp folders :
  forall st, I st -> I (snd (includes_loop fuel sp folders st)).
Proof.
  induction folders as [|folder rest IH]; intros st Hst; simpl; auto.
  pose proof (I_poll st Hst) as Hp. simpl in Hp.
  destruct (token _ || _); simpl; auto.
  destruct (MemFSTextSearchProvider.searchInFolder _ _ _ _ _ _ _ _ _ _)
    as [c st'] eqn:Es.
  assert (I st').
  { change st' with (snd (c, st')). rewrite <- Es.
    apply inv_searchInFolder. exact Hp. }
  destruct c; auto.
Qed.

Lemma inv_run fuel sp :
  I (MemFSTextSearchProvider.mkState [] 0 false 0 0) ->
  I (snd (MemFSTextSearchProvider.run E memFs store query options token
            fuel sp)).
Proof.
  intros H0. unfold MemFSTextSearchProvider.run.
  destruct (MemFSTextSearchProvider.includes_loop _ _ _ _ _ _ _ _ _ _)
    as [c st'] eqn:Ei.
  assert (I st').
  { change st' with (snd (c, st')). rewrite <- Ei.
    apply inv_includes_loop. exact H0. }
  destruct c; auto.
  all: destruct (includes options) as [[|? ?]|]; auto;
    apply inv_searchInFolder; auto.
Qed.

End TextSearchInvariant.

(* ===================================================================== *)
(** * Properties of the text search: the result limit                    *)
(* ===================================================================== *)

Section TextSearchLimit.
Import vscode.
Variable E : RegExpEngine.
Variable memFs : MemFS.t.
Variable store : fs.store.
Variable query : TextSearchQuery.
Variable options : SearchOptions.
Variable token : CancellationToken.
Variable m : nat.
Hypothesis Hmax : maxResults options = Some m.
Hypothesis Hm : 0 < m.

Local Abbreviation state := MemFSTextSearchProvider.state.
Local Abbreviation poll :=
  (MemFSTextSearchProvider.isCancellationRequested token).
Local Abbreviation report := MemFSTextSearchProvider.report.
Local Abbreviation set_limitHit := MemFSTextSearchProvider.set_limitHit.
Local Abbreviation set_lastIndex := MemFSTextSearchProvider.set_lastIndex.
Local Abbreviation st_limitHit := MemFSTextSearchProvider.st_limitHit.
Local Abbreviation resultCount := MemFSTextSearchProvider.resultCount.
Local Abbreviation reported := MemFSTextSearchProvider.reported.
Local Abbreviation within_limit := (MemFSTextSearchProvider.within_limit m).
Local Abbreviation regex_loop :=
  (MemFSTextSearchProvider.regex_loop E options token).
Local Abbreviation literal_loop :=
  (MemFSTextSearchProvider.literal_loop query options token).
Local Abbreviation lines_loop :=
  (MemFSTextSearchProvider.lines_loop E query options token).
Local Abbreviation searchInFile :=
  (MemFSTextSearchProvider.searchInFile E memFs store query options token).
Local Abbreviation searchInFolder_entries :=
  (MemFSTextSearchProvider.searchInFolder_entries E memFs store query
     options token).
Local Abbreviation searchInFolder :=
  (MemFSTextSearchProvider.searchInFolder E memFs store query options token).
Local Abbreviation includes_loop :=
  (MemFSTextSearchProvider.includes_loop E memFs store query options token).

Lemma limit_reached_iff n :
  limit_reached (maxResults options) n = true <-> m <= n.
Proof.
  unfold limit_reached. rewrite Hmax.
  destruct (Nat.eqb_spec m 0); [lia|]. simpl. apply Nat.leb_le.
Qed.

Lemma within_limit_poll st : within_limit st -> within_limit (snd (poll st)).
Proof. auto. Qed.

Lemma within_limit_lastIndex i st :
  within_limit st -> within_limit (set_lastIndex i st).
Proof. auto. Qed.

Lemma within_limit_report r st :
  within_limit st -> st_limitHit st = false ->
  if limit_reached (maxResults options) (resultCount (report r st))
  then within_limit (set_limitHit (report r st))
  else within_limit (report r st).
Proof.
  intros (Hc & Hlt & _) Hlim. specialize (Hlt Hlim).
  destruct (limit_reached _ _) eqn:El.
  - apply limit_reached_iff in El. simpl in El.
    repeat split; simpl; try discriminate.
    + rewrite length_app. simpl. lia.
    + intros _. lia.
  - assert (~ m <= resultCount (report r st)).
    { intros H. apply limit_reached_iff in H. congruence. }
    simpl in H.
    repeat split; simpl; try congruence.
    + rewrite length_app. simpl. lia.
    + intros _. lia.
Qed.

Lemma within_limit_count st : within_limit st -> resultCount st <= m.
Proof.
  intros (_ & Hlt & Heq). destruct (st_limitHit st) eqn:El.
  - rewrite (Heq eq_refl). lia.
  - specialize (Hlt eq_refl). lia.
Qed.

(** ** Enough fuel *)

Lemma regex_loop_returns fuel re fileUri lineNumber line :
  forall st, within_limit st -> m < fuel + resultCount st ->
  fst (regex_loop fuel re fileUri lineNumber line st) <> NoFuel.
Proof.
  induction fuel as [|fuel IH]; intros st Hst Hfuel.
  - apply within_limit_count in Hst. simpl in Hfuel. lia.
  - simpl. unfold MemFSTextSearchProvider.exec.
    destruct (_ <? _)%nat; simpl; [discriminate|].
    destruct (exec_at E re line _) as [[index len]|]; simpl; [|discriminate].
    pose proof (within_limit_report
                  (MemFSTextSearchProvider.result_at fileUri lineNumber line
                     index len) _
                  (within_limit_poll _
                     (within_limit_lastIndex (index + len) _ Hst))) as Hr.
    simpl in Hr |- *.
    destruct (MemFSTextSearchProvider.st_limitHit st); simpl; [discriminate|].
    destruct (token _); simpl; [discriminate|].
    specialize (Hr eq_refl).
    destruct (limit_reached _ _); simpl; [discriminate|].
    apply IH; [exact Hr|]. simpl. lia.
Qed.

Lemma literal_loop_returns fuel fileUri lineNumber line searchLine :
  forall startIndex st, within_limit st -> m < fuel + resultCount st ->
  fst (literal_loop fuel fileUri lineNumber line searchLine startIndex st)
  <> NoFuel.
Proof.
  induction fuel as [|fuel IH]; intros startIndex st Hst Hfuel.
  - apply within_limit_count in Hst. simpl in Hfuel. lia.
  - simpl.
    destruct (Str.indexOf _ _ _) as [matchIndex|]; simpl; [|discriminate].
    pose proof (within_limit_report
                  (MemFSTextSearchProvider.result_at fileUri lineNumber line
                     matchIndex
                     (String.length
                        (MemFSTextSearchProvider.searchString query)))
                  _ (within_limit_poll _ Hst)) as Hr.
    simpl in Hr |- *.
    destruct (MemFSTextSearchProvider.st_limitHit st); simpl; [discriminate|].
    destruct (token _); simpl; [discriminate|].
    specialize (Hr eq_refl).
    destruct (limit_reached _ _); simpl; [discriminate|].
    apply IH; [exact Hr|]. simpl. lia.
Qed.

Lemma within_limit_report_file
  (fileUri : Uri) (lineNumber : nat) (line : string) (index len : nat)
  (st : state) :
  made_from_regular memFs store fileUri ->
  within_limit st -> st_limitHit st = false ->
  let st' := report (MemFSTextSearchProvider.result_at fileUri
                       lineNumber line index len) st in
  if limit_reached (maxResults options) (resultCount st')
  then within_limit (set_limitHit st') else within_limit st'.
Proof. intros _. apply within_limit_report. Qed.

Lemma returned_fuel c : c <> NoFuel -> returned c <> NoFuel.
Proof. destruct c; simpl; congruence. Qed.

Lemma lines_loop_returns fuel sp fileUri lines :
  m < fuel ->
  made_from_regular memFs store fileUri ->
  forall lineNumber st, within_limit st ->
  fst (lines_loop fuel sp fileUri lines lineNumber st) <> NoFuel.
Proof.
  intros Hfuel Hreg.
  induction lines as [|line rest IH]; intros lineNumber st Hst; simpl;
    [discriminate|].
  pose proof (within_limit_poll _ Hst) as Hp. simpl in Hp.
  destruct (token _ || _); simpl; [discriminate|].
  destruct sp as [re|].
  - pose proof (regex_loop_returns fuel re fileUri
                  lineNumber line _
                  (within_limit_lastIndex 0 _ Hp)) as Hret.
    pose proof (inv_regex_loop E memFs store options token within_limit
                  within_limit_poll within_limit_lastIndex
                  within_limit_report_file fuel re fileUri lineNumber line
                  Hreg _ (within_limit_lastIndex 0 _ Hp)) as Hinv.
    simpl in Hret, Hinv.
    destruct (regex_loop _ _ _ _ _ _) as [c st']. simpl in *.
    destruct c; simpl; auto; try discriminate.
    apply Hret. lia.
  - pose proof (literal_loop_returns fuel fileUri
                  lineNumber line
                  (if isCaseSensitive query then line
                   else Str.toLowerCase line) 0 _ Hp) as Hret.
    pose proof (inv_literal_loop memFs store query options token
                  within_limit within_limit_poll
                  within_limit_report_file fuel fileUri lineNumber line
                  (if isCaseSensitive query then line
                   else Str.toLowerCase line) Hreg 0 _ Hp) as Hinv.
    simpl in Hret, Hinv.
    destruct (literal_loop _ _ _ _ _ _ _) as [c st']. simpl in *.
    destruct c; simpl; auto; try discriminate.
    apply Hret. lia.
Qed.

Lemma searchInFile_returns fuel sp folderPath entry st :
  m < fuel ->
  fs.is_regular (path.join folderPath entry) store = true ->
  within_limit st ->
  fst (searchInFile fuel sp (path.join folderPath entry) st) <> NoFuel.
Proof.
  intros Hfuel Hreg Hst. unfold MemFSTextSearchProvider.searchInFile.
  pose proof (within_limit_poll _ Hst) as Hp. simpl in *.
  destruct (token _ || _); simpl; [discriminate|].
  destruct (fs.readFile _ _); simpl; [discriminate|].
  destruct (Uri_parse _) as [fileUri|] eqn:Eu; simpl; [|discriminate].
  pose proof (lines_loop_returns fuel sp fileUri
                (Str.split_lines (MemFSTextSearchProvider.decode l))
                Hfuel (ex_intro _ folderPath
                         (ex_intro _ entry (conj Hreg Eu))) 0 _ Hp) as Hret.
  destruct (MemFSTextSearchProvider.lines_loop _ _ _ _ _ _ _ _ _ _)
    as [c st']. simpl in *. now apply returned_fuel.
Qed.

Lemma entries_returns fuel sp rec folderPath entries :
  m < fuel ->
  (forall p st, within_limit st -> within_limit (snd (rec p st))) ->
  (forall entry st stat,
      In entry entries -> within_limit st ->
      fs.stat (path.join folderPath entry) store = inr stat ->
      fs.isDirectory stat = true ->
      fst (rec (path.join folderPath entry) st) <> NoFuel) ->
  forall st, within_limit st ->
  fst (searchInFolder_entries fuel sp rec folderPath entries st) <> NoFuel.
Proof.
  intros Hfuel Hinv.
  induction entries as [|entry rest IH]; intros Hrec st Hst; simpl;
    [discriminate|].
  pose proof (within_limit_poll _ Hst) as Hp. simpl in Hp.
  destruct (token _ || _); simpl; [discriminate|].
  destruct (fs.stat _ store) as [e|stat] eqn:Estat; simpl; [discriminate|].
  assert (IH' : forall st, within_limit st ->
                fst (searchInFolder_entries fuel sp rec folderPath rest st)
                <> NoFuel).
  { apply IH. intros entry' st0 stat0 Hin. apply Hrec. now right. }
  destruct (fs.isDirectory stat) eqn:Edir.
  - pose proof (Hrec entry _ stat (or_introl eq_refl) Hp Estat Edir) as Hret.
    pose proof (Hinv (path.join folderPath entry) _ Hp) as Hi.
    destruct (rec _ _) as [c st']. simpl in *.
    destruct c; auto; congruence.
  - destruct (fs.isFile stat) eqn:Efile; [|now apply IH'].
    assert (Hreg : fs.is_regular (path.join folderPath entry) store = true).
    { unfold fs.is_regular. now rewrite Estat. }
    pose proof (searchInFile_returns fuel sp _ _ _ Hfuel Hreg Hp) as Hret.
    pose proof (inv_searchInFile E memFs store query options token
                  within_limit within_limit_poll within_limit_lastIndex
                  within_limit_report_file fuel sp _ _ Hreg _ Hp) as Hi.
    destruct (MemFSTextSearchProvider.searchInFile _ _ _ _ _ _ _ _ _ _)
      as [c st']. simpl in *.
    destruct c; auto; congruence.
Qed.

Lemma searchInFolder_returns sp :
  fs.valid_names store = true ->
  forall fuel p st,
    within_limit st -> fs.height_at p store + m < fuel ->
    fst (searchInFolder fuel sp p st) <> NoFuel.
Proof.
  intros Hvalid. induction fuel as [|fuel IH]; intros p st Hst Hfuel;
    [lia|].
  simpl. pose proof (within_limit_poll _ Hst) as Hp. simpl in Hp.
  destruct (token _ || _); simpl; [discriminate|].
  unfold fs.readdir, fs.height_at in *.
  destruct (fs.resolve p store) as [[| es |]|] eqn:Ep; simpl;
    try discriminate.
  assert (Hves : fs.valid_names (fs.Dir es) = true)
    by (eapply valid_names_lookup; eauto).
  match goal with
  | |- fst (let (c, st') := ?body in _) <> _ =>
      assert (Hret : fst body <> NoFuel)
  end.
  { apply entries_returns.
    - simpl in Hfuel. lia.
    - intros p' st0. apply (inv_searchInFolder E memFs store query options
                              token within_limit within_limit_poll
                              within_limit_lastIndex
                              within_limit_report_file).
    - intros entry st0 stat Hin Hst0 Hstat Hdir.
      destruct (In_assoc _ _ Hin) as [c Hc].
      destruct (valid_names_child _ _ _ Hves Hc) as [Hname _].
      apply IH; auto.
      rewrite (resolve_join _ _ _ Hname), Ep, Hc.
      apply height_child in Hc. lia.
    - exact Hp. }
  destruct (MemFSTextSearchProvider.searchInFolder_entries
              _ _ _ _ _ _ _ _ _ _ _ _) as [c st']. simpl in *.
  now apply returned_fuel.
Qed.

Lemma height_at_le p : fs.height_at p store <= fs.height store.
Proof.
  unfold fs.height_at, fs.resolve.
  destruct (fs.lookup _ _) as [c|] eqn:El; [|lia].
  eapply height_lookup; eauto.
Qed.

Lemma includes_loop_returns sp fuel folders :
  fs.valid_names store = true ->
  fs.height store + m < fuel ->
  forall st, within_limit st ->
  fst (includes_loop fuel sp folders st) <> NoFuel.
Proof.
  intros Hvalid Hfuel.
  induction folders as [|folder rest IH]; intros st Hst; simpl;
    [discriminate|].
  pose proof (within_limit_poll _ Hst) as Hp. simpl in Hp.
  destruct (token _ || _); simpl; [discriminate|].
  pose proof (searchInFolder_returns sp Hvalid fuel (path_or_root folder)
                _ Hp) as Hret.
  pose proof (inv_searchInFolder E memFs store query options token
                within_limit within_limit_poll within_limit_lastIndex
                within_limit_report_file fuel sp (path_or_root folder)
                _ Hp) as Hi.
  destruct (MemFSTextSearchProvider.searchInFolder _ _ _ _ _ _ _ _ _ _)
    as [c st']. simpl in *.
  pose proof (height_at_le (path_or_root folder)).
  destruct c; auto. apply Hret. lia.
Qed.

Lemma within_limit_init :
  within_limit (MemFSTextSearchProvider.mkState [] 0 false 0 0).
Proof. repeat split; simpl; auto; discriminate. Qed.

Lemma run_returns sp fuel :
  fs.valid_names store = true ->
  fs.height store + m < fuel ->
  fst (MemFSTextSearchProvider.run E memFs store query options token fuel sp)
  <> NoFuel.
Proof.
  intros Hvalid Hfuel. unfold MemFSTextSearchProvider.run.
  pose proof (includes_loop_returns sp fuel
                (match includes options with Some l => l | None => [] end)
                Hvalid Hfuel _ within_limit_init) as Hret.
  pose proof (inv_includes_loop E memFs store query options token
                within_limit within_limit_poll within_limit_lastIndex
                within_limit_report_file fuel sp
                (match includes options with Some l => l | None => [] end)
                _ within_limit_init) as Hi.
  destruct (MemFSTextSearchProvider.includes_loop _ _ _ _ _ _ _ _ _ _)
    as [c st']. simpl in *.
  pose proof (height_at_le "/").
  assert (fst (searchInFolder fuel sp "/" st') <> NoFuel)
    by (apply searchInFolder_returns; auto; lia).
  destruct c; try congruence;
    destruct (includes options) as [[|? ?]|]; auto; discriminate.
Qed.

End TextSearchLimit.

Section TextSearchClaims.
Import vscode.
Variable E : RegExpEngine.
Variable memFs : MemFS.t.
Variable store : fs.store.
Variable query : TextSearchQuery.
Variable options : SearchOptions.
Variable token : CancellationToken.

Local Abbreviation provideTextSearchResults :=
  (MemFSTextSearchProvider.provideTextSearchResults E memFs store query
     options token).
Local Abbreviation reported := MemFSTextSearchProvider.reported.
Local Abbreviation st_limitHit := MemFSTextSearchProvider.st_limitHit.

(** C3.  With a positive [maxResults]: one invocation reports at most
    [maxResults] matches, and the [limitHit] it returns is true exactly
    when it reported that many; from a state in which the flag is set,
    the remaining lines of a file, a file, the entries of a folder, a
    folder and the remaining include folders report nothing; and on a
    store with valid names the invocation does return, given fuel above
    the height of the store plus [maxResults]. *)
Theorem C3_limit_stops_reports m :
  maxResults options = Some m -> 0 < m ->
  (forall fuel,
      let r := provideTextSearchResults fuel in
      List.length (snd r) <= m /\
      forall c, fst r = Return c ->
                (limitHit c = true <-> List.length (snd r) = m)) /\
  (forall fuel sp st,
      st_limitHit st = true ->
      (forall fileUri lines lineNumber,
          reported (snd (MemFSTextSearchProvider.lines_loop E query options
                           token fuel sp fileUri lines lineNumber st))
          = reported st) /\
      (forall filePath,
          reported (snd (MemFSTextSearchProvider.searchInFile E memFs store
                           query options token fuel sp filePath st))
          = reported st) /\
      (forall rec folderPath entries,
          reported (snd (MemFSTextSearchProvider.searchInFolder_entries E
                           memFs store query options token fuel sp rec
                           folderPath entries st))
          = reported st) /\
      (forall folderPath,
          reported (snd (MemFSTextSearchProvider.searchInFolder E memFs store
                           query options token fuel sp folderPath st))
          = reported st) /\
      (forall folders,
          reported (snd (MemFSTextSearchProvider.includes_loop E memFs store
                           query options token fuel sp folders st))
          = reported st)) /\
  (fs.valid_names store = true ->
   forall fuel, fs.height store + m < fuel ->
                fst (provideTextSearchResults fuel) <> Diverge).
Proof.
  intros Hmax Hm. split; [|split].
  - intros fuel. unfold MemFSTextSearchProvider.provideTextSearchResults.
    destruct (isRegExp query).
    + destruct (compile E _ _) as [re|]; simpl.
      * pose proof (inv_run E memFs store query options token
                      (MemFSTextSearchProvider.within_limit m)
                      (within_limit_poll token m)
                      (within_limit_lastIndex m)
                      (within_limit_report_file memFs store options m Hmax Hm)
                      fuel (Some re) (within_limit_init m Hm)) as HJ.
        destruct (MemFSTextSearchProvider.run _ _ _ _ _ _ _ _) as [c st].
        simpl in HJ. pose proof (within_limit_count m Hm _ HJ) as Hle.
        destruct HJ as (Hc & Hlt & Heq).
        destruct c; simpl; (split; [lia|]); intros c' [= <-]; simpl;
          (split; [intros H; specialize (Heq H); lia|]);
          intros H; destruct (MemFSTextSearchProvider.st_limitHit st);
          auto; specialize (Hlt eq_refl); lia.
      * split; [lia|discriminate].
    + simpl.
      pose proof (inv_run E memFs store query options token
                    (MemFSTextSearchProvider.within_limit m)
                    (within_limit_poll token m)
                    (within_limit_lastIndex m)
                    (within_limit_report_file memFs store options m Hmax Hm)
                    fuel None (within_limit_init m Hm)) as HJ.
      destruct (MemFSTextSearchProvider.run _ _ _ _ _ _ _ _) as [c st].
      simpl in HJ. pose proof (within_limit_count m Hm _ HJ) as Hle.
      destruct HJ as (Hc & Hlt & Heq).
      destruct c; simpl; (split; [lia|]); intros c' [= <-]; simpl;
        (split; [intros H; specialize (Heq H); lia|]);
        intros H; destruct (MemFSTextSearchProvider.st_limitHit st);
        auto; specialize (Hlt eq_refl); lia.
  - intros fuel sp st Hset. repeat split.
    + intros fileUri [|line rest] lineNumber; simpl; auto.
      now rewrite Hset, orb_true_r.
    + intros filePath. unfold MemFSTextSearchProvider.searchInFile. simpl.
      now rewrite Hset, orb_true_r.
    + intros rec folderPath [|entry rest]; simpl; auto.
      now rewrite Hset, orb_true_r.
    + intros folderPath. destruct fuel; simpl; auto.
      now rewrite Hset, orb_true_r.
    + intros [|folder rest]; simpl; auto.
      now rewrite Hset, orb_true_r.
  - intros Hvalid fuel Hfuel.
    unfold MemFSTextSearchProvider.provideTextSearchResults.
    destruct (isRegExp query).
    + destruct (compile E _ _) as [re|]; simpl; [|discriminate].
      pose proof (run_returns E memFs store query options token m Hmax Hm
                    (Some re) fuel Hvalid Hfuel) as Hret.
      destruct (MemFSTextSearchProvider.run _ _ _ _ _ _ _ _) as [c st].
      destruct c; simpl in *; congruence.
    + simpl.
      pose proof (run_returns E memFs store query options token m Hmax Hm
                    None fuel Hvalid Hfuel) as Hret.
      destruct (MemFSTextSearchProvider.run _ _ _ _ _ _ _ _) as [c st].
      destruct c; simpl in *; congruence.
Qed.

End TextSearchClaims.

(* ===================================================================== *)
(** * Entries that are neither files nor directories                     *)
(* ===================================================================== *)

Section SpecialEntries.
Import vscode.
Variable E : RegExpEngine.
Variable memFs : MemFS.t.
Variable store : fs.store.
Variable token : CancellationToken.

Local Abbreviation reported_regular :=
  (MemFSTextSearchProvider.reported_regular memFs store).

Lemma reported_regular_report options
  (fileUri : Uri) (lineNumber : nat) (line : string) (index len : nat)
  (st : MemFSTextSearchProvider.state) :
  made_from_regular memFs store fileUri ->
  reported_regular st ->
  MemFSTextSearchProvider.st_limitHit st = false ->
  let st' := MemFSTextSearchProvider.report
               (MemFSTextSearchProvider.result_at fileUri
                  lineNumber line index len) st in
  if limit_reached (maxResults options)
       (MemFSTextSearchProvider.resultCount st')
  then reported_regular (MemFSTextSearchProvider.set_limitHit st')
  else reported_regular st'.
Proof.
  intros Hreg Hst _ st'.
  assert (H : reported_regular st').
  { unfold MemFSTextSearchProvider.reported_regular. simpl.
    apply Forall_app. split; [exact Hst|]. repeat constructor. exact Hreg. }
  destruct (limit_reached _ _); exact H.
Qed.

(** A Uri made from a regular file names that file, when paths parse to
    themselves. *)
Lemma made_from_regular_refers u :
  scheme_ok (MemFS.this_scheme memFs) = true ->
  plain_names store = true ->
  made_from_regular memFs store u ->
  scheme u = MemFS.this_scheme memFs /\
  fs.is_regular (path u) store = true.
Proof.
  intros Hs Hp (folderPath & entry & Hreg & Hparse).
  assert (Hres : exists n,
             fs.resolve (path.join folderPath entry) store = Some n).
  { unfold fs.is_regular, fs.stat in Hreg.
    destruct (fs.resolve _ store) as [n|]; [eauto|discriminate]. }
  destruct Hres as [n Hn].
  rewrite (Uri_parse_join _ _ _ _ _ Hs Hp Hn) in Hparse.
  injection Hparse as <-. split; [reflexivity|exact Hreg].
Qed.

Lemma text_reports_regular tquery options fuel :
  Forall (fun r => made_from_regular memFs store (uri r))
    (snd (MemFSTextSearchProvider.provideTextSearchResults E memFs store
            tquery options token fuel)).
Proof.
  unfold MemFSTextSearchProvider.provideTextSearchResults.
  assert (H : forall sp,
             reported_regular
               (snd (MemFSTextSearchProvider.run E memFs store tquery
                       options token fuel sp))).
  { intros sp.
    apply (inv_run E memFs store tquery options token reported_regular).
    - auto.
    - auto.
    - apply reported_regular_report.
    - constructor. }
  destruct (isRegExp tquery).
  + destruct (compile E _ _) as [re|]; simpl; [|constructor].
    specialize (H (Some re)).
    destruct (MemFSTextSearchProvider.run _ _ _ _ _ _ _ _) as [c st].
    destruct c; exact H.
  + specialize (H None). simpl.
    destruct (MemFSTextSearchProvider.run _ _ _ _ _ _ _ _) as [c st].
    destruct c; exact H.
Qed.

Lemma file_results_regular fquery options fuel l :
  MemFSFileSearchProvider.provideFileSearchResults memFs store fquery
    options token fuel = Return l ->
  Forall (made_from_regular memFs store) l.
Proof.
  unfold MemFSFileSearchProvider.provideFileSearchResults.
  pose proof (file_run_regular memFs store fquery options token fuel) as H.
  destruct (MemFSFileSearchProvider.run _ _ _ _ _ _) as [c st].
  destruct c; intros [= <-]; exact H.
Qed.

(** In the text search an entry that is neither a regular file nor a
    directory costs one read of the token and nothing else. *)
Lemma text_entries_skip query options fuel sp rec folderPath entry rest st :
  token (MemFSTextSearchProvider.polls st) = false ->
  MemFSTextSearchProvider.st_limitHit st = false ->
  fs.is_special (path.join folderPath entry) store = true ->
  MemFSTextSearchProvider.searchInFolder_entries E memFs store query options
    token fuel sp rec folderPath (entry :: rest) st
  = MemFSTextSearchProvider.searchInFolder_entries E memFs store query
      options token fuel sp rec folderPath rest
      (snd (MemFSTextSearchProvider.isCancellationRequested token st)).
Proof.
  intros Htok Hlim Hsp. simpl. rewrite Htok, Hlim. simpl.
  unfold fs.is_special in Hsp.
  destruct (fs.stat _ store) as [e|stat]; [discriminate|].
  apply andb_prop in Hsp as [Hf Hd].
  apply negb_true_iff in Hf, Hd. now rewrite Hd, Hf.
Qed.


End SpecialEntries.



(* ===================================================================== *)
(** * The result limit of the filename search                            *)
(* ===================================================================== *)

(** C2.  The filename search with [maxResults = 1] on the store
    /lib/main.ts, /main.test.ts, /main.ts (three matches of "main")
    returns two results: the [return] after the first match leaves the
    call for /lib only, and the loop over the root goes on to append
    /main.test.ts before it tests the count again. *)
Theorem C2_maxResults_exceeded :
  MemFSFileSearchProvider.provideFileSearchResults Examples.memFs
    Examples.tree (vscode.mkFileSearchQuery "main")
    (vscode.mkSearchOptions None (Some 1)) Examples.never 3
  = Return [Examples.uri "/lib/main.ts"; Examples.uri "/main.test.ts"].
Proof. reflexivity. Qed.

(* ===================================================================== *)
(** * The matches on one line                                            *)
(* ===================================================================== *)

Section LineMatches.
Import vscode.
Variable options : SearchOptions.
Variable token : CancellationToken.

Local Abbreviation reported := MemFSTextSearchProvider.reported.
Local Abbreviation st_limitHit := MemFSTextSearchProvider.st_limitHit.
Local Abbreviation lastIndex := MemFSTextSearchProvider.lastIndex.
Local Abbreviation result_at := MemFSTextSearchProvider.result_at.

(** The literal loop reports every occurrence of the search string from
    [startIndex] on, the overlapping ones too, in increasing order. *)
Lemma literal_loop_occurrences query fileUri lineNumber line searchLine :
  MemFSTextSearchProvider.searchString query <> "" ->
  (forall n, limit_reached (maxResults options) n = false) ->
  (forall n, token n = false) ->
  forall fuel startIndex st,
    st_limitHit st = false ->
    String.length searchLine - startIndex < fuel ->
    let r := MemFSTextSearchProvider.literal_loop query options token fuel
               fileUri lineNumber line searchLine startIndex st in
    fst r = Continue /\
    st_limitHit (snd r) = false /\
    reported (snd r)
    = reported st
        ++ map (fun k => result_at fileUri lineNumber line k
                           (String.length
                              (MemFSTextSearchProvider.searchString query)))
            (Str.occurrences searchLine
               (MemFSTextSearchProvider.searchString query) startIndex).
Proof.
  intros Hpat Hnolimit Hnever.
  induction fuel as [|fuel IH]; intros startIndex st Hlim Hfuel; [lia|].
  cbn [MemFSTextSearchProvider.literal_loop].
  destruct (Str.indexOf searchLine _ startIndex) as [j|] eqn:Ei.
  - destruct (occurrences_some _ _ _ _ Hpat Ei) as (Hj & Hs & ->).
    rewrite Hlim. unfold MemFSTextSearchProvider.isCancellationRequested.
    rewrite Hnever, Hnolimit.
    match goal with
    | |- context [MemFSTextSearchProvider.literal_loop _ _ _ fuel _ _ _ _
                    ?i ?s] =>
        destruct (IH i s) as (H1 & H2 & H3); [exact Hlim|lia|]
    end.
    cbv zeta. rewrite H1, H2, H3. repeat split.
    simpl. now rewrite <- app_assoc.
  - rewrite (occurrences_none _ _ _ Hpat Ei). simpl.
    now rewrite app_nil_r.
Qed.

(** With matches that are never empty the regex loop ends within
    [length line - lastIndex + 1] rounds, and what it reports are matches
    of the engine at strictly increasing positions from [lastIndex] on. *)
Lemma regex_loop_increasing E re fileUri lineNumber line :
  engine_sound E re line ->
  (forall i idx len, exec_at E re line i = Some (idx, len) -> 0 < len) ->
  forall fuel st,
    String.length line - lastIndex st < fuel ->
    let r := MemFSTextSearchProvider.regex_loop E options token fuel re
               fileUri lineNumber line st in
    fst r <> NoFuel /\
    exists l,
      reported (snd r) = reported st ++ l /\
      Forall (fun x =>
                lastIndex st <= startCharacter (ranges x) /\
                exists i, exec_at E re line i
                          = Some (startCharacter (ranges x),
                                  endCharacter (ranges x)
                                  - startCharacter (ranges x))) l /\
      StronglySorted lt (map (fun x => startCharacter (ranges x)) l).
Proof.
  intros Hsound Hne.
  induction fuel as [|fuel IH]; intros st Hfuel; [lia|].
  cbn [MemFSTextSearchProvider.regex_loop].
  unfold MemFSTextSearchProvider.exec.
  assert (Hnil : forall s, reported s = reported st ->
            exists l,
              reported s = reported st ++ l /\
              Forall (fun x =>
                lastIndex st <= startCharacter (ranges x) /\
                exists i, exec_at E re line i
                          = Some (startCharacter (ranges x),
                                  endCharacter (ranges x)
                                  - startCharacter (ranges x))) l /\
              StronglySorted lt (map (fun x => startCharacter (ranges x)) l)).
  { intros s Hs. exists []. rewrite app_nil_r.
    repeat split; auto; constructor. }
  destruct (_ <? _)%nat eqn:Elen.
  { split; [discriminate|]. now apply Hnil. }
  destruct (exec_at E re line (lastIndex st)) as [[idx len]|] eqn:Ex.
  2:{ split; [discriminate|]. now apply Hnil. }
  destruct (Hsound _ _ _ Ex) as [Hlo Hhi].
  pose proof (Hne _ _ _ Ex) as Hlen.
  cbn [MemFSTextSearchProvider.set_lastIndex
         MemFSTextSearchProvider.st_limitHit].
  destruct (MemFSTextSearchProvider.st_limitHit st).
  { split; [discriminate|]. now apply Hnil. }
  unfold MemFSTextSearchProvider.isCancellationRequested.
  cbn [MemFSTextSearchProvider.polls]. destruct (token _).
  { split; [discriminate|]. now apply Hnil. }
  match goal with
  | |- context [limit_reached _ (MemFSTextSearchProvider.resultCount ?s)] =>
      set (st1 := s)
  end.
  assert (Hone : exists l,
            reported st1 = reported st ++ l /\
            Forall (fun x =>
              lastIndex st <= startCharacter (ranges x) /\
              exists i, exec_at E re line i
                        = Some (startCharacter (ranges x),
                                endCharacter (ranges x)
                                - startCharacter (ranges x))) l /\
            StronglySorted lt (map (fun x => startCharacter (ranges x)) l)).
  { exists [result_at fileUri lineNumber line idx len]. simpl.
    repeat split; auto.
    - repeat constructor; simpl; auto.
      exists (lastIndex st). rewrite Ex. f_equal. f_equal. lia.
    - repeat constructor. }
  destruct (limit_reached _ _).
  { split; [discriminate|]. exact Hone. }
  destruct (IH st1) as (Hret & l & Hl & Hall & Hsorted).
  { subst st1. simpl. lia. }
  split; [exact Hret|].
  exists (result_at fileUri lineNumber line idx len :: l).
  rewrite Hl. subst st1. simpl. rewrite <- app_assoc. simpl.
  repeat split; auto.
  - constructor.
    + simpl. split; [exact Hlo|].
      exists (lastIndex st). rewrite Ex. f_equal. f_equal. lia.
    + eapply Forall_impl; [|exact Hall]. simpl.
      intros x [Hx Hex]. split; [lia|exact Hex].
  - constructor; [exact Hsorted|].
    rewrite Forall_map. eapply Forall_impl; [|exact Hall]. simpl.
    intros x [Hx _]. lia.
Qed.

(** A match of length 0 at the position the search starts from is found
    again and again: without a limit and without cancellation the loop
    does not end. *)
Lemma regex_loop_empty_match E re fileUri lineNumber line i :
  (forall n, limit_reached (maxResults options) n = false) ->
  (forall n, token n = false) ->
  i <= String.length line ->
  exec_at E re line i = Some (i, 0) ->
  forall fuel st,
    st_limitHit st = false -> lastIndex st = i ->
    fst (MemFSTextSearchProvider.regex_loop E options token fuel re fileUri
           lineNumber line st) = NoFuel.
Proof.
  intros Hnolimit Hnever Hi Hex.
  induction fuel as [|fuel IH]; intros st Hlim Hlast; [reflexivity|].
  cbn [MemFSTextSearchProvider.regex_loop].
  unfold MemFSTextSearchProvider.exec. rewrite Hlast.
  destruct (Nat.ltb_spec (String.length line) i); [lia|].
  rewrite Hex.
  cbn [MemFSTextSearchProvider.set_lastIndex
         MemFSTextSearchProvider.st_limitHit].
  rewrite Hlim. unfold MemFSTextSearchProvider.isCancellationRequested.
  cbn [MemFSTextSearchProvider.polls]. rewrite Hnever, Hnolimit.
  apply IH; simpl; auto.
Qed.

End LineMatches.

Lemma literal_engine_sound re line :
  engine_sound LiteralEngine.engine re line.
Proof.
  intros i idx len. simpl. unfold LiteralEngine.exec_at.
  destruct (Nat.ltb_spec (String.length line) i) as [|Hi]; [discriminate|].
  set (subject := if snd re then Str.toLowerCase line else line).
  assert (Hlen : String.length subject = String.length line).
  { subst subject. destruct (snd re); auto using toLowerCase_length. }
  destruct (Str.indexOf subject (fst re) i) as [j|] eqn:Ei; [|discriminate].
  intros [= <- <-].
  destruct (indexOf_some _ _ _ _ Ei) as (H1 & H2 & H3 & _).
  apply prefix_length in H3. rewrite drop_length in H3. lia.
Qed.

(** C7.  Without a limit and without cancellation the plain text loop
    reports, for a non-empty search string, every position of the line at
    which the string occurs, overlapping occurrences included, in
    increasing order: each search starts one character after the start of
    the match before.  The report of the occurrence at column [k] has the
    Uri of the file, the range from column [k] to column [k] plus the
    length of the search string on the line searched, and as preview the
    line with the same columns on line 0.  On the line "Foo bar foo" the
    case-insensitive search for "foo" reports the two matches at columns
    0-3 and 8-11. *)
Theorem C7_literal_overlapping_matches :
  (forall options token query fileUri lineNumber line searchLine fuel
          startIndex st,
      MemFSTextSearchProvider.searchString query <> "" ->
      (forall n, limit_reached (vscode.maxResults options) n = false) ->
      (forall n, token n = false) ->
      MemFSTextSearchProvider.st_limitHit st = false ->
      String.length searchLine - startIndex < fuel ->
      let r := MemFSTextSearchProvider.literal_loop query options token fuel
                 fileUri lineNumber line searchLine startIndex st in
      let len := String.length
                   (MemFSTextSearchProvider.searchString query) in
      fst r = Continue /\
      MemFSTextSearchProvider.reported (snd r)
      = MemFSTextSearchProvider.reported st
          ++ map (fun k =>
                    vscode.mkTextSearchResult fileUri
                      (vscode.mkRange lineNumber k lineNumber (k + len))
                      (vscode.mkPreview line
                         (vscode.mkRange 0 k 0 (k + len))))
              (Str.occurrences searchLine
                 (MemFSTextSearchProvider.searchString query) startIndex)) /\
  MemFSTextSearchProvider.provideTextSearchResults LiteralEngine.engine
    Examples.memFs Examples.tree
    (vscode.mkTextSearchQuery "foo" false false)
    (vscode.mkSearchOptions None None) Examples.never 12
  = (Return (vscode.mkComplete false),
     [vscode.mkTextSearchResult (Examples.uri "/lib/main.ts")
        (vscode.mkRange 0 0 0 3)
        (vscode.mkPreview "Foo bar foo" (vscode.mkRange 0 0 0 3));
      vscode.mkTextSearchResult (Examples.uri "/lib/main.ts")
        (vscode.mkRange 0 8 0 11)
        (vscode.mkPreview "Foo bar foo" (vscode.mkRange 0 8 0 11))]) /\
  MemFSTextSearchProvider.provideTextSearchResults LiteralEngine.engine
    Examples.memFs Examples.tree
    (vscode.mkTextSearchQuery "aa" false false)
    (vscode.mkSearchOptions None None) Examples.never 12
  = (Return (vscode.mkComplete false),
     [vscode.mkTextSearchResult (Examples.uri "/main.ts")
        (vscode.mkRange 0 0 0 2)
        (vscode.mkPreview "aaa" (vscode.mkRange 0 0 0 2));
      vscode.mkTextSearchResult (Examples.uri "/main.ts")
        (vscode.mkRange 0 1 0 3)
        (vscode.mkPreview "aaa" (vscode.mkRange 0 1 0 3))]).
Proof.
  split; [|split; reflexivity].
  intros options token query fileUri lineNumber line searchLine fuel
    startIndex st Hpat Hnolimit Hnever Hlim Hfuel.
  destruct (literal_loop_occurrences options token query fileUri lineNumber
              line searchLine Hpat Hnolimit Hnever fuel startIndex st
              Hlim Hfuel) as (H1 & _ & H3).
  split; assumption.
Qed.

Lemma C7_literal_overlapping_matches_witness :
  MemFSTextSearchProvider.reported
    (snd (MemFSTextSearchProvider.literal_loop
            (vscode.mkTextSearchQuery "aa" false true)
            (vscode.mkSearchOptions None None) Examples.never 4
            (Examples.uri "/main.ts") 0 "aaa" "aaa" 0
            (MemFSTextSearchProvider.mkState [] 0 false 0 0)))
  = [vscode.mkTextSearchResult (Examples.uri "/main.ts")
       (vscode.mkRange 0 0 0 2)
       (vscode.mkPreview "aaa" (vscode.mkRange 0 0 0 2));
     vscode.mkTextSearchResult (Examples.uri "/main.ts")
       (vscode.mkRange 0 1 0 3)
       (vscode.mkPreview "aaa" (vscode.mkRange 0 1 0 3))].
Proof.
  destruct C7_literal_overlapping_matches as [Hgen _].
  destruct (Hgen (vscode.mkSearchOptions None None) Examples.never
              (vscode.mkTextSearchQuery "aa" false true)
              (Examples.uri "/main.ts") 0 "aaa" "aaa" 4 0
              (MemFSTextSearchProvider.mkState [] 0 false 0 0))
    as [_ H].
  - discriminate.
  - reflexivity.
  - reflexivity.
  - reflexivity.
  - simpl. lia.
  - exact H.
Defined.

(** C8.  When every match of the compiled pattern on the line is
    non-empty, the regex loop of the line ends (within
    [length line - lastIndex + 1] rounds) and its reports are matches of
    the pattern at strictly increasing start positions.  The condition is
    needed: on a match of length 0 at the position the search starts
    from, [lastIndex] stays where it is and, without a limit and without
    cancellation, the loop does not end. *)
Theorem C8_regex_loop_terminates :
  (forall E options token re fileUri lineNumber line fuel st,
      engine_sound E re line ->
      (forall i idx len, exec_at E re line i = Some (idx, len) -> 0 < len) ->
      String.length line - MemFSTextSearchProvider.lastIndex st < fuel ->
      let r := MemFSTextSearchProvider.regex_loop E options token fuel re
                 fileUri lineNumber line st in
      fst r <> NoFuel /\
      exists l,
        MemFSTextSearchProvider.reported (snd r)
        = MemFSTextSearchProvider.reported st ++ l /\
        Forall (fun x =>
                  exists i, exec_at E re line i
                            = Some (vscode.startCharacter (vscode.ranges x),
                                    vscode.endCharacter (vscode.ranges x)
                                    - vscode.startCharacter (vscode.ranges x)))
               l /\
        StronglySorted lt
          (map (fun x => vscode.startCharacter (vscode.ranges x)) l)) /\
  (forall E options token re fileUri lineNumber line i fuel st,
      (forall n, limit_reached (vscode.maxResults options) n = false) ->
      (forall n, token n = false) ->
      i <= String.length line ->
      exec_at E re line i = Some (i, 0) ->
      MemFSTextSearchProvider.st_limitHit st = false ->
      MemFSTextSearchProvider.lastIndex st = i ->
      fst (MemFSTextSearchProvider.regex_loop E options token fuel re fileUri
             lineNumber line st) = NoFuel).
Proof.
  split.
  - intros E options token re fileUri lineNumber line fuel st Hsound Hne
      Hfuel.
    destruct (regex_loop_increasing options token E re fileUri lineNumber
                line Hsound Hne fuel st Hfuel) as (Hret & l & Hl & Hall & Hs).
    split; [exact Hret|]. exists l. repeat split; auto.
    eapply Forall_impl; [|exact Hall]. simpl. intros x [_ H]. exact H.
  - intros E options token re fileUri lineNumber line i fuel st Hnolimit
      Hnever Hi Hex Hlim Hlast.
    now apply (regex_loop_empty_match options token E re fileUri lineNumber
                 line i).
Qed.

Lemma C8_regex_loop_terminates_witness :
  MemFSTextSearchProvider.regex_loop LiteralEngine.engine
    (vscode.mkSearchOptions None None) Examples.never 12 ("foo", true)
    (Examples.uri "/lib/main.ts") 0 "Foo bar foo"
    (MemFSTextSearchProvider.mkState [] 0 false 0 0)
  = (Continue,
     MemFSTextSearchProvider.mkState
       [MemFSTextSearchProvider.result_at (Examples.uri "/lib/main.ts") 0
          "Foo bar foo" 0 3;
        MemFSTextSearchProvider.result_at (Examples.uri "/lib/main.ts") 0
          "Foo bar foo" 8 3] 2 false 2 0)
  /\ fst (MemFSTextSearchProvider.regex_loop LiteralEngine.engine
            (vscode.mkSearchOptions None None) Examples.never 12
            ("foo", true) (Examples.uri "/lib/main.ts") 0 "Foo bar foo"
            (MemFSTextSearchProvider.mkState [] 0 false 0 0)) <> NoFuel
  /\ fst (MemFSTextSearchProvider.regex_loop LiteralEngine.engine
            (vscode.mkSearchOptions None None) Examples.never 12
            ("", true) (Examples.uri "/lib/main.ts") 0 "Foo bar foo"
            (MemFSTextSearchProvider.mkState [] 0 false 0 0)) = NoFuel.
Proof.
  destruct C8_regex_loop_terminates as [Hterm Hloop].
  split; [reflexivity|]. split.
  - apply (Hterm LiteralEngine.engine (vscode.mkSearchOptions None None)
             Examples.never ("foo", true) (Examples.uri "/lib/main.ts") 0
             "Foo bar foo" 12
             (MemFSTextSearchProvider.mkState [] 0 false 0 0)).
    + apply literal_engine_sound.
    + simpl. unfold LiteralEngine.exec_at. intros i idx len.
      destruct (_ <? _)%nat; [discriminate|].
      destruct (Str.indexOf _ _ _); [|discriminate].
      intros [= _ <-]. simpl. lia.
    + simpl. lia.
  - apply (Hloop LiteralEngine.engine (vscode.mkSearchOptions None None)
             Examples.never ("", true) (Examples.uri "/lib/main.ts") 0
             "Foo bar foo" 0 12
             (MemFSTextSearchProvider.mkState [] 0 false 0 0));
      try reflexivity.
    simpl. lia.
Defined.

Lemma C3_limit_stops_reports_witness :
  let r := MemFSTextSearchProvider.provideTextSearchResults
             LiteralEngine.engine Examples.memFs Examples.tree
             (vscode.mkTextSearchQuery "a" false false)
             (vscode.mkSearchOptions None (Some 2)) Examples.never 12 in
  List.length (snd r) <= 2 /\ fst r = Return (vscode.mkComplete true).
Proof.
  destruct (C3_limit_stops_reports LiteralEngine.engine Examples.memFs
              Examples.tree (vscode.mkTextSearchQuery "a" false false)
              (vscode.mkSearchOptions None (Some 2)) Examples.never 2
              eq_refl (Nat.lt_0_succ 1)) as (Hbound & _ & _).
  split; [apply (Hbound 12)|reflexivity].
Defined.

(* ===================================================================== *)
(** * Properties of the recursive copy                                   *)
(* ===================================================================== *)

Section CopyStoreFacts.
Import fs.

Lemma diverge_app_r p : forall q r,
  diverge p q = true -> diverge p (q ++ r) = true.
Proof.
  induction p as [|x p IH]; intros [|y q] r; simpl; try discriminate.
  destruct (x =? y); auto.
Qed.

Lemma diverge_app_l p q r :
  diverge p q = true -> diverge (p ++ r) q = true.
Proof.
  intros H. rewrite diverge_sym. apply diverge_app_r. now rewrite diverge_sym.
Qed.

Lemma diverge_siblings p x y r1 r2 :
  x <> y -> diverge (p ++ x :: r1) (p ++ y :: r2) = true.
Proof.
  intros Hne. induction p as [|z p IH]; simpl.
  - apply String.eqb_neq in Hne. now rewrite Hne.
  - now rewrite String.eqb_refl.
Qed.

(** [mkdirp p] leaves every path alone that parts from [p]. *)
Lemma mkdirp_frame p : forall q o n',
  mkdirp p o = inr n' ->
  diverge p q = true ->
  lookup q (Some n') = lookup q o.
Proof.
  induction p as [|x p IH]; intros q o n'; simpl; [discriminate|].
  destruct q as [|y q]; [discriminate|].
  destruct o as [[| es |]|]; try discriminate.
  - destruct (mkdirp p (assoc x es)) as [e|c] eqn:Em; [discriminate|].
    intros [= <-] Hd. simpl.
    destruct (x =? y) eqn:Exy.
    + apply String.eqb_eq in Exy. subst y.
      rewrite assoc_set_eq. eapply IH; eauto.
    + apply String.eqb_neq in Exy. now rewrite assoc_set_ne.
  - destruct (mkdirp p None) as [e|c] eqn:Em; [discriminate|].
    intros [= <-] Hd. simpl.
    rewrite (String.eqb_sym y x).
    destruct (x =? y) eqn:Exy.
    + rewrite (IH q None c Em Hd). now rewrite !lookup_None.
    + now rewrite !lookup_None.
Qed.

(** When the source is there and parts from the destination, it also
    parts from the directory of the destination, unless that directory
    is there already. *)
Lemma diverge_parent src : forall dst o,
  diverge src dst = true ->
  lookup src o <> None ->
  lookup (removelast dst) o = None ->
  diverge (removelast dst) src = true.
Proof.
  induction src as [|x src IH]; intros [|y dst] o; simpl; try discriminate.
  destruct (x =? y) eqn:Exy.
  - apply String.eqb_eq in Exy. subst y. intros Hd Hsrc Hpar.
    destruct dst as [|z dst]; [now destruct src|].
    change (removelast (x :: z :: dst)) with (x :: removelast (z :: dst))
      in *.
    cbn [diverge]. rewrite String.eqb_refl.
    destruct o as [[| es |]|]; try congruence.
    cbn [lookup] in Hpar. exact (IH (z :: dst) _ Hd Hsrc Hpar).
  - intros _ Hsrc Hpar.
    destruct dst as [|z dst].
    + simpl in Hpar. subst o. congruence.
    + change (removelast (y :: z :: dst)) with (y :: removelast (z :: dst)).
      cbn [diverge]. rewrite (String.eqb_sym y x). now rewrite Exy.
Qed.

Lemma same_off_refl p s : same_off p s s.
Proof. intros q _. reflexivity. Qed.

Lemma lookup_through_file p r data o :
  lookup p o = Some (File data) -> r <> [] -> lookup (p ++ r) o = None.
Proof.
  intros H Hr. rewrite lookup_app, H. destruct r; [congruence|reflexivity].
Qed.

End CopyStoreFacts.

Section CopyFacts.
Import vscode.
Variable this : MemFS.t.

Lemma Uri_joinPath_cases uri name s :
  (exists m, MemFS.Uri_joinPath uri name s = (Throw (Error m), s)) \/
  (path uri <> "" /\
   MemFS.Uri_joinPath uri name s
   = (Return (mkUri (scheme uri) (path.join (path uri) name)), s)).
Proof.
  unfold MemFS.Uri_joinPath. destruct (path uri) eqn:Ep.
  - left. eexists. reflexivity.
  - right. split; [discriminate|reflexivity].
Qed.

Lemma path_or_root_nonempty uri : path uri <> "" -> path_or_root uri = path uri.
Proof. unfold path_or_root, Str.or_else. destruct (path uri); congruence. Qed.

Lemma segments_child uri entry :
  path uri <> "" -> path.valid_name entry = true ->
  path.segments (path_or_root (mkUri (scheme uri)
                                 (path.join (path uri) entry)))
  = path.segments (path_or_root uri) ++ [entry].
Proof.
  intros Hp Hname. rewrite (path_or_root_nonempty uri Hp).
  unfold path_or_root. simpl.
  replace (Str.or_else (path.join (path uri) entry) "/")
    with (path.join (path uri) entry) by reflexivity.
  now apply segments_join.
Qed.

Local Abbreviation segs u := (path.segments (path_or_root u)).

Lemma copyDirectory_entry_correct fuel :
  MemFS.copyDirectory_correct this fuel ->
  forall source destination overwrite entry s,
    scheme source = MemFS.this_scheme this ->
    scheme destination = MemFS.this_scheme this ->
    path.valid_name entry = true ->
    fs.diverge (segs source) (segs destination) = true ->
    (forall n, fs.lookup (segs source ++ [entry]) (Some s) = Some n ->
               fs.valid_names n = true) ->
    let r := MemFS.copyDirectory_entry this
               (MemFS.copyDirectory this fuel) source destination overwrite
               entry s in
    fs.same_off (segs destination ++ [entry]) s (snd r) /\
    (fst r = Return tt ->
     fs.copied (segs source ++ [entry]) (segs destination ++ [entry]) s
       (snd r)) /\
    (forall n, fs.lookup (segs source ++ [entry]) (Some s) = Some n ->
               fs.height n < fuel -> fst r <> Diverge).
Proof.
  intros Hspec source destination overwrite entry s Hs Hd Hname Hdiv Hvalid.
  unfold MemFS.copyDirectory_entry, bind.
  destruct (Uri_joinPath_cases source entry s) as [[m ->]|[Hp ->]].
  { simpl. repeat split; discriminate || apply same_off_refl. }
  destruct (Uri_joinPath_cases destination entry s) as [[m ->]|[Hp' ->]].
  { simpl. repeat split; discriminate || apply same_off_refl. }
  set (cs := mkUri (scheme source) (path.join (path source) entry)).
  set (cd := mkUri (scheme destination) (path.join (path destination) entry)).
  pose proof (segments_child source entry Hp Hname) as Hcs. fold cs in Hcs.
  pose proof (segments_child destination entry Hp' Hname) as Hcd.
  fold cd in Hcd.
  assert (Hres : fs.resolve (path_or_root cs) s
                 = fs.lookup (segs source ++ [entry]) (Some s)).
  { unfold fs.resolve. now rewrite Hcs. }
  unfold reading, writing.
  rewrite !(asFsPath_ok this cs s Hs). cbv beta iota.
  unfold fs.stat. rewrite Hres.
  destruct (fs.lookup (segs source ++ [entry]) (Some s)) as [n|] eqn:En.
  2:{ cbv beta iota. repeat split; discriminate || apply same_off_refl. }
  destruct n as [data| es | l]; cbn [fs.stats_of fs.isDirectory];
    cbv beta iota.
  - (* a file: read and write *)
    rewrite (asFsPath_ok this cs s Hs). cbv beta iota.
    unfold fs.readFile. rewrite Hres. cbv beta iota.
    rewrite (asFsPath_ok this cd s Hd). cbv beta iota.
    unfold fs.writeFile. rewrite Hcd.
    destruct (fs.alter_store _ _ s) as [e|s2] eqn:Ew; cbv beta iota.
    { repeat split; discriminate || apply same_off_refl. }
    apply alter_store_inv in Ew.
    repeat split; try discriminate.
    + intros q Hq. eapply lookup_alter_other; eauto.
    + intros _ rel d Hl. simpl.
      destruct rel as [|x rel].
      * rewrite app_nil_r in *. rewrite En in Hl. injection Hl as <-.
        apply lookup_alter_same in Ew. apply write_at_some in Ew.
        exact Ew.
      * rewrite (lookup_through_file _ (x :: rel) _ _ En) in Hl
          by discriminate.
        discriminate.
  - (* a directory: the recursive call *)
    destruct (Hspec cs cd overwrite s Hs Hd) as (Hf & Hc & Ht).
    + rewrite Hcs, Hcd. now apply diverge_app_r, diverge_app_l.
    + rewrite Hcs, En. exact Hvalid.
    + rewrite Hcs, Hcd in *. repeat split; auto.
      intros n [= <-] Hh. apply Ht.
      unfold fs.height_at. now rewrite Hres.
  - (* neither: the read fails *)
    rewrite (asFsPath_ok this cs s Hs). cbv beta iota.
    unfold fs.readFile. rewrite Hres. cbv beta iota.
    repeat split; discriminate || apply same_off_refl.
Qed.

Lemma diverge_source_dest src dst e r :
  fs.diverge src dst = true ->
  fs.diverge (dst ++ [e]) (src ++ r) = true.
Proof.
  intros H. apply diverge_app_r, diverge_app_l. now rewrite diverge_sym.
Qed.

Lemma copyDirectory_loop_correct fuel :
  MemFS.copyDirectory_correct this fuel ->
  forall source destination overwrite es s0,
    scheme source = MemFS.this_scheme this ->
    scheme destination = MemFS.this_scheme this ->
    fs.diverge (segs source) (segs destination) = true ->
    fs.lookup (segs source) (Some s0) = Some (fs.Dir es) ->
    fs.valid_names (fs.Dir es) = true ->
    forall entries, incl entries (map fst es) ->
    forall s,
      (forall r, fs.lookup (segs source ++ r) (Some s)
                 = fs.lookup (segs source ++ r) (Some s0)) ->
      let r := for_of entries
                 (MemFS.copyDirectory_entry this
                    (MemFS.copyDirectory this fuel) source destination
                    overwrite) s in
      (forall q,
          (forall e, In e entries ->
                     fs.diverge (segs destination ++ [e]) q = true) ->
          fs.lookup q (Some (snd r)) = fs.lookup q (Some s)) /\
      (fst r = Return tt ->
       forall e, In e entries ->
                 fs.copied (segs source ++ [e]) (segs destination ++ [e])
                   s0 (snd r)) /\
      (fs.height (fs.Dir es) <= fuel -> fst r <> Diverge).
Proof.
  intros Hspec source destination overwrite es s0 Hs Hd Hdiv Hsrc Hves.
  induction entries as [|e1 rest IH]; intros Hincl s Hagree.
  - simpl. repeat split; auto; try discriminate. intros _ e [].
  - assert (Hin : In e1 (map fst es)) by (apply Hincl; now left).
    destruct (In_assoc _ _ Hin) as [c Hc].
    destruct (valid_names_child _ _ _ Hves Hc) as [Hname Hvc].
    assert (Hchild : fs.lookup (segs source ++ [e1]) (Some s) = Some c).
    { rewrite Hagree, lookup_app, Hsrc. simpl. now rewrite Hc. }
    pose proof (copyDirectory_entry_correct fuel Hspec source destination
                  overwrite e1 s Hs Hd Hname Hdiv) as HB.
    cbn [for_of]. unfold bind.
    destruct (MemFS.copyDirectory_entry this _ source destination overwrite
                e1 s) as [o s2].
    cbn [fst snd] in HB.
    destruct HB as (Hf & Hcp & Ht).
    { intros n. rewrite Hchild. now intros [= <-]. }
    specialize (Ht c Hchild).
    assert (Hagree2 : forall r, fs.lookup (segs source ++ r) (Some s2)
                                = fs.lookup (segs source ++ r) (Some s0)).
    { intros r. rewrite <- Hagree. apply Hf.
      now apply diverge_source_dest. }
    destruct o as [[]|ex|].
    + (* the entry is done: the rest of the loop *)
      destruct (IH (fun x Hx => Hincl x (or_intror Hx)) s2 Hagree2)
        as (Hf' & Hcp' & Ht').
      repeat split.
      * intros q Hq. rewrite Hf' by (intros e He; apply Hq; now right).
        apply Hf. apply Hq. now left.
      * intros Hret e He.
        destruct (in_dec string_dec e rest) as [Hrest|Hrest];
          [now apply Hcp'|].
        destruct He as [<-|He]; [|contradiction].
        intros rel data Hl.
        rewrite Hf'.
        -- apply (Hcp eq_refl). rewrite <- app_assoc, Hagree.
           now rewrite <- app_assoc in Hl.
        -- intros e He. rewrite <- !app_assoc. simpl.
           apply diverge_siblings. intros ->. contradiction.
      * exact Ht'.
    + repeat split; try discriminate.
      intros q Hq. apply Hf. apply Hq. now left.
    + repeat split; try discriminate.
      * intros q Hq. apply Hf. apply Hq. now left.
      * intros Hh _. apply Ht; [|reflexivity].
        apply height_child in Hc. lia.
Qed.

(** [copyDirectory] is correct for every amount of fuel. *)
Lemma copyDirectory_correct_all fuel : MemFS.copyDirectory_correct this fuel.
Proof.
  induction fuel as [|fuel IH];
    intros source destination overwrite s Hs Hd src dst Hdiv Hvalid r.
  - subst r. cbn [MemFS.copyDirectory]. unfold diverge. cbn [fst snd].
    split; [apply same_off_refl|split; [discriminate|lia]].
  - subst r. cbn [MemFS.copyDirectory]. unfold bind.
    rewrite (asFsPath_ok this source s Hs).
    rewrite (asFsPath_ok this destination s Hd).
    unfold existing.
    assert (Hmk : exists o1 s1,
               (if negb (fs.exists_ (path_or_root destination) s)
                then writing (fs.mkdir (path_or_root destination))
                else ret tt) s = (o1, s1) /\
               o1 <> Diverge /\ fs.same_off dst s s1).
    { destruct (negb _).
      - unfold writing, fs.mkdir. fold dst.
        destruct (fs.mkdirp dst (Some s)) as [e|s1] eqn:Em.
        + exists (Throw (ErrnoException e)), s.
          split; [reflexivity|split; [discriminate|apply same_off_refl]].
        + exists (Return tt), s1.
          split; [reflexivity|split; [discriminate|]].
          intros q Hq. eapply mkdirp_frame; eauto.
      - exists (Return tt), s.
        split; [reflexivity|split; [discriminate|apply same_off_refl]]. }
    destruct Hmk as (o1 & s1 & -> & Ho1 & Hf1).
    destruct o1 as [[]|ex|]; [| |congruence].
    2:{ repeat split; auto; discriminate. }
    assert (Hagree : forall r, fs.lookup (src ++ r) (Some s1)
                               = fs.lookup (src ++ r) (Some s)).
    { intros r. apply Hf1. apply diverge_app_r. now rewrite diverge_sym. }
    unfold reading, fs.readdir, fs.resolve. fold src.
    pose proof (Hagree []) as Hsrc. rewrite app_nil_r in Hsrc.
    rewrite Hsrc.
    destruct (fs.lookup src (Some s)) as [[data| es | l]|] eqn:Esrc;
      cbv beta iota.
    1,3,4: repeat split; auto; discriminate.
    destruct (copyDirectory_loop_correct fuel IH source destination overwrite
                es s Hs Hd Hdiv Esrc (Hvalid _ eq_refl) (map fst es)
                (incl_refl _) s1 Hagree) as (Hf & Hcp & Ht).
    fold src dst in Hf, Hcp, Ht.
    repeat split.
    + intros q Hq. rewrite Hf; [now apply Hf1|].
      intros e _. now apply diverge_app_l.
    + intros Hret rel data Hl.
      destruct rel as [|e rel].
      * rewrite app_nil_r, Esrc in Hl. discriminate.
      * assert (Hin : In e (map fst es)).
        { rewrite lookup_app, Esrc in Hl. simpl in Hl.
          destruct (fs.assoc e es) as [c|] eqn:Ec.
          - eapply assoc_in; eauto.
          - now rewrite lookup_None in Hl. }
        pose proof (Hcp Hret e Hin rel data) as H.
        rewrite <- !app_assoc in H. simpl in H. now apply H.
    + intros Hh. apply Ht.
      unfold fs.height_at, fs.resolve in Hh. fold src in Hh.
      rewrite Esrc in Hh. lia.
Qed.

Lemma segments_dirname p :
  path.segments (path.dirname p) = removelast (path.segments p).
Proof.
  unfold path.dirname. apply segments_of_segments.
  apply Forall_removelast, segments_valid.
Qed.

(** [ensureParentDirectory] of the destination leaves the source as it
    is, when the two part. *)
Lemma ensureParentDirectory_source src destPath s :
  fs.diverge src (path.segments destPath) = true ->
  fs.lookup src (Some s) <> None ->
  let r := MemFS.ensureParentDirectory destPath s in
  fst r <> Diverge /\
  forall q, fs.lookup (src ++ q) (Some (snd r))
            = fs.lookup (src ++ q) (Some s).
Proof.
  intros Hdiv Hsrc. unfold MemFS.ensureParentDirectory.
  destruct (negb _ && negb _); [|split; [discriminate|reflexivity]].
  unfold bind, existing, fs.exists_, fs.resolve.
  rewrite segments_dirname.
  destruct (fs.lookup (removelast (path.segments destPath)) (Some s))
    as [n|] eqn:Epar; cbn [negb]; [split; [discriminate|reflexivity]|].
  unfold writing, fs.mkdir. rewrite segments_dirname.
  destruct (fs.mkdirp _ (Some s)) as [e|s1] eqn:Em; cbn [fst snd];
    (split; [discriminate|]); [reflexivity|].
  intros q. eapply mkdirp_frame; eauto.
  apply diverge_app_r. eapply diverge_parent; eauto.
Qed.

Lemma copy_directory_correct fuel source destination overwrite s es :
  fs.diverge (segs source) (segs destination) = true ->
  fs.resolve (path_or_root source) s = Some (fs.Dir es) ->
  fs.valid_names (fs.Dir es) = true ->
  let r := MemFS.copy this fuel source destination overwrite s in
  (fst r = Return tt ->
   fs.copied (segs source) (segs destination) s (snd r)) /\
  (fs.height (fs.Dir es) < fuel -> fst r <> Diverge).
Proof.
  intros Hdiv Hsrc Hves. unfold MemFS.copy, bind.
  destruct (asFsPath_cases this source s) as [[Hs ->]|[_ [m ->]]];
    [|split; discriminate].
  destruct (asFsPath_cases this destination s) as [[Hd ->]|[_ [m ->]]];
    [|split; discriminate].
  unfold try_catch, bind, existing, fs.exists_. rewrite Hsrc. cbn [negb].
  destruct (_ && negb overwrite); [split; discriminate|].
  destruct (ensureParentDirectory_source (segs source)
              (path_or_root destination) s Hdiv) as [Hens Hagree].
  { unfold fs.resolve in Hsrc. congruence. }
  destruct (MemFS.ensureParentDirectory (path_or_root destination) s)
    as [o1 s1]. cbn [fst snd] in Hens, Hagree.
  destruct o1 as [[]|ex|]; [|split; discriminate|congruence].
  pose proof (Hagree []) as Hsrc1. rewrite app_nil_r in Hsrc1.
  unfold fs.resolve in Hsrc. rewrite Hsrc in Hsrc1.
  unfold reading, fs.stat, fs.resolve. rewrite Hsrc1.
  cbn [fs.stats_of fs.isDirectory].
  destruct (copyDirectory_correct_all fuel source destination overwrite s1
              Hs Hd Hdiv) as (_ & Hcp & Ht).
  { intros n. rewrite Hsrc1. now intros [= <-]. }
  destruct (MemFS.copyDirectory this fuel source destination overwrite s1)
    as [o2 s2]. cbn [fst snd] in *.
  destruct o2 as [[]|ex|]; cbn [fst snd].
  - split; [|discriminate].
    intros _ rel data Hl. apply (Hcp eq_refl). now rewrite Hagree.
  - split; discriminate.
  - split; [discriminate|]. intros Hh. exfalso. apply Ht; [|reflexivity].
    unfold fs.height_at, fs.resolve. now rewrite Hsrc1.
Qed.

Lemma Uri_joinPath_ok uri name s :
  path uri <> "" ->
  MemFS.Uri_joinPath uri name s
  = (Return (mkUri (scheme uri) (path.join (path uri) name)), s).
Proof.
  intros Hp. unfold MemFS.Uri_joinPath.
  destruct (path uri) eqn:E; [congruence|reflexivity].
Qed.

(** One round of the loop on a file whose destination is a file already:
    the destination is overwritten, with no test of its existence and
    whatever the flag. *)
Lemma copyDirectory_entry_overwrites rec source destination overwrite entry
      s data old :
  scheme source = MemFS.this_scheme this ->
  scheme destination = MemFS.this_scheme this ->
  path source <> "" -> path destination <> "" ->
  path.valid_name entry = true ->
  fs.lookup (segs source ++ [entry]) (Some s) = Some (fs.File data) ->
  fs.lookup (segs destination ++ [entry]) (Some s) = Some (fs.File old) ->
  exists s',
    MemFS.copyDirectory_entry this rec source destination overwrite entry s
    = (Return tt, s') /\
    fs.lookup (segs destination ++ [entry]) (Some s') = Some (fs.File data).
Proof.
  intros Hs Hd Hp Hp' Hname Hsrc Hdst.
  unfold MemFS.copyDirectory_entry, bind.
  rewrite (Uri_joinPath_ok source entry s Hp).
  rewrite (Uri_joinPath_ok destination entry s Hp').
  set (cs := mkUri (scheme source) (path.join (path source) entry)).
  set (cd := mkUri (scheme destination) (path.join (path destination) entry)).
  pose proof (segments_child source entry Hp Hname) as Hcs. fold cs in Hcs.
  pose proof (segments_child destination entry Hp' Hname) as Hcd.
  fold cd in Hcd.
  unfold reading, writing.
  rewrite !(asFsPath_ok this cs s Hs). cbv beta iota.
  unfold fs.stat, fs.resolve. rewrite Hcs, Hsrc.
  cbn [fs.stats_of fs.isDirectory]. cbv beta iota.
  rewrite (asFsPath_ok this cs s Hs). cbv beta iota.
  unfold fs.readFile, fs.resolve. rewrite Hcs, Hsrc. cbv beta iota.
  rewrite (asFsPath_ok this cd s Hd). cbv beta iota.
  destruct (writeFile_accepted (path_or_root cd) data fs.w s
              (Some (fs.File data))) as [s' [Hw Hr]].
  - rewrite Hcd. eapply has_parent_lookup; eauto.
  - unfold fs.resolve. rewrite Hcd, Hdst. reflexivity.
  - rewrite Hw. exists s'. split; [reflexivity|].
    unfold fs.resolve in Hr. now rewrite Hcd in Hr.
Qed.

Lemma copyDirectory_entry_flag rec source destination o1 o2 entry s :
  (forall cs cd s', rec cs cd o1 s' = rec cs cd o2 s') ->
  MemFS.copyDirectory_entry this rec source destination o1 entry s
  = MemFS.copyDirectory_entry this rec source destination o2 entry s.
Proof.
  intros Hrec. unfold MemFS.copyDirectory_entry, bind.
  destruct (MemFS.Uri_joinPath source entry s) as [[cs| |] s1]; auto.
  destruct (MemFS.Uri_joinPath destination entry s1) as [[cd| |] s2]; auto.
  destruct (MemFS.asFsPath this cs s2) as [[p| |] s3]; auto.
  destruct (reading (fs.stat p) s3) as [[st| |] s4]; auto.
  destruct (fs.isDirectory st); auto.
Qed.

(** The [overwrite] argument has no part in what [copyDirectory] does. *)
Lemma copyDirectory_flag fuel : forall source destination o1 o2 s,
  MemFS.copyDirectory this fuel source destination o1 s
  = MemFS.copyDirectory this fuel source destination o2 s.
Proof.
  induction fuel as [|fuel IH]; intros source destination o1 o2 s;
    [reflexivity|].
  cbn [MemFS.copyDirectory]. unfold bind.
  destruct (MemFS.asFsPath this source s) as [[sp| |] s1]; auto.
  destruct (MemFS.asFsPath this destination s1) as [[dp| |] s2]; auto.
  destruct (existing dp s2) as [[ex| |] s3]; auto.
  destruct ((if negb ex then writing (fs.mkdir dp) else ret tt) s3)
    as [[[]| |] s4]; auto.
  destruct (reading (fs.readdir sp) s4) as [[entries| |] s5]; auto.
  revert s5. induction entries as [|e rest IHe]; intros s5; auto.
  cbn [for_of]. unfold bind.
  rewrite (copyDirectory_entry_flag _ source destination o1 o2 e s5)
    by (intros; apply IH).
  destruct (MemFS.copyDirectory_entry this _ source destination o2 e s5)
    as [[[]| |] s6]; auto.
Qed.

End CopyFacts.

(** C6.  In the copy of a directory the [overwrite] flag is read once,
    by [copy], before the recursion: [copyDirectory] does the same
    whatever flag it is given; a round of its loop on a file whose
    destination is a file already overwrites that file, with no test of
    its existence.  So when the source and the destination part (neither
    lies in the other) and [copy] returns, every file under the source
    is, with its content, at the same place under the destination,
    whatever was there before; and with fuel above the height of the
    source the copy does not run out of fuel. *)
Theorem C6_copy_overwrites_nested this :
  (forall fuel source destination o1 o2 s,
      MemFS.copyDirectory this fuel source destination o1 s
      = MemFS.copyDirectory this fuel source destination o2 s) /\
  (forall rec source destination overwrite entry s data old,
      let src := path.segments (vscode.path_or_root source) in
      let dst := path.segments (vscode.path_or_root destination) in
      vscode.scheme source = MemFS.this_scheme this ->
      vscode.scheme destination = MemFS.this_scheme this ->
      vscode.path source <> "" -> vscode.path destination <> "" ->
      path.valid_name entry = true ->
      fs.lookup (src ++ [entry]) (Some s) = Some (fs.File data) ->
      fs.lookup (dst ++ [entry]) (Some s) = Some (fs.File old) ->
      exists s',
        MemFS.copyDirectory_entry this rec source destination overwrite
          entry s = (Return tt, s') /\
        fs.lookup (dst ++ [entry]) (Some s') = Some (fs.File data)) /\
  (forall fuel source destination overwrite s es,
      let src := path.segments (vscode.path_or_root source) in
      let dst := path.segments (vscode.path_or_root destination) in
      fs.diverge src dst = true ->
      fs.resolve (vscode.path_or_root source) s = Some (fs.Dir es) ->
      fs.valid_names (fs.Dir es) = true ->
      let r := MemFS.copy this fuel source destination overwrite s in
      (fst r = Return tt ->
       forall rel data,
         fs.lookup (src ++ rel) (Some s) = Some (fs.File data) ->
         fs.lookup (dst ++ rel) (Some (snd r)) = Some (fs.File data)) /\
      (fs.height (fs.Dir es) < fuel -> fst r <> Diverge)).
Proof.
  split; [|split].
  - intros. apply copyDirectory_flag.
  - intros rec source destination overwrite entry s data old src dst.
    apply copyDirectory_entry_overwrites.
  - intros fuel source destination overwrite s es src dst Hdiv Hsrc Hves.
    exact (copy_directory_correct this fuel source destination overwrite s
             es Hdiv Hsrc Hves).
Qed.

Lemma C6_copy_overwrites_nested_witness :
  let r := MemFS.copy Examples.memFs 4 (Examples.uri "/src")
             (Examples.uri "/dst") true Examples.copy_tree in
  fs.resolve "/dst/sub/f.txt" Examples.copy_tree
  = Some (fs.File (Examples.bytes "old")) /\
  fst r = Return tt /\
  fs.lookup ["dst"; "sub"; "f.txt"] (Some (snd r))
  = Some (fs.File (Examples.bytes "new")).
Proof.
  intros r. split; [reflexivity|]. split; [reflexivity|].
  destruct (C6_copy_overwrites_nested Examples.memFs) as (_ & _ & H).
  destruct (H 4 (Examples.uri "/src") (Examples.uri "/dst") true
              Examples.copy_tree
              [("sub", fs.Dir [("f.txt", fs.File (Examples.bytes "new"))]);
               ("g.txt", fs.File (Examples.bytes "g"))]
              eq_refl eq_refl eq_refl) as [Hcopied _].
  apply (Hcopied eq_refl ["sub"; "f.txt"] (Examples.bytes "new")).
  reflexivity.
Defined.

(* ===================================================================== *)
(** * The methods of MemFS on foreign, missing and mistyped paths       *)
(* ===================================================================== *)

Section MoreStoreFacts.
Import fs.

Lemma miss_cases p : forall o, miss p o = ENOENT \/ miss p o = ENOTDIR.
Proof.
  induction p as [|x p IH]; intros [[| es |]|]; simpl; auto.
Qed.

Lemma set_keeps x n es : assoc x es = Some n -> set x n es = es.
Proof.
  induction es as [|[y m] r IH]; simpl; [discriminate|].
  destruct (x =? y) eqn:E.
  - apply String.eqb_eq in E. intros [= ->]. now subst.
  - intros H. now rewrite IH.
Qed.

Lemma alter_nonempty_some f x p o o' :
  alter f (x :: p) o = inr o' -> exists n, o' = Some n.
Proof.
  simpl. destruct o as [[| es |]|]; try discriminate.
  destruct (alter f p (assoc x es)); [discriminate|].
  intros [= <-]. eauto.
Qed.

(** [alter f p] keeps the directories that hold the paths parting from
    [p]. *)
Lemma has_parent_alter_other f p : forall q o o',
  alter f p o = inr o' ->
  diverge p q = true ->
  has_parent q o' = has_parent q o.
Proof.
  induction p as [|x p IH]; intros q o o'; simpl; [discriminate|].
  destruct q as [|y q]; [discriminate|].
  destruct o as [[| es |]|]; try discriminate.
  destruct (alter f p (assoc x es)) as [e|c] eqn:E; [discriminate|].
  intros [= <-] Hd. simpl.
  destruct (x =? y) eqn:Exy.
  - apply String.eqb_eq in Exy. subst y.
    rewrite assoc_upd_eq. eapply IH; eauto.
  - apply String.eqb_neq in Exy. now rewrite assoc_upd_ne.
Qed.

(** After [mkdirp p] there is a directory at [p]. *)
Lemma mkdirp_dir p : forall o n,
  mkdirp p o = inr n -> exists es, lookup p (Some n) = Some (Dir es).
Proof.
  induction p as [|x p IH]; intros o n; simpl.
  - destruct o as [[| es |]|]; try discriminate; intros [= <-]; eauto.
  - destruct o as [[| es |]|]; try discriminate.
    + destruct (mkdirp p (assoc x es)) as [e|c] eqn:Em; [discriminate|].
      intros [= <-]. rewrite assoc_set_eq. eauto.
    + destruct (mkdirp p None) as [e|c] eqn:Em; [discriminate|].
      intros [= <-]. simpl. rewrite String.eqb_refl. eauto.
Qed.

(** [mkdirp] of a directory that is there changes nothing. *)
Lemma mkdirp_existing p : forall n es,
  lookup p (Some n) = Some (Dir es) -> mkdirp p (Some n) = inr n.
Proof.
  induction p as [|x p IH]; intros n es; simpl.
  - now intros [= ->].
  - destruct n as [| es' |]; try discriminate.
    destruct (assoc x es') as [c|] eqn:Ea; [|now rewrite lookup_None].
    intros H. rewrite (IH _ _ H). now rewrite (set_keeps _ _ _ Ea).
Qed.

(** [mkdirp] removes nothing and leaves the files as they are. *)
Lemma mkdirp_keeps p : forall o n q c,
  mkdirp p o = inr n ->
  lookup q o = Some c ->
  exists c', lookup q (Some n) = Some c' /\
             (forall d, c = File d -> c' = File d).
Proof.
  induction p as [|x p IH]; intros o n q c; simpl.
  - destruct o as [[| es |]|]; try discriminate.
    + intros [= <-] H. eauto.
    + intros _ H. now rewrite lookup_None in H.
  - destruct o as [[| es |]|]; try discriminate.
    + destruct (mkdirp p (assoc x es)) as [e|c0] eqn:Em; [discriminate|].
      intros [= <-] Hq.
      destruct q as [|y q].
      * simpl in *. injection Hq as <-. eexists. split; eauto.
        discriminate.
      * simpl in *. destruct (String.eqb_spec x y) as [->|Hne].
        -- rewrite assoc_set_eq. eapply IH; eauto.
        -- rewrite assoc_set_ne by auto. eauto.
    + intros _ H. now rewrite lookup_None in H.
Qed.

End MoreStoreFacts.

(* ===================================================================== *)
(** * Further properties of [MemFS]                                      *)
(* ===================================================================== *)

Section MoreMemFSFacts.
Import vscode.
Variable this : MemFS.t.

Local Abbreviation segs u := (path.segments (path_or_root u)).

Lemma asFsPath_foreign uri s :
  scheme uri <> MemFS.this_scheme this ->
  MemFS.asFsPath this uri s
  = (Throw (FsError (FileSystemError.Unavailable
                       ("Unsupported scheme: " ++ scheme uri)%string)), s).
Proof.
  intros H. unfold MemFS.asFsPath. apply String.eqb_neq in H.
  now rewrite H.
Qed.

(** X1.  A Uri of another scheme: every method throws [Unavailable] with
    the scheme in its message, before it touches the store. *)
Theorem X1_foreign_scheme_unavailable uri other content options recursive
        overwrite fuel s :
  scheme uri <> MemFS.this_scheme this ->
  let e := FsError (FileSystemError.Unavailable
                      ("Unsupported scheme: " ++ scheme uri)%string) in
  MemFS.stat this uri s = (Throw e, s) /\
  MemFS.readDirectory this uri s = (Throw e, s) /\
  MemFS.readFile this uri s = (Throw e, s) /\
  MemFS.writeFile this uri content options s = (Throw e, s) /\
  MemFS.delete this uri recursive s = (Throw e, s) /\
  MemFS.createDirectory this uri s = (Throw e, s) /\
  MemFS.rename this uri other overwrite s = (Throw e, s) /\
  MemFS.copy this fuel uri other overwrite s = (Throw e, s) /\
  (scheme other = MemFS.this_scheme this ->
   MemFS.rename this other uri overwrite s = (Throw e, s) /\
   MemFS.copy this fuel other uri overwrite s = (Throw e, s)).
Proof.
  intros H e.
  unfold MemFS.stat, MemFS.readDirectory, MemFS.readFile, MemFS.writeFile,
    MemFS.delete, MemFS.createDirectory, MemFS.rename, MemFS.copy, bind.
  rewrite (asFsPath_foreign uri s H).
  repeat (split; [reflexivity|]).
  intros Ho. rewrite (asFsPath_ok this other s Ho). cbv beta iota.
  rewrite (asFsPath_foreign uri s H). split; reflexivity.
Qed.

Lemma rethrow_FsError {A} (m : M A) uri s e :
  fst (try_catch m (MemFS.rethrow uri) s) = Throw e ->
  exists fe, e = FsError fe.
Proof.
  unfold try_catch, MemFS.rethrow, throw.
  destruct (m s) as [[a|e'|] s']; simpl; try discriminate.
  intros [= <-]. eauto.
Qed.

Lemma after_asFsPath {A} uri (k : string -> M A) s e :
  (forall p s', fst (k p s') = Throw e -> exists fe, e = FsError fe) ->
  fst (bind (MemFS.asFsPath this uri) k s) = Throw e ->
  exists fe, e = FsError fe.
Proof.
  intros Hk. unfold bind.
  destruct (asFsPath_cases this uri s) as [[_ ->]|[_ [m ->]]].
  - apply Hk.
  - simpl. intros [= <-]. eauto.
Qed.

(** X2.  What a method throws is always a [FileSystemError]: no
    exception of the store and no other error gets to the caller. *)
Theorem X2_only_FileSystemErrors_thrown uri other content options recursive
        overwrite fuel s e :
  (fst (MemFS.stat this uri s) = Throw e \/
   fst (MemFS.readDirectory this uri s) = Throw e \/
   fst (MemFS.readFile this uri s) = Throw e \/
   fst (MemFS.writeFile this uri content options s) = Throw e \/
   fst (MemFS.delete this uri recursive s) = Throw e \/
   fst (MemFS.createDirectory this uri s) = Throw e \/
   fst (MemFS.rename this uri other overwrite s) = Throw e \/
   fst (MemFS.copy this fuel uri other overwrite s) = Throw e) ->
  exists fe, e = FsError fe.
Proof.
  unfold MemFS.stat, MemFS.readDirectory, MemFS.readFile, MemFS.writeFile,
    MemFS.delete, MemFS.createDirectory, MemFS.rename, MemFS.copy.
  intros [H|[H|[H|[H|[H|[H|[H|H]]]]]]];
    revert H; apply after_asFsPath; intros p s'.
  1,2,3,5,6: apply rethrow_FsError.
  - unfold bind, existing.
    destruct (negb _ && negb _).
    + simpl. intros [= <-]. eauto.
    + apply rethrow_FsError.
  - apply after_asFsPath. intros p' s''. apply rethrow_FsError.
  - apply after_asFsPath. intros p' s''. apply rethrow_FsError.
Qed.

End MoreMemFSFacts.

Section MoreMemFSFacts2.
Import vscode.
Variable this : MemFS.t.

Local Abbreviation segs u := (path.segments (path_or_root u)).

Lemma toFileSystemError_not_found uri p s :
  MemFS.toFileSystemError (ErrnoException (fs.not_found p s)) uri
  = FileSystemError.FileNotFound uri.
Proof.
  unfold fs.not_found.
  destruct (miss_cases (path.segments p) (Some s)) as [-> | ->]; reflexivity.
Qed.

(** X3.  A path that does not exist, be it that a name is missing or
    that a name on the way is not a directory: [stat], [readFile] and
    [readDirectory] all throw [FileNotFound] for the Uri. *)
Theorem X3_missing_path_FileNotFound uri s :
  scheme uri = MemFS.this_scheme this ->
  fs.exists_ (path_or_root uri) s = false ->
  let e := FsError (FileSystemError.FileNotFound uri) in
  MemFS.stat this uri s = (Throw e, s) /\
  MemFS.readFile this uri s = (Throw e, s) /\
  MemFS.readDirectory this uri s = (Throw e, s).
Proof.
  intros Hs Hex e. unfold fs.exists_ in Hex.
  unfold MemFS.stat, MemFS.readFile, MemFS.readDirectory, bind.
  rewrite (asFsPath_ok this uri s Hs).
  unfold try_catch, bind, reading, fs.stat, fs.readFile, fs.readdir,
    MemFS.rethrow, throw.
  destruct (fs.resolve (path_or_root uri) s); [discriminate|].
  subst e. rewrite toFileSystemError_not_found. auto.
Qed.

(** X4.  [readDirectory] of a regular file throws [FileNotFound]: the
    store's not-a-directory is folded into it. *)
Theorem X4_readDirectory_of_a_file uri s data :
  scheme uri = MemFS.this_scheme this ->
  fs.resolve (path_or_root uri) s = Some (fs.File data) ->
  MemFS.readDirectory this uri s
  = (Throw (FsError (FileSystemError.FileNotFound uri)), s).
Proof.
  intros Hs Hres. unfold MemFS.readDirectory, bind.
  rewrite (asFsPath_ok this uri s Hs).
  unfold try_catch, bind, reading, fs.readdir.
  now rewrite Hres.
Qed.

(** The kind that [stat] and [readDirectory] report for an entry. *)
Lemma stat_existing uri s n :
  scheme uri = MemFS.this_scheme this ->
  fs.resolve (path_or_root uri) s = Some n ->
  MemFS.stat this uri s
  = (Return (mkFileStat (MemFS.toFileType (fs.stats_of n))
               (fs.size (fs.stats_of n))), s).
Proof.
  intros Hs Hn. unfold MemFS.stat, bind.
  rewrite (asFsPath_ok this uri s Hs).
  unfold try_catch, bind, reading, fs.stat. now rewrite Hn.
Qed.

Lemma readDirectory_loop_listing uri es s :
  scheme uri = MemFS.this_scheme this ->
  path uri <> "" ->
  fs.resolve (path_or_root uri) s = Some (fs.Dir es) ->
  forall names,
    Forall (fun name => path.valid_name name = true) names ->
    incl names (map fst es) ->
    MemFS.readDirectory_loop this uri names s
    = (Return (map (fun name =>
                      (name,
                       match fs.assoc name es with
                       | Some child => MemFS.toFileType (fs.stats_of child)
                       | None => FileType.Unknown
                       end)) names), s).
Proof.
  intros Hs Hp Hres.
  induction names as [|name rest IH]; intros Hvalid Hincl; [reflexivity|].
  inversion Hvalid as [|? ? Hname Hrest]; subst.
  cbn [MemFS.readDirectory_loop]. unfold bind.
  rewrite (Uri_joinPath_ok uri name s Hp).
  set (child := mkUri (scheme uri) (path.join (path uri) name)).
  rewrite (asFsPath_ok this child s Hs).
  unfold reading, fs.stat, fs.resolve.
  pose proof (segments_child uri name Hp Hname) as Hc. fold child in Hc.
  rewrite Hc, lookup_app. unfold fs.resolve in Hres. rewrite Hres.
  cbn [fs.lookup].
  destruct (In_assoc name es) as [c Hcd].
  { apply Hincl. now left. }
  rewrite Hcd.
  rewrite IH; auto.
  - cbn [map]. now rewrite Hcd.
  - intros x Hx. apply Hincl. now right.
Qed.

(** X5.  [readDirectory] of a directory returns one pair for each name
    the store lists, in the order of the listing, with the kind of the
    entry of that name; the store is as before. *)
Theorem X5_readDirectory_listing uri es s :
  scheme uri = MemFS.this_scheme this ->
  path uri <> "" ->
  fs.resolve (path_or_root uri) s = Some (fs.Dir es) ->
  fs.valid_names (fs.Dir es) = true ->
  MemFS.readDirectory this uri s
  = (Return (map (fun e =>
                    (fst e,
                     match fs.assoc (fst e) es with
                     | Some child => MemFS.toFileType (fs.stats_of child)
                     | None => FileType.Unknown
                     end)) es), s).
Proof.
  intros Hs Hp Hres Hvalid. unfold MemFS.readDirectory, bind.
  rewrite (asFsPath_ok this uri s Hs).
  unfold try_catch, bind, reading, fs.readdir. rewrite Hres.
  rewrite (readDirectory_loop_listing uri es s Hs Hp Hres (map fst es)).
  - now rewrite map_map.
  - rewrite Forall_forall. intros name Hin.
    destruct (In_assoc _ _ Hin) as [c Hc].
    now destruct (valid_names_child _ _ _ Hvalid Hc).
  - apply incl_refl.
Qed.

End MoreMemFSFacts2.

(* ===================================================================== *)
(** * Directories, removal and renaming                                 *)
(* ===================================================================== *)

Section MoreMemFSFacts3.
Import vscode.
Variable this : MemFS.t.

Local Abbreviation segs u := (path.segments (path_or_root u)).

(** X6.  [createDirectory] of a path that does not exist: when it
    returns there is a directory at the Uri, nothing that was in the
    store is gone and every file has the content it had.  On a directory
    that is there already it returns and changes nothing, so a second
    call is as good as none. *)
Theorem X6_createDirectory uri s :
  scheme uri = MemFS.this_scheme this ->
  (fs.exists_ (path_or_root uri) s = false ->
   forall s',
      MemFS.createDirectory this uri s = (Return tt, s') ->
      (exists es, fs.resolve (path_or_root uri) s' = Some (fs.Dir es)) /\
      (forall q c, fs.lookup q (Some s) = Some c ->
                   exists c', fs.lookup q (Some s') = Some c' /\
                              (forall d, c = fs.File d -> c' = fs.File d)) /\
      MemFS.createDirectory this uri s' = (Return tt, s')) /\
  (forall es,
      fs.resolve (path_or_root uri) s = Some (fs.Dir es) ->
      MemFS.createDirectory this uri s = (Return tt, s)).
Proof.
  intros Hs.
  assert (Hex : forall s0 es,
             fs.resolve (path_or_root uri) s0 = Some (fs.Dir es) ->
             MemFS.createDirectory this uri s0 = (Return tt, s0)).
  { intros s0 es Hres. unfold MemFS.createDirectory, bind.
    rewrite (asFsPath_ok this uri s0 Hs).
    unfold try_catch, writing, fs.mkdir.
    now rewrite (mkdirp_existing _ _ _ Hres). }
  split; [|intros es; apply Hex].
  intros _ s'. unfold MemFS.createDirectory, bind.
  rewrite (asFsPath_ok this uri s Hs).
  unfold try_catch, writing, fs.mkdir.
  destruct (fs.mkdirp (segs uri) (Some s)) as [e|n] eqn:Em; [discriminate|].
  intros [= <-].
  destruct (mkdirp_dir _ _ _ Em) as [es Hes].
  split; [eauto|]. split.
  - intros q c Hq. eapply mkdirp_keeps; eauto.
  - fold (MemFS.createDirectory this uri n). eapply Hex. exact Hes.
Qed.

(** X7.  [delete] of an entry other than the root, with nothing but
    regular files and directories in it, that is a file, an empty
    directory, or any directory when [recursive] is set: it returns, the
    entry and all below it are gone, and every path that parts from it
    is as before.  A directory that has entries is not
    removed without [recursive]: [delete] throws and the store is as it
    was. *)
Theorem X7_delete_existing uri recursive s n :
  scheme uri = MemFS.this_scheme this ->
  fs.resolve (path_or_root uri) s = Some n ->
  fs.no_special n = true ->
  segs uri <> [] ->
  ((recursive = true \/ forall e es, n <> fs.Dir (e :: es)) ->
   exists s',
     MemFS.delete this uri recursive s = (Return tt, s') /\
     (forall r, fs.lookup (segs uri ++ r) (Some s') = None) /\
     fs.same_off (segs uri) s s') /\
  (recursive = false -> (exists e es, n = fs.Dir (e :: es)) ->
   exists m,
     MemFS.delete this uri recursive s
     = (Throw (FsError (FileSystemError.Unavailable m)), s)).
Proof.
  intros Hs Hres _ Hne. unfold MemFS.delete, bind.
  rewrite (asFsPath_ok this uri s Hs).
  unfold try_catch, writing, fs.rm. rewrite Hres. split.
  - intros Hok.
    assert (Hrm : (match n with
                   | fs.Dir (_ :: _) =>
                       if recursive then fs.unlink (segs uri) s
                       else inl fs.ENOTEMPTY
                   | _ => fs.unlink (segs uri) s
                   end) = fs.unlink (segs uri) s).
    { destruct n as [|[|e es]|]; auto.
      destruct Hok as [->|Hn]; auto. now destruct (Hn e es). }
    rewrite Hrm.
    assert (Hu : exists s', fs.unlink (segs uri) s = inr s').
    { unfold fs.unlink, fs.alter_store, fs.resolve in *.
      destruct (segs uri) as [|x p] eqn:Ep; [congruence|].
      destruct (alter_defined (fun _ => inr None) (x :: p) (Some s) None)
        as [o' Ho']; auto.
      - eapply has_parent_lookup; eauto.
      - rewrite Ho'. destruct (alter_nonempty_some _ _ _ _ _ Ho') as [s' ->].
        eauto. }
    destruct Hu as [s' Hu]. rewrite Hu. exists s'.
    destruct (unlink_spec _ _ _ Hu) as [Hgone Hframe].
    repeat split; auto.
    intros r. now rewrite lookup_app, Hgone, lookup_None.
  - intros -> (e & es & ->). eexists. reflexivity.
Qed.

(** [rename] in terms of the primitives of the store. *)
Lemma rename_unfolded a b overwrite s :
  scheme a = MemFS.this_scheme this ->
  scheme b = MemFS.this_scheme this ->
  MemFS.rename this a b overwrite s
  = match (if overwrite && fs.exists_ (path_or_root b) s
           then fs.rm (path_or_root b) true true s else inr s) with
    | inl e =>
        (Throw (FsError (MemFS.toFileSystemError (ErrnoException e) a)), s)
    | inr s1 =>
        match fs.rename (path_or_root a) (path_or_root b) s1 with
        | inl e =>
            (Throw (FsError (MemFS.toFileSystemError (ErrnoException e) a)),
             s1)
        | inr s2 => (Return tt, s2)
        end
    end.
Proof.
  intros Hsa Hsb. unfold MemFS.rename, bind.
  rewrite (asFsPath_ok this a s Hsa), (asFsPath_ok this b s Hsb).
  unfold try_catch, bind, existing, writing, MemFS.rethrow, throw, ret.
  destruct overwrite, (fs.exists_ (path_or_root b) s);
    cbn [andb]; cbv beta iota.
  1: destruct (fs.rm (path_or_root b) true true s) as [e|s1];
    [reflexivity|].
  1: destruct (fs.rename _ _ s1); reflexivity.
  all: destruct (fs.rename _ _ s); reflexivity.
Qed.

Lemma unlink_defined p s n :
  p <> [] -> fs.lookup p (Some s) = Some n ->
  exists s1, fs.unlink p s = inr s1.
Proof.
  intros Hne Hl. unfold fs.unlink, fs.alter_store.
  destruct p as [|x p]; [congruence|].
  destruct (alter_defined (fun _ => inr None) (x :: p) (Some s) None)
    as [o' Ho']; auto.
  - eapply has_parent_lookup; eauto.
  - rewrite Ho'. destruct (alter_nonempty_some _ _ _ _ _ Ho') as [s1 ->].
    eauto.
Qed.

(** X8.  [rename] onto a destination that does not exist, in a
    directory that does, and not below the source: it returns, whatever
    the flag; the entry is at the destination, the source is gone and
    the paths that part from both are as before. *)
Theorem X8_rename_to_fresh_path a b overwrite s n :
  scheme a = MemFS.this_scheme this ->
  scheme b = MemFS.this_scheme this ->
  fs.resolve (path_or_root a) s = Some n ->
  fs.resolve (path_or_root b) s = None ->
  fs.has_parent (segs b) (Some s) = true ->
  fs.is_prefix (segs a) (segs b) = false ->
  exists s',
    MemFS.rename this a b overwrite s = (Return tt, s') /\
    fs.resolve (path_or_root b) s' = Some n /\
    fs.resolve (path_or_root a) s' = None /\
    (forall q, fs.diverge (segs a) q = true -> fs.diverge (segs b) q = true ->
               fs.lookup q (Some s') = fs.lookup q (Some s)).
Proof.
  intros Hsa Hsb Ha Hb Hpar Hpre.
  rewrite (rename_unfolded a b overwrite s Hsa Hsb).
  unfold fs.exists_. rewrite Hb, andb_false_r.
  unfold fs.rename, fs.resolve in *.
  set (pa := segs a) in *. set (pb := segs b) in *.
  rewrite Ha, Hpre, Hb.
  assert (Hdiv : fs.diverge pa pb = true).
  { destruct (paths_trichotomy pa pb) as [H|[H|H]]; auto; [congruence|].
    rewrite (lookup_under_absent _ _ _ H Hb) in Ha. discriminate. }
  assert (Hne : pa <> []) by (intros E; rewrite E in Hdiv; discriminate).
  destruct (unlink_defined pa s n Hne Ha) as [s1 Hu].
  destruct (unlink_spec _ _ _ Hu) as [Hgone Hframe].
  assert (Hpar1 : fs.has_parent pb (Some s1) = true).
  { rewrite <- Hpar. unfold fs.unlink in Hu.
    destruct pa as [|x p]; [congruence|].
    apply alter_store_inv in Hu.
    eapply has_parent_alter_other; eauto. }
  assert (Hput : exists s', fs.alter_store (fun _ => inr (Some n)) pb s1
                            = inr s').
  { unfold fs.alter_store.
    destruct (alter_defined (fun _ => inr (Some n)) pb (Some s1) (Some n)
                Hpar1 eq_refl) as [o' Ho'].
    rewrite Ho'. pose proof (lookup_alter_same _ _ _ _ Ho') as Hl.
    destruct o' as [s'|]; eauto.
    rewrite lookup_None in Hl. discriminate. }
  destruct Hput as [s' Hput].
  rewrite Hu, Hput. exists s'. apply alter_store_inv in Hput.
  split; [now destruct n|]. repeat split.
  - apply lookup_alter_same in Hput. congruence.
  - rewrite (lookup_alter_other _ _ _ _ _ Hput)
      by now rewrite diverge_sym.
    exact Hgone.
  - intros q Hqa Hqb.
    rewrite (lookup_alter_other _ _ _ _ _ Hput) by exact Hqb.
    now apply Hframe.
Qed.


End MoreMemFSFacts3.

(* ===================================================================== *)
(** * The copy of a single file                                         *)
(* ===================================================================== *)

Section MoreStoreFacts2.
Import fs.

Lemma alter_has_parent f p : forall o o',
  alter f p o = inr o' -> has_parent p o = true.
Proof.
  induction p as [|x p IH]; intros o o'; simpl; auto.
  destruct o as [[| es |]|]; try discriminate.
  destruct (alter f p (assoc x es)) eqn:E; [discriminate|].
  intros _. eapply IH; eauto.
Qed.

Lemma has_parent_through q x r : forall o,
  has_parent (q ++ x :: r) o = true ->
  exists es, lookup q o = Some (Dir es).
Proof.
  induction q as [|y q IH]; intros o; simpl.
  - destruct o as [[| es |]|]; try discriminate. eauto.
  - destruct o as [[| es |]|]; try discriminate. apply IH.
Qed.

Lemma removelast_fixed {A} (l : list A) : removelast l = l -> l = [].
Proof.
  induction l as [|x l IH]; auto.
  destruct l as [|y l]; [discriminate|].
  change (removelast (x :: y :: l)) with (x :: removelast (y :: l)).
  intros H. injection H as H. specialize (IH H). discriminate.
Qed.

(** A path that is missing in a directory, with nothing but directories
    on the way: the directory that holds it is there, or [mkdirp] makes
    it. *)
Lemma mkdirp_fresh p : forall o,
  p <> [] ->
  miss p o = ENOENT ->
  lookup p o = None ->
  exists n, mkdirp (removelast p) o = inr n /\
            has_parent p (Some n) = true /\
            lookup p (Some n) = None.
Proof.
  induction p as [|x p IH]; intros o Hne Hmiss Hl; [congruence|].
  destruct p as [|y p].
  - simpl in *. destruct o as [[| es |]|]; try discriminate.
    + exists (Dir es). auto.
    + exists (Dir []). auto.
  - change (removelast (x :: y :: p)) with (x :: removelast (y :: p)).
    cbn [mkdirp]. cbn [miss lookup] in Hmiss, Hl.
    destruct o as [[| es |]|]; try discriminate.
    + destruct (IH (assoc x es)) as (n & Hm & Hp & Hn); auto;
        [discriminate|].
      rewrite Hm. eexists. split; [reflexivity|].
      cbn [has_parent lookup]. now rewrite assoc_set_eq.
    + destruct (IH None) as (n & Hm & Hp & Hn); auto; [discriminate|].
      rewrite Hm. eexists. split; [reflexivity|].
      cbn [has_parent lookup assoc]. now rewrite String.eqb_refl.
Qed.

Lemma parent_of_missing p : forall o c,
  p <> [] ->
  miss p o = ENOENT ->
  lookup p o = None ->
  lookup (removelast p) o = Some c ->
  has_parent p o = true.
Proof.
  induction p as [|x p IH]; intros o c Hne Hmiss Hl Hpar; [congruence|].
  destruct p as [|y p].
  - simpl in *. destruct o as [[| es |]|]; try discriminate. auto.
  - change (removelast (x :: y :: p)) with (x :: removelast (y :: p)) in Hpar.
    cbn [miss lookup has_parent] in *.
    destruct o as [[| es |]|]; try discriminate.
    eapply IH; eauto. discriminate.
Qed.

Lemma parent_of_existing p : forall o c,
  p <> [] -> lookup p o = Some c ->
  exists es, lookup (removelast p) o = Some (Dir es).
Proof.
  induction p as [|x p IH]; intros o c Hne Hl; [congruence|].
  destruct p as [|y p].
  - simpl in *. destruct o as [[| es |]|]; try discriminate. eauto.
  - change (removelast (x :: y :: p)) with (x :: removelast (y :: p)).
    cbn [lookup] in *. destruct o as [[| es |]|]; try discriminate.
    eapply IH; eauto. discriminate.
Qed.

End MoreStoreFacts2.

Section MoreCopyFacts.
Import vscode.
Variable this : MemFS.t.

Local Abbreviation segs u := (path.segments (path_or_root u)).

(** The two refusals of [copy] are thrown inside its [try] block. *)
Lemma copy_refusals fuel source destination overwrite s :
  scheme source = MemFS.this_scheme this ->
  scheme destination = MemFS.this_scheme this ->
  (fs.exists_ (path_or_root source) s = false ->
   exists m, MemFS.copy this fuel source destination overwrite s
             = (Throw (FsError (FileSystemError.Unavailable m)), s)) /\
  (fs.exists_ (path_or_root source) s = true ->
   fs.exists_ (path_or_root destination) s = true ->
   overwrite = false ->
   exists m, MemFS.copy this fuel source destination overwrite s
             = (Throw (FsError (FileSystemError.Unavailable m)), s)).
Proof.
  intros Hs Hd. unfold MemFS.copy, bind.
  rewrite (asFsPath_ok this source s Hs).
  rewrite (asFsPath_ok this destination s Hd).
  unfold try_catch, bind, existing. split.
  - intros ->. eexists. reflexivity.
  - intros -> Hdst ->. cbn [negb]. cbv beta iota. rewrite Hdst.
    eexists. reflexivity.
Qed.

(** X10.  [copy] tests the source and the destination inside its [try]
    block, so what it throws there is translated once more: a source
    that does not exist, and a destination that exists without
    [overwrite], both come out as [Unavailable], and the store is as it
    was. *)
Theorem X10_copy_refusals_are_Unavailable fuel source destination overwrite
        s :
  scheme source = MemFS.this_scheme this ->
  scheme destination = MemFS.this_scheme this ->
  (fs.exists_ (path_or_root source) s = false ->
   exists m, MemFS.copy this fuel source destination overwrite s
             = (Throw (FsError (FileSystemError.Unavailable m)), s)) /\
  (fs.exists_ (path_or_root source) s = true ->
   fs.exists_ (path_or_root destination) s = true ->
   overwrite = false ->
   exists m, MemFS.copy this fuel source destination overwrite s
             = (Throw (FsError (FileSystemError.Unavailable m)), s)).
Proof. apply copy_refusals. Qed.

(** What [ensureParentDirectory] leaves behind. *)
Lemma ensureParentDirectory_keeps fsPath s :
  let r := MemFS.ensureParentDirectory fsPath s in
  fst r <> Diverge /\
  forall q c, fs.lookup q (Some s) = Some c ->
              exists c', fs.lookup q (Some (snd r)) = Some c' /\
                         (forall d, c = fs.File d -> c' = fs.File d).
Proof.
  unfold MemFS.ensureParentDirectory.
  destruct (negb _ && negb _); [|split; [discriminate|eauto]].
  unfold bind, existing.
  destruct (negb (fs.exists_ _ s)); [|split; [discriminate|eauto]].
  unfold writing, fs.mkdir.
  destruct (fs.mkdirp _ (Some s)) as [e|n] eqn:Em; cbn [fst snd];
    (split; [discriminate|]); [eauto|].
  intros q c Hq. eapply mkdirp_keeps; eauto.
Qed.

(** [copy] of a regular file, in terms of the primitives. *)
Lemma copy_file_unfolded fuel source destination overwrite s data :
  scheme source = MemFS.this_scheme this ->
  scheme destination = MemFS.this_scheme this ->
  fs.resolve (path_or_root source) s = Some (fs.File data) ->
  (fs.exists_ (path_or_root destination) s && negb overwrite = false) ->
  MemFS.copy this fuel source destination overwrite s
  = match MemFS.ensureParentDirectory (path_or_root destination) s with
    | (Return _, s1) =>
        match fs.writeFile (path_or_root destination) data fs.w s1 with
        | inr s2 => (Return tt, s2)
        | inl e =>
            (Throw (FsError (MemFS.toFileSystemError (ErrnoException e)
                               source)), s1)
        end
    | (Throw e, s1) =>
        (Throw (FsError (MemFS.toFileSystemError e source)), s1)
    | (Diverge, s1) => (Diverge, s1)
    end.
Proof.
  intros Hs Hd Hsrc Hchk. unfold MemFS.copy, bind.
  rewrite (asFsPath_ok this source s Hs).
  rewrite (asFsPath_ok this destination s Hd).
  unfold try_catch, bind, existing, fs.exists_ at 1. rewrite Hsrc.
  cbn [negb]. rewrite Hchk.
  destruct (ensureParentDirectory_keeps (path_or_root destination) s)
    as [_ Hkeep].
  destruct (MemFS.ensureParentDirectory (path_or_root destination) s)
    as [[[]|e|] s1]; try reflexivity.
  cbn [fst snd] in Hkeep.
  destruct (Hkeep _ _ Hsrc) as (c' & Hc' & Hfile).
  rewrite (Hfile data eq_refl) in Hc'.
  unfold reading, writing, fs.stat, fs.readFile, fs.resolve.
  rewrite Hc'. cbn [fs.stats_of fs.isDirectory]. cbv beta iota.
  rewrite Hc'.
  destruct (fs.writeFile _ _ _ s1); reflexivity.
Qed.

(** X11.  [copy] of a regular file to a path that is not above it: when
    it returns, the destination reads as the bytes of the source and the
    source still has them.  It does return when the destination is a
    file and [overwrite] is set, and when the destination is missing
    with nothing but directories on the way, in which case the missing
    directories are made. *)
Theorem X11_copy_file fuel source destination overwrite s data :
  scheme source = MemFS.this_scheme this ->
  scheme destination = MemFS.this_scheme this ->
  fs.resolve (path_or_root source) s = Some (fs.File data) ->
  (forall x r, segs source <> segs destination ++ x :: r) ->
  (forall s',
      MemFS.copy this fuel source destination overwrite s = (Return tt, s') ->
      MemFS.readFile this destination s' = (Return data, s') /\
      MemFS.readFile this source s' = (Return data, s')) /\
  (((exists old, fs.resolve (path_or_root destination) s
                 = Some (fs.File old)) /\ overwrite = true) \/
   fs.stat (path_or_root destination) s = inl fs.ENOENT ->
   exists s', MemFS.copy this fuel source destination overwrite s
              = (Return tt, s')).
Proof.
  intros Hs Hd Hsrc Hanc. split.
  - intros s' Hcopy.
    assert (Hchk : fs.exists_ (path_or_root destination) s && negb overwrite
                   = false).
    { destruct (_ && _) eqn:E; auto.
      destruct (copy_refusals fuel source destination overwrite s Hs Hd)
        as [_ H].
      apply andb_prop in E as [E1 E2]. apply negb_true_iff in E2.
      destruct H as [m Hm]; auto.
      - unfold fs.exists_. now rewrite Hsrc.
      - congruence. }
    rewrite (copy_file_unfolded fuel source destination overwrite s data
               Hs Hd Hsrc Hchk) in Hcopy.
    destruct (ensureParentDirectory_keeps (path_or_root destination) s)
      as [_ Hkeep].
    destruct (MemFS.ensureParentDirectory (path_or_root destination) s)
      as [[[]|e|] s1]; try discriminate.
    cbn [fst snd] in Hkeep.
    destruct (Hkeep _ _ Hsrc) as (c' & Hc' & Hfile).
    rewrite (Hfile data eq_refl) in Hc'. clear Hfile Hkeep.
    destruct (fs.writeFile _ _ _ s1) as [e|s2] eqn:Ew; [discriminate|].
    injection Hcopy as <-.
    unfold fs.writeFile in Ew. apply alter_store_inv in Ew.
    pose proof (lookup_alter_same _ _ _ _ Ew) as Hdst.
    apply write_at_some in Hdst.
    assert (Hsrc2 : fs.lookup (segs source) (Some s2)
                    = Some (fs.File data)).
    { destruct (paths_trichotomy (segs source) (segs destination))
        as [H|[H|H]].
      - destruct (is_prefix_app _ _ H) as [[|x r] Hr].
        + rewrite app_nil_r in Hr. now rewrite Hr in Hdst.
        + apply alter_has_parent in Ew. rewrite Hr in Ew.
          destruct (has_parent_through _ _ _ _ Ew) as [es Hes].
          congruence.
      - destruct (is_prefix_app _ _ H) as [[|x r] Hr].
        + rewrite app_nil_r in Hr. now rewrite Hr.
        + destruct (Hanc x r Hr).
      - rewrite (lookup_alter_other _ _ _ _ _ Ew)
          by now rewrite diverge_sym.
        exact Hc'. }
    unfold MemFS.readFile, bind.
    rewrite (asFsPath_ok this destination s2 Hd).
    rewrite (asFsPath_ok this source s2 Hs).
    unfold try_catch, reading, fs.readFile, fs.resolve.
    now rewrite Hdst, Hsrc2.
  - intros Hdom.
    assert (Hchk : fs.exists_ (path_or_root destination) s && negb overwrite
                   = false).
    { destruct Hdom as [[_ ->]|Hst]; [apply andb_false_r|].
      unfold fs.stat, fs.exists_ in *.
      destruct (fs.resolve (path_or_root destination) s);
        [discriminate|reflexivity]. }
    rewrite (copy_file_unfolded fuel source destination overwrite s data
               Hs Hd Hsrc Hchk).
    assert (Hw : exists s1,
               MemFS.ensureParentDirectory (path_or_root destination) s
               = (Return tt, s1) /\
               fs.has_parent (segs destination) (Some s1) = true /\
               exists r, fs.write_at data fs.w
                           (fs.resolve (path_or_root destination) s1)
                         = inr r).
    { unfold MemFS.ensureParentDirectory, bind, existing, fs.exists_,
        writing, fs.mkdir, fs.resolve.
      rewrite !segments_dirname.
      destruct Hdom as [[[old Hold] _]|Hst].
      - exists s. unfold fs.resolve in Hold.
        assert (Hp : fs.has_parent (segs destination) (Some s) = true)
          by (eapply has_parent_lookup; eauto).
        assert (Hr : exists r, fs.write_at data fs.w
                                 (fs.lookup (segs destination) (Some s))
                               = inr r)
          by (rewrite Hold; simpl; eauto).
        destruct (negb _ && negb _); [|auto].
        destruct (segs destination) as [|x p] eqn:Ep.
        + simpl. auto.
        + destruct (parent_of_existing (x :: p) (Some s) _
                      ltac:(discriminate) Hold) as [es Hes].
          rewrite Hes. cbn [negb]. auto.
      - unfold fs.stat, fs.resolve, fs.not_found in Hst.
        destruct (fs.lookup (segs destination) (Some s)) eqn:Hl;
          [discriminate|].
        injection Hst as Hmiss.
        assert (Hne : segs destination <> []).
        { intros E. rewrite E in Hl. discriminate. }
        assert (Hcond : negb (path.dirname (path_or_root destination) =? "")
                        && negb (path.dirname (path_or_root destination)
                                 =? path_or_root destination) = true).
        { apply andb_true_intro. split; apply negb_true_iff.
          - reflexivity.
          - apply String.eqb_neq. intros E.
            apply Hne, removelast_fixed.
            rewrite <- segments_dirname. now rewrite E. }
        rewrite Hcond.
        destruct (fs.lookup (removelast (segs destination)) (Some s))
          as [c|] eqn:Hpar; cbn [negb].
        + exists s. split; [reflexivity|]. split.
          * eapply parent_of_missing; eauto.
          * rewrite Hl. simpl. eauto.
        + destruct (mkdirp_fresh _ (Some s) Hne Hmiss Hl)
            as (n & Hm & Hp & Hn).
          rewrite Hm. exists n. split; [reflexivity|]. split; auto.
          rewrite Hn. simpl. eauto. }
    destruct Hw as (s1 & -> & Hp & r & Hr).
    destruct (writeFile_accepted _ _ _ _ _ Hp Hr) as (s2 & -> & _).
    eauto.
Qed.

End MoreCopyFacts.

(* ===================================================================== *)
(** * What a write leaves alone, and the reset command                  *)
(* ===================================================================== *)

Section WriteFrame.
Import vscode.
Variable this : MemFS.t.

Lemma is_prefix_refl p : fs.is_prefix p p = true.
Proof.
  induction p as [|x p IH]; simpl; auto. now rewrite String.eqb_refl.
Qed.

(** X12.  A [writeFile] that returns, onto a path that is not a
    directory, changes the entry at [uri] and the directories above it,
    nothing else: every path that is neither [uri] nor above it resolves
    to what it did before. *)
Theorem X12_writeFile_frame uri content options s s' q :
  scheme uri = MemFS.this_scheme this ->
  (forall es, fs.resolve (path_or_root uri) s <> Some (fs.Dir es)) ->
  MemFS.writeFile this uri content options s = (Return tt, s') ->
  fs.is_prefix q (path.segments (path_or_root uri)) = false ->
  fs.lookup q (Some s') = fs.lookup q (Some s).
Proof.
  intros Hs Hnd Hw Hq. unfold MemFS.writeFile, bind in Hw.
  rewrite (asFsPath_ok this uri s Hs) in Hw.
  unfold existing, try_catch, writing in Hw.
  destruct (negb _ && negb _); [discriminate|].
  destruct (fs.writeFile _ _ _ s) as [e|s1] eqn:Ew; [discriminate|].
  injection Hw as <-.
  unfold fs.writeFile in Ew. apply alter_store_inv in Ew.
  pose proof (lookup_alter_same _ _ _ _ Ew) as Hsame.
  destruct (paths_trichotomy q (path.segments (path_or_root uri)))
    as [H|[H|H]].
  - congruence.
  - destruct (is_prefix_app _ _ H) as [[|x r] Hr].
    + rewrite app_nil_r in Hr. rewrite Hr, is_prefix_refl in Hq.
      discriminate.
    + rewrite Hr, !lookup_app.
      pose proof (write_at_some _ _ _ _ Hsame) as Hnew. rewrite Hnew.
      unfold fs.resolve in Hnd.
      destruct (fs.lookup _ (Some s)) as [[| es |]|]; try reflexivity.
      destruct (Hnd es eq_refl).
  - apply (lookup_alter_other _ _ _ _ _ Ew). now rewrite diverge_sym.
Qed.

(** X22.  After a [writeFile] that returns, onto a path that was a
    regular file or nothing, [stat] of the Uri reports a regular file
    whose size is the number of bytes written. *)
Theorem X22_stat_after_writeFile uri content options s s' :
  scheme uri = MemFS.this_scheme this ->
  fs.resolve (path_or_root uri) s = None \/
  (exists d, fs.resolve (path_or_root uri) s = Some (fs.File d)) ->
  MemFS.writeFile this uri content options s = (Return tt, s') ->
  MemFS.stat this uri s'
  = (Return (mkFileStat FileType.File (List.length content)), s').
Proof.
  intros Hs _ Hw. unfold MemFS.writeFile, bind in Hw.
  rewrite (asFsPath_ok this uri s Hs) in Hw.
  unfold existing, try_catch, writing in Hw.
  destruct (negb _ && negb _); [discriminate|].
  destruct (fs.writeFile _ _ _ s) as [e|s1] eqn:Ew; [discriminate|].
  injection Hw as <-.
  unfold fs.writeFile in Ew. apply alter_store_inv in Ew.
  apply lookup_alter_same, write_at_some in Ew.
  now rewrite (stat_existing this uri s1 _ Hs Ew).
Qed.

End WriteFrame.

Section ResetFacts.

Lemma segments_name x : path.valid_name x = true -> path.segments x = [x].
Proof.
  intros Hx. unfold path.segments.
  rewrite (split_noslash _ (valid_name_noslash _ Hx)). simpl.
  now rewrite (step_valid [] x Hx).
Qed.

Lemma del_absent x es : fs.assoc x es = None -> fs.del x es = es.
Proof.
  unfold fs.del. induction es as [|[y n] r IH]; simpl; auto.
  destruct (x =? y); [discriminate|]. simpl. intros H. now rewrite IH.
Qed.

Lemma rm_name x es :
  path.valid_name x = true ->
  fs.rm x true true (fs.Dir es) = inr (fs.Dir (fs.del x es)).
Proof.
  intros Hx. unfold fs.rm, fs.resolve, fs.not_found.
  rewrite (segments_name x Hx). simpl.
  destruct (fs.assoc x es) as [[|[|? ?]|]|] eqn:Ea; try reflexivity.
  now rewrite del_absent.
Qed.

Lemma reset_loop l : forall es,
  Forall (fun x => path.valid_name x = true) l ->
  for_of l (fun dir => writing (fs.rm dir true true)) (fs.Dir es)
  = (Return tt, fs.Dir (fold_left (fun es x => fs.del x es) l es)).
Proof.
  induction l as [|x l IH]; intros es Hl; [reflexivity|].
  inversion Hl as [|? ? Hx Hl']; subst.
  cbn [for_of fold_left]. unfold bind, writing at 1.
  rewrite (rm_name x es Hx). now apply IH.
Qed.

Lemma del_all l : forall es,
  (forall e, In e es -> In (fst e) l) ->
  fold_left (fun es x => fs.del x es) l es = [].
Proof.
  induction l as [|x l IH]; intros es H; simpl.
  - destruct es as [|e es]; auto. destruct (H e (or_introl eq_refl)).
  - apply IH. intros e He. unfold fs.del in He.
    apply filter_In in He as [He Hne].
    destruct (H e He) as [Heq|Hin]; auto.
    rewrite Heq, String.eqb_refl in Hne. discriminate.
Qed.

(** X13.  The command "memfs.reset" on a root directory whose names are
    valid, with nothing but regular files and directories below it,
    returns and leaves the root empty. *)
Theorem X13_reset_empties_the_root es :
  fs.valid_names (fs.Dir es) = true ->
  fs.no_special (fs.Dir es) = true ->
  Extension.reset (fs.Dir es) = (Return tt, fs.Dir []).
Proof.
  intros Hv _. unfold Extension.reset, bind, reading, fs.readdir, fs.resolve.
  change (path.segments "/") with (@nil string). cbn [fs.lookup].
  cbv beta iota.
  rewrite reset_loop.
  - rewrite del_all; auto. intros e He. now apply in_map.
  - apply Forall_forall. intros x Hx.
    destruct (In_assoc _ _ Hx) as [c Hc].
    now destruct (valid_names_child _ _ _ Hv Hc).
Qed.

End ResetFacts.

(* ===================================================================== *)
(** * The filename search: what it returns                              *)
(* ===================================================================== *)

Section FileSearchResults.
Import vscode.
Variable memFs : MemFS.t.
Variable store : fs.store.
Variable query : FileSearchQuery.
Variable options : SearchOptions.
Variable token : CancellationToken.

Local Abbreviation state := MemFSFileSearchProvider.state.
Local Abbreviation results := MemFSFileSearchProvider.results.
Local Abbreviation polls := MemFSFileSearchProvider.polls.
Local Abbreviation mkState := MemFSFileSearchProvider.mkState.
Local Abbreviation patternLower :=
  (MemFSFileSearchProvider.patternLower query).
Local Abbreviation searchInFolder_entries :=
  (MemFSFileSearchProvider.searchInFolder_entries memFs store query options
     token).
Local Abbreviation searchInFolder :=
  (MemFSFileSearchProvider.searchInFolder memFs store query options token).
Local Abbreviation includes_loop :=
  (MemFSFileSearchProvider.includes_loop memFs store query options token).
Local Abbreviation provideFileSearchResults :=
  (MemFSFileSearchProvider.provideFileSearchResults memFs store query
     options token).

(** The name of the entry that [p] denotes. *)
Local Abbreviation basename p := (last (path.segments p) "").

(** X14.  A search that starts with the token cancelled returns no
    result. *)
Theorem X14_file_search_cancelled fuel :
  token 0 = true ->
  provideFileSearchResults (S fuel) = Return [].
Proof.
  intros Htok.
  unfold MemFSFileSearchProvider.provideFileSearchResults,
    MemFSFileSearchProvider.run.
  destruct (includes options) as [[|folder rest]|]; simpl;
    now rewrite Htok.
Qed.

Lemma join_child a e :
  path.valid_name e = true ->
  path.join a e = path.of_segments (path.segments a ++ [e]).
Proof.
  intros He. pose proof (segments_join a e He) as H.
  unfold path.join in *.
  rewrite segments_of_segments in H by apply segments_valid.
  now rewrite H.
Qed.

(** ** Every result is a match *)

Section Sound.
Variable P : Uri -> Prop.

Lemma file_entries_sound rec folderPath entries :
  (forall p st, Forall P (results st) ->
                Forall P (results (snd (rec p st)))) ->
  (forall entry stat u,
      In entry entries ->
      fs.stat (path.join folderPath entry) store = inr stat ->
      fs.isFile stat = true ->
      Str.includes (Str.toLowerCase entry) patternLower = true ->
      Uri_parse (MemFS.this_scheme memFs ++ ":"
                 ++ path.join folderPath entry) = Some u ->
      P u) ->
  forall st, Forall P (results st) ->
  Forall P (results (snd (searchInFolder_entries rec folderPath entries
                            st))).
Proof.
  intros Hrec. induction entries as [|entry rest IH]; intros Hpush st Hst;
    simpl; auto.
  assert (IH' : forall st, Forall P (results st) ->
            Forall P (results (snd (searchInFolder_entries rec folderPath
                                      rest st)))).
  { apply IH. intros e stat u Hin. apply Hpush. now right. }
  destruct (token _); simpl; auto.
  destruct (fs.stat _ store) as [e|stat] eqn:Estat; simpl; auto.
  destruct (fs.isDirectory stat).
  - destruct (limit_reached _ _); simpl; auto.
    destruct (rec _ _) as [c st'] eqn:Er.
    assert (Forall P (results st')).
    { change st' with (snd (c, st')). rewrite <- Er. apply Hrec.
      exact Hst. }
    destruct c; auto.
  - destruct (fs.isFile stat) eqn:Efile; [|apply IH'; exact Hst].
    destruct (Str.includes _ _) eqn:Einc; [|apply IH'; exact Hst].
    destruct (Uri_parse _) as [u|] eqn:Eu; [|exact Hst].
    match goal with
    | |- context [MemFSFileSearchProvider.push u ?s] =>
        assert (Hp : Forall P (results (MemFSFileSearchProvider.push u s)))
    end.
    { unfold MemFSFileSearchProvider.push. simpl.
      apply Forall_app. split; [exact Hst|].
      constructor; [|constructor].
      apply (Hpush entry stat u (or_introl eq_refl) Estat Efile Einc Eu). }
    destruct (limit_reached _ _); simpl; auto.
Qed.

Hypothesis Hvalid : fs.valid_names store = true.
Hypothesis Hscheme : scheme_ok (MemFS.this_scheme memFs) = true.
Hypothesis Hplain : plain_names store = true.
Hypothesis P_match :
  forall p, fs.is_regular p store = true ->
            Str.includes (Str.toLowerCase (basename p)) patternLower = true ->
            P (mkUri (MemFS.this_scheme memFs) p).

Lemma file_searchInFolder_sound fuel :
  forall p st, Forall P (results st) ->
  Forall P (results (snd (searchInFolder fuel p st))).
Proof.
  induction fuel as [|fuel IH]; intros p st Hst; simpl; auto.
  destruct (token _); simpl; auto.
  unfold fs.readdir.
  destruct (fs.resolve p store) as [[| es |]|] eqn:Ep; simpl; auto.
  match goal with
  | |- context [MemFSFileSearchProvider.searchInFolder_entries
                  _ _ _ _ _ ?r ?f ?l ?s] =>
      pose proof (file_entries_sound r f l IH) as He;
      destruct (MemFSFileSearchProvider.searchInFolder_entries
                  memFs store query options token r f l s)
        as [c st'] eqn:Ee
  end.
  simpl. change st' with (snd (c, st')). rewrite <- Ee. apply He; auto.
  intros entry stat u Hin Hstat Hfile Hinc Hu.
  destruct (In_assoc _ _ Hin) as [c0 Hc0].
  assert (Hves : fs.valid_names (fs.Dir es) = true)
    by (eapply valid_names_lookup; eauto).
  destruct (valid_names_child _ _ _ Hves Hc0) as [Hname _].
  assert (Hres : fs.resolve (path.join p entry) store = Some c0).
  { now rewrite (resolve_join _ _ _ Hname), Ep. }
  rewrite (Uri_parse_join _ _ _ _ _ Hscheme Hplain Hres) in Hu.
  injection Hu as <-.
  apply P_match.
  - unfold fs.is_regular. now rewrite Hstat.
  - rewrite (segments_join _ _ Hname), last_last. exact Hinc.
Qed.

Lemma file_includes_sound fuel folders :
  forall st, Forall P (results st) ->
  Forall P (results (snd (includes_loop fuel folders st))).
Proof.
  induction folders as [|folder rest IH]; intros st Hst; simpl; auto.
  destruct (token _); simpl; auto.
  match goal with
  | |- context [MemFSFileSearchProvider.searchInFolder _ _ _ _ _ fuel ?p ?s]
    => pose proof (file_searchInFolder_sound fuel p s Hst) as Hs;
       destruct (MemFSFileSearchProvider.searchInFolder
                   memFs store query options token fuel p s) as [c st']
  end.
  simpl in Hs. destruct c; auto.
Qed.

Lemma file_run_sound fuel :
  Forall P (results (snd (MemFSFileSearchProvider.run memFs store query
                            options token fuel))).
Proof.
  unfold MemFSFileSearchProvider.run.
  match goal with
  | |- context [MemFSFileSearchProvider.includes_loop _ _ _ _ _ fuel ?l ?s]
    => pose proof (file_includes_sound fuel l s (Forall_nil _)) as Hi;
       destruct (MemFSFileSearchProvider.includes_loop
                   memFs store query options token fuel l s) as [c st']
  end.
  simpl in Hi.
  destruct c; auto;
    destruct (includes options) as [[|? ?]|]; auto;
    apply file_searchInFolder_sound; auto.
Qed.

End Sound.

(** X15.  When the scheme of the provider is a well-formed scheme name
    and the names of the store are valid and free of "%", "?" and "#",
    every Uri that the filename search returns has the scheme of the
    provider and is the path of a regular file of the store whose name,
    letters folded, contains the folded pattern. *)
Theorem X15_file_search_sound fuel rs :
  fs.valid_names store = true ->
  scheme_ok (MemFS.this_scheme memFs) = true ->
  plain_names store = true ->
  provideFileSearchResults fuel = Return rs ->
  Forall (fun u =>
            scheme u = MemFS.this_scheme memFs /\
            fs.is_regular (path u) store = true /\
            Str.includes (Str.toLowerCase (basename (path u)))
              (Str.toLowerCase (fq_pattern query)) = true) rs.
Proof.
  intros Hvalid Hscheme Hplain Hrun.
  unfold MemFSFileSearchProvider.provideFileSearchResults in Hrun.
  pose proof (file_run_sound
                (fun u =>
                   scheme u = MemFS.this_scheme memFs /\
                   fs.is_regular (path u) store = true /\
                   Str.includes (Str.toLowerCase (basename (path u)))
                     (Str.toLowerCase (fq_pattern query)) = true)
                Hvalid Hscheme Hplain) as H.
  specialize (H (fun p Hr Hi => conj eq_refl (conj Hr Hi)) fuel).
  destruct (MemFSFileSearchProvider.run _ _ _ _ _ _) as [c st].
  destruct c; try discriminate; injection Hrun as <-; exact H.
Qed.

(** ** Every match is a result *)

Lemma lookup_cons_dir x r n c :
  fs.lookup (x :: r) (Some n) = Some c -> exists es, n = fs.Dir es.
Proof. destruct n; simpl; try discriminate. eauto. Qed.

Lemma readdir_root s entries :
  fs.readdir "/" s = inr entries -> exists es, s = fs.Dir es.
Proof.
  unfold fs.readdir. change (fs.resolve "/" s) with (Some s).
  destruct s; try discriminate. eauto.
Qed.

Section Complete.
Hypothesis Hvalid : fs.valid_names store = true.
Hypothesis Hscheme : scheme_ok (MemFS.this_scheme memFs) = true.
Hypothesis Hplain : plain_names store = true.
Hypothesis Hnever : forall n, token n = false.
Hypothesis Hnolimit :
  maxResults options = None \/ maxResults options = Some 0.

Lemma no_limit n : limit_reached (maxResults options) n = false.
Proof. destruct Hnolimit as [-> | ->]; reflexivity. Qed.

(** The Uri of the file at the names [r] under the folder [p]. *)
Local Abbreviation uri_under p r :=
  (mkUri (MemFS.this_scheme memFs)
     (path.of_segments (path.segments p ++ r))).

Local Abbreviation matching x :=
  (Str.includes (Str.toLowerCase x) patternLower = true).

Lemma file_entries_complete rec folderPath es :
  fs.resolve folderPath store = Some (fs.Dir es) ->
  fs.valid_names (fs.Dir es) = true ->
  (forall x es' st,
      fs.assoc x es = Some (fs.Dir es') ->
      exists st',
        rec (path.join folderPath x) st = (Continue, st') /\
        incl (results st) (results st') /\
        forall r d, r <> [] ->
          fs.lookup r (Some (fs.Dir es')) = Some (fs.File d) ->
          matching (last r "") ->
          In (uri_under folderPath (x :: r)) (results st')) ->
  forall l st,
    incl l (map fst es) ->
    exists st',
      searchInFolder_entries rec folderPath l st = (Continue, st') /\
      incl (results st) (results st') /\
      forall x r d, In x l ->
        fs.lookup (x :: r) (Some (fs.Dir es)) = Some (fs.File d) ->
        matching (last (x :: r) "") ->
        In (uri_under folderPath (x :: r)) (results st').
Proof.
  intros Hres Hves Hrec.
  induction l as [|entry rest IH]; intros st Hl.
  - exists st. split; [reflexivity|]. split; [apply incl_refl|].
    intros x r d [].
  - assert (Hin : In entry (map fst es)) by (apply Hl; now left).
    destruct (In_assoc _ _ Hin) as [c Hc].
    destruct (valid_names_child _ _ _ Hves Hc) as [Hname _].
    assert (Hstat : fs.stat (path.join folderPath entry) store
                    = inr (fs.stats_of c)).
    { unfold fs.stat. now rewrite (resolve_join _ _ _ Hname), Hres, Hc. }
    assert (Hrest : incl rest (map fst es)).
    { intros y Hy. apply Hl. now right. }
    assert (Hparse : Uri_parse (MemFS.this_scheme memFs ++ ":"
                                ++ path.join folderPath entry)
                     = Some (mkUri (MemFS.this_scheme memFs)
                               (path.join folderPath entry))).
    { apply (Uri_parse_join _ _ _ store c Hscheme Hplain).
      now rewrite (resolve_join _ _ _ Hname), Hres. }
    cbn [MemFSFileSearchProvider.searchInFolder_entries].
    unfold MemFSFileSearchProvider.isCancellationRequested.
    rewrite Hnever, Hstat.
    destruct c as [d0 | es' | lnk]; cbn [fs.stats_of fs.isDirectory fs.isFile].
    + (* a regular file *)
      destruct (Str.includes (Str.toLowerCase entry) _) eqn:Einc.
      * rewrite Hparse, no_limit.
        destruct (IH (MemFSFileSearchProvider.push
                        (mkUri (MemFS.this_scheme memFs)
                           (path.join folderPath entry))
                        (mkState (results st) (S (polls st)))) Hrest)
          as (st' & Hrun & Hincl & Hall).
        exists st'. split; [exact Hrun|]. split.
        { intros u Hu. apply Hincl. simpl. apply in_or_app. now left. }
        intros x r d [<-|Hx] Hlook Hm; [|eapply Hall; eauto].
        cbn [fs.lookup] in Hlook. rewrite Hc in Hlook.
        destruct r as [|y r]; [|discriminate].
        apply Hincl. simpl. apply in_or_app. right. left.
        now rewrite (join_child _ _ Hname).
      * destruct (IH (mkState (results st) (S (polls st))) Hrest)
          as (st' & Hrun & Hincl & Hall).
        exists st'. split; [exact Hrun|]. split; [exact Hincl|].
        intros x r d [<-|Hx] Hlook Hm; [|eapply Hall; eauto].
        cbn [fs.lookup] in Hlook. rewrite Hc in Hlook.
        destruct r as [|y r]; [|discriminate].
        simpl in Hm. congruence.
    + (* a directory *)
      rewrite no_limit.
      destruct (Hrec entry es' (mkState (results st) (S (polls st))) Hc)
        as (st1 & Hrun1 & Hincl1 & Hall1).
      rewrite Hrun1.
      destruct (IH st1 Hrest) as (st' & Hrun & Hincl & Hall).
      exists st'. split; [exact Hrun|]. split.
      { intros u Hu. apply Hincl, Hincl1. exact Hu. }
      intros x r d [<-|Hx] Hlook Hm; [|eapply Hall; eauto].
      cbn [fs.lookup] in Hlook. rewrite Hc in Hlook.
      destruct r as [|y r]; [discriminate|].
      apply Hincl. eapply Hall1; eauto. discriminate.
    + (* neither *)
      destruct (IH (mkState (results st) (S (polls st))) Hrest)
        as (st' & Hrun & Hincl & Hall).
      exists st'. split; [exact Hrun|]. split; [exact Hincl|].
      intros x r d [<-|Hx] Hlook Hm; [|eapply Hall; eauto].
      cbn [fs.lookup] in Hlook. rewrite Hc in Hlook.
      destruct r as [|y r]; discriminate.
Qed.

Lemma file_searchInFolder_complete fuel :
  forall p es st,
    fs.resolve p store = Some (fs.Dir es) ->
    fs.height (fs.Dir es) < fuel ->
    exists st',
      searchInFolder fuel p st = (Continue, st') /\
      incl (results st) (results st') /\
      forall r d, r <> [] ->
        fs.lookup r (Some (fs.Dir es)) = Some (fs.File d) ->
        matching (last r "") ->
        In (uri_under p r) (results st').
Proof.
  induction fuel as [|fuel IH]; intros p es st Hres Hfuel; [lia|].
  assert (Hves : fs.valid_names (fs.Dir es) = true)
    by (eapply valid_names_lookup; eauto).
  cbn [MemFSFileSearchProvider.searchInFolder].
  unfold MemFSFileSearchProvider.isCancellationRequested.
  rewrite Hnever. unfold fs.readdir. rewrite Hres.
  destruct (file_entries_complete (searchInFolder fuel) p es Hres Hves)
    with (l := map fst es) (st := mkState (results st) (S (polls st)))
    as (st' & Hrun & Hincl & Hall).
  - intros x es' st0 Hx.
    destruct (valid_names_child _ _ _ Hves Hx) as [Hname _].
    destruct (IH (path.join p x) es' st0) as (st' & Hrun & Hincl & Hall).
    + now rewrite (resolve_join _ _ _ Hname), Hres.
    + apply height_child in Hx. lia.
    + exists st'. split; [exact Hrun|]. split; [exact Hincl|].
      intros r d Hr Hlook Hm.
      specialize (Hall r d Hr Hlook Hm).
      rewrite (segments_join _ _ Hname), <- app_assoc in Hall.
      exact Hall.
  - apply incl_refl.
  - rewrite Hrun. exists st'. split; [reflexivity|].
    split; [exact Hincl|].
    intros [|x r] d Hr Hlook Hm; [congruence|].
    eapply Hall; eauto.
    cbn [fs.lookup] in Hlook.
    destruct (fs.assoc x es) eqn:Ex;
      [eapply assoc_in; eauto | now rewrite lookup_None in Hlook].
Qed.

End Complete.

(** X16.  With a token that is never cancelled, no limit ([maxResults]
    undefined or 0), no [includes], a well-formed scheme and a store
    whose names are valid and free of "%", "?" and "#", the filename
    search returns, and every regular file of the store whose name,
    letters folded, contains the folded pattern is among the results,
    under its path from the root. *)
Theorem X16_file_search_complete fuel :
  fs.valid_names store = true ->
  scheme_ok (MemFS.this_scheme memFs) = true ->
  plain_names store = true ->
  (forall n, token n = false) ->
  maxResults options = None \/ maxResults options = Some 0 ->
  includes options = None \/ includes options = Some [] ->
  fs.height store < fuel ->
  exists rs,
    provideFileSearchResults fuel = Return rs /\
    forall r d,
      r <> [] ->
      fs.lookup r (Some store) = Some (fs.File d) ->
      Str.includes (Str.toLowerCase (last r ""))
        (Str.toLowerCase (fq_pattern query)) = true ->
      In (mkUri (MemFS.this_scheme memFs) (path.of_segments r)) rs.
Proof.
  intros Hvalid Hscheme Hplain Hnever Hnolimit Hincl Hfuel.
  unfold MemFSFileSearchProvider.provideFileSearchResults,
    MemFSFileSearchProvider.run.
  assert (Hrun :
    (let (c, st') :=
       includes_loop fuel
         (match includes options with Some l => l | None => [] end)
         (mkState [] 0) in
     match c with
     | NoFuel => (NoFuel, st')
     | _ => match includes options with
            | Some (_ :: _) => (Continue, st')
            | _ => searchInFolder fuel "/" st'
            end
     end) = searchInFolder fuel "/" (mkState [] 0)).
  { destruct Hincl as [-> | ->]; reflexivity. }
  match goal with
  | |- exists rs, match ?a with _ => _ end = _ /\ _ =>
      replace a with (searchInFolder fuel "/" (mkState [] 0))
  end.
  clear Hrun.
  destruct fuel as [|fuel']; [lia|].
  destruct (fs.readdir "/" store) as [e|entries] eqn:Erd.
  - cbn [MemFSFileSearchProvider.searchInFolder].
    unfold MemFSFileSearchProvider.isCancellationRequested.
    rewrite Hnever, Erd. eexists. split; [reflexivity|].
    intros [|x r] d Hr Hlook; [congruence|].
    destruct (lookup_cons_dir _ _ _ _ Hlook) as [es Es].
    unfold fs.readdir in Erd.
    change (fs.resolve "/" store) with (Some store) in Erd.
    rewrite Es in Erd. discriminate.
  - destruct (readdir_root _ _ Erd) as [es Es].
    assert (Hroot : fs.resolve "/" store = Some (fs.Dir es)).
    { change (Some store = Some (fs.Dir es)). f_equal. exact Es. }
    destruct (file_searchInFolder_complete Hvalid Hscheme Hplain Hnever
                Hnolimit (S fuel')
                "/" _ (mkState [] 0) Hroot) as (st' & Hrun' & _ & Hall).
    { rewrite <- Es. exact Hfuel. }
    rewrite Hrun'. eexists. split; [reflexivity|].
    intros r d Hr Hlook Hm. rewrite Es in Hlook.
    exact (Hall r d Hr Hlook Hm).
Qed.

End FileSearchResults.

(* ===================================================================== *)
(** * The text search: cancellation, the limit and the reports          *)
(* ===================================================================== *)

Section TextSearchMore.
Import vscode.
Variable E : RegExpEngine.
Variable memFs : MemFS.t.
Variable store : fs.store.
Variable query : TextSearchQuery.
Variable options : SearchOptions.
Variable token : CancellationToken.

Local Abbreviation state := MemFSTextSearchProvider.state.
Local Abbreviation reported := MemFSTextSearchProvider.reported.
Local Abbreviation st_limitHit := MemFSTextSearchProvider.st_limitHit.
Local Abbreviation result_at := MemFSTextSearchProvider.result_at.
Local Abbreviation searchString :=
  (MemFSTextSearchProvider.searchString query).
Local Abbreviation regex_loop :=
  (MemFSTextSearchProvider.regex_loop E options token).
Local Abbreviation literal_loop :=
  (MemFSTextSearchProvider.literal_loop query options token).
Local Abbreviation lines_loop :=
  (MemFSTextSearchProvider.lines_loop E query options token).
Local Abbreviation searchInFile :=
  (MemFSTextSearchProvider.searchInFile E memFs store query options token).
Local Abbreviation searchInFolder_entries :=
  (MemFSTextSearchProvider.searchInFolder_entries E memFs store query
     options token).
Local Abbreviation searchInFolder :=
  (MemFSTextSearchProvider.searchInFolder E memFs store query options token).
Local Abbreviation includes_loop :=
  (MemFSTextSearchProvider.includes_loop E memFs store query options token).
Local Abbreviation provideTextSearchResults :=
  (MemFSTextSearchProvider.provideTextSearchResults E memFs store query
     options token).

(** X17.  A search that starts with the token cancelled reports
    nothing; it ends with [limitHit] false, or with the error of a
    pattern that does not compile. *)
Theorem X17_text_search_cancelled fuel :
  token 0 = true ->
  let r := provideTextSearchResults (S fuel) in
  snd r = [] /\
  (fst r = Return (mkComplete false) \/
   fst r = Throw (Error "Invalid regular expression")).
Proof.
  intros Htok.
  unfold MemFSTextSearchProvider.provideTextSearchResults,
    MemFSTextSearchProvider.run.
  destruct (isRegExp query); [destruct (compile E _ _)|];
    destruct (includes options) as [[|folder rest]|]; simpl;
    rewrite ?Htok; simpl; auto.
Qed.

(** X18.  Without a limit, [maxResults] undefined or 0, a search that
    returns never says [limitHit]. *)
Theorem X18_no_limit_no_limitHit fuel c rs :
  maxResults options = None \/ maxResults options = Some 0 ->
  provideTextSearchResults fuel = (Return c, rs) ->
  limitHit c = false.
Proof.
  intros Hno Hrun.
  assert (Hlim : forall n, limit_reached (maxResults options) n = false).
  { intros n. destruct Hno as [-> | ->]; reflexivity. }
  unfold MemFSTextSearchProvider.provideTextSearchResults in Hrun.
  assert (Hinv : forall sp,
             st_limitHit (snd (MemFSTextSearchProvider.run E memFs store
                                 query options token fuel sp)) = false).
  { intros sp.
    apply (inv_run E memFs store query options token
             (fun st => st_limitHit st = false)); auto.
    intros filePath lineNumber line index len st _ Hst _. cbv zeta.
    rewrite Hlim. exact Hst. }
  destruct (isRegExp query); [destruct (compile E _ _) as [re|]|].
  - specialize (Hinv (Some re)).
    destruct (MemFSTextSearchProvider.run _ _ _ _ _ _ _ _) as [[] st];
      simpl in Hinv; try discriminate; injection Hrun as <- _; exact Hinv.
  - discriminate.
  - specialize (Hinv None).
    destruct (MemFSTextSearchProvider.run _ _ _ _ _ _ _ _) as [[] st];
      simpl in Hinv; try discriminate; injection Hrun as <- _; exact Hinv.
Qed.

(** ** The empty search string *)

Lemma indexOf_empty s start :
  Str.indexOf s "" start = Some (Nat.min start (String.length s)).
Proof.
  unfold Str.indexOf. now destruct (Str.drop _ s).
Qed.

Lemma split_lines_nonempty s : Str.split_lines s <> [].
Proof.
  destruct s as [|c r]; simpl; [discriminate|].
  destruct (Ascii.eqb c Str.LF); [discriminate|].
  destruct r as [|c' r']; unfold Str.cons_head.
  - simpl. discriminate.
  - destruct (_ && _); [discriminate|].
    destruct (Str.split_lines _); discriminate.
Qed.

Lemma literal_loop_empty fileUri lineNumber line searchLine :
  searchString = "" ->
  (forall n, token n = false) ->
  (forall n, limit_reached (maxResults options) n = false) ->
  forall fuel startIndex st,
    st_limitHit st = false ->
    let r := literal_loop fuel fileUri lineNumber line searchLine
               startIndex st in
    fst r = NoFuel /\
    List.length (reported (snd r)) = List.length (reported st) + fuel.
Proof.
  intros Hss Hnever Hlim.
  induction fuel as [|fuel IH]; intros startIndex st Hst.
  - simpl. split; [reflexivity|lia].
  - cbn [MemFSTextSearchProvider.literal_loop].
    rewrite Hss, indexOf_empty, Hst.
    unfold MemFSTextSearchProvider.isCancellationRequested.
    rewrite Hnever, Hlim.
    match goal with
    | |- context [MemFSTextSearchProvider.literal_loop _ _ _ fuel _ _ _ _
                    ?i ?s] =>
        destruct (IH i s) as [H1 H2]; [exact Hst|]
    end.
    cbv zeta. split; [exact H1|]. rewrite H2. simpl.
    rewrite length_app. simpl. lia.
Qed.

(** X19.  The plain text search for the empty string does not end:
    without a limit and without cancellation [searchInFile] on a file
    that can be read is still in the [while] loop of the first line
    after any number of rounds, with one more report for each round. *)
Theorem X19_empty_search_string_loops fuel filePath content fileUri st :
  pattern query = "" ->
  (forall n, token n = false) ->
  maxResults options = None \/ maxResults options = Some 0 ->
  st_limitHit st = false ->
  fs.readFile filePath store = inr content ->
  Uri_parse (MemFS.this_scheme memFs ++ ":" ++ filePath) = Some fileUri ->
  let r := searchInFile fuel None filePath st in
  fst r = NoFuel /\
  List.length (reported (snd r)) = List.length (reported st) + fuel.
Proof.
  intros Hpat Hnever Hno Hst Hread Hparse.
  assert (Hlim : forall n, limit_reached (maxResults options) n = false).
  { intros n. destruct Hno as [-> | ->]; reflexivity. }
  assert (Hss : searchString = "").
  { unfold MemFSTextSearchProvider.searchString. rewrite Hpat.
    now destruct (isCaseSensitive query). }
  unfold MemFSTextSearchProvider.searchInFile,
    MemFSTextSearchProvider.isCancellationRequested.
  rewrite Hnever, Hread. cbn [orb MemFSTextSearchProvider.st_limitHit].
  rewrite Hst, Hparse.
  destruct (Str.split_lines _) as [|line rest] eqn:El;
    [now apply split_lines_nonempty in El|].
  cbn [MemFSTextSearchProvider.lines_loop].
  unfold MemFSTextSearchProvider.isCancellationRequested.
  rewrite Hnever. cbn [orb MemFSTextSearchProvider.st_limitHit].
  match goal with
  | |- context [MemFSTextSearchProvider.literal_loop _ _ _ fuel ?u ?n ?l ?sl
                  ?i ?s] =>
      destruct (literal_loop_empty u n l sl Hss Hnever Hlim fuel i s
                  eq_refl) as [H1 H2];
      destruct (MemFSTextSearchProvider.literal_loop query options token
                  fuel u n l sl i s) as [c st']
  end.
  simpl in H1, H2. subst c. simpl. split; [reflexivity|exact H2].
Qed.

(** ** What the reports say *)

Lemma option_cases {A} (o : option A) : (exists a, o = Some a) \/ o = None.
Proof. destruct o; eauto. Qed.

Section Reports.
Variable sp : option (RegExp E).
Variable R : string -> nat -> nat -> Prop.
Hypothesis R_literal :
  sp = None ->
  forall line startIndex matchIndex,
    Str.indexOf (if isCaseSensitive query then line
                 else Str.toLowerCase line) searchString startIndex
    = Some matchIndex ->
    R line matchIndex (String.length searchString).
Hypothesis R_regex :
  forall re, sp = Some re ->
  forall line i index len,
    exec_at E re line i = Some (index, len) -> R line index len.

Local Abbreviation Q := (report_in_file memFs store R).

Lemma report_of_line filePath fileUri content lineNumber line index len :
  Uri_parse (MemFS.this_scheme memFs ++ ":" ++ filePath) = Some fileUri ->
  fs.readFile filePath store = inr content ->
  nth_error (Str.split_lines (MemFSTextSearchProvider.decode content))
    lineNumber = Some line ->
  R line index len ->
  Q (result_at fileUri lineNumber line index len).
Proof.
  intros Hparse Hread Hline HR. exists filePath, content, line, index, len.
  repeat split; assumption.
Qed.

Lemma reports_literal_loop filePath fileUri content lineNumber line :
  sp = None ->
  Uri_parse (MemFS.this_scheme memFs ++ ":" ++ filePath) = Some fileUri ->
  fs.readFile filePath store = inr content ->
  nth_error (Str.split_lines (MemFSTextSearchProvider.decode content))
    lineNumber = Some line ->
  forall fuel startIndex st,
    Forall Q (reported st) ->
    Forall Q (reported (snd (literal_loop fuel fileUri
                               lineNumber line
                               (if isCaseSensitive query then line
                                else Str.toLowerCase line)
                               startIndex st))).
Proof.
  intros Hsp Hparse Hread Hline.
  induction fuel as [|fuel IH]; intros startIndex st Hst; simpl; auto.
  destruct (Str.indexOf _ _ _) as [matchIndex|] eqn:Ei; simpl; auto.
  destruct (MemFSTextSearchProvider.st_limitHit st); simpl; auto.
  destruct (token _); simpl; auto.
  match goal with
  | |- context [MemFSTextSearchProvider.report ?r ?s] =>
      assert (Hr : Forall Q (reported (MemFSTextSearchProvider.report r s)))
  end.
  { simpl. apply Forall_app. split; [exact Hst|].
    constructor; [|constructor].
    apply (report_of_line filePath fileUri content); auto.
    eapply R_literal; eauto. }
  destruct (limit_reached _ _); simpl; auto.
Qed.

Lemma reports_regex_loop re filePath fileUri content lineNumber line :
  sp = Some re ->
  Uri_parse (MemFS.this_scheme memFs ++ ":" ++ filePath) = Some fileUri ->
  fs.readFile filePath store = inr content ->
  nth_error (Str.split_lines (MemFSTextSearchProvider.decode content))
    lineNumber = Some line ->
  forall fuel st,
    Forall Q (reported st) ->
    Forall Q (reported (snd (regex_loop fuel re fileUri
                               lineNumber line st))).
Proof.
  intros Hsp Hparse Hread Hline.
  induction fuel as [|fuel IH]; intros st Hst; simpl; auto.
  unfold MemFSTextSearchProvider.exec.
  destruct (_ <? _)%nat; simpl; auto.
  destruct (exec_at E re line _) as [[index len]|] eqn:Ex; simpl; auto.
  destruct (MemFSTextSearchProvider.st_limitHit st); simpl; auto.
  destruct (token _); simpl; auto.
  match goal with
  | |- context [MemFSTextSearchProvider.report ?r ?s] =>
      assert (Hr : Forall Q (reported (MemFSTextSearchProvider.report r s)))
  end.
  { simpl. apply Forall_app. split; [exact Hst|].
    constructor; [|constructor].
    apply (report_of_line filePath fileUri content); auto.
    eapply R_regex; eauto. }
  destruct (limit_reached _ _); simpl; auto.
Qed.

Lemma reports_line fuel filePath fileUri content lineNumber line st :
  Uri_parse (MemFS.this_scheme memFs ++ ":" ++ filePath) = Some fileUri ->
  fs.readFile filePath store = inr content ->
  nth_error (Str.split_lines (MemFSTextSearchProvider.decode content))
    lineNumber = Some line ->
  Forall Q (reported st) ->
  Forall Q
    (reported
       (snd (match sp with
             | Some re =>
                 regex_loop fuel re fileUri lineNumber line
                   (MemFSTextSearchProvider.set_lastIndex 0 st)
             | None =>
                 literal_loop fuel fileUri lineNumber line
                   (if isCaseSensitive query then line
                    else Str.toLowerCase line) 0 st
             end))).
Proof.
  intros Hparse Hread Hline Hst.
  destruct (option_cases sp) as [[re Esp]|Esp]; rewrite Esp.
  - apply (reports_regex_loop re filePath fileUri content); auto.
  - apply (reports_literal_loop filePath fileUri content); auto.
Qed.

Lemma reports_lines_loop fuel filePath fileUri content :
  Uri_parse (MemFS.this_scheme memFs ++ ":" ++ filePath) = Some fileUri ->
  fs.readFile filePath store = inr content ->
  forall lines lineNumber st,
    (forall k line,
        nth_error lines k = Some line ->
        nth_error (Str.split_lines (MemFSTextSearchProvider.decode content))
          (lineNumber + k) = Some line) ->
    Forall Q (reported st) ->
    Forall Q (reported (snd (lines_loop fuel sp fileUri lines
                               lineNumber st))).
Proof.
  intros Hparse Hread.
  induction lines as [|line rest IH]; intros lineNumber st Hk Hst;
    [exact Hst|].
  cbn [MemFSTextSearchProvider.lines_loop].
  unfold MemFSTextSearchProvider.isCancellationRequested.
  destruct (token _ || _); [exact Hst|].
  assert (Hline : nth_error (Str.split_lines
                               (MemFSTextSearchProvider.decode content))
                    lineNumber = Some line).
  { rewrite <- (Nat.add_0_r lineNumber). apply Hk. reflexivity. }
  assert (Hrest : forall k l,
             nth_error rest k = Some l ->
             nth_error (Str.split_lines
                          (MemFSTextSearchProvider.decode content))
               (S lineNumber + k) = Some l).
  { intros k l Hl. replace (S lineNumber + k) with (lineNumber + S k) by lia.
    apply Hk. exact Hl. }
  match goal with
  | |- context [MemFSTextSearchProvider.literal_loop _ _ _ fuel _ _ _ _ 0 ?s]
    => pose proof (reports_line fuel filePath fileUri content lineNumber
                     line s Hparse Hread Hline Hst) as Hl
  end.
  match type of Hl with
  | Forall _ (reported (snd ?b)) => destruct b as [c st']
  end.
  cbn [snd] in Hl. destruct c; [apply IH; auto|exact Hl|exact Hl].
Qed.

Lemma reports_searchInFile fuel filePath st :
  Forall Q (reported st) ->
  Forall Q (reported (snd (searchInFile fuel sp filePath st))).
Proof.
  intros Hst. unfold MemFSTextSearchProvider.searchInFile. simpl.
  destruct (token _ || _); simpl; auto.
  destruct (fs.readFile _ _) as [e|content] eqn:Hread; simpl; auto.
  destruct (Uri_parse _) as [fileUri|] eqn:Hparse; simpl; auto.
  match goal with
  | |- context [MemFSTextSearchProvider.lines_loop _ _ _ _ fuel sp ?u ?l ?n
                  ?s] =>
      pose proof (reports_lines_loop fuel filePath fileUri content Hparse
                    Hread l n s) as Hl;
      destruct (MemFSTextSearchProvider.lines_loop E query options token
                  fuel sp u l n s) as [c st']
  end.
  simpl in Hl |- *. apply Hl; auto.
Qed.

Lemma reports_entries fuel rec folderPath entries :
  (forall p st, Forall Q (reported st) ->
                Forall Q (reported (snd (rec p st)))) ->
  forall st, Forall Q (reported st) ->
  Forall Q (reported (snd (searchInFolder_entries fuel sp rec folderPath
                             entries st))).
Proof.
  intros Hrec. induction entries as [|entry rest IH]; intros st Hst;
    simpl; auto.
  destruct (token _ || _); simpl; auto.
  destruct (fs.stat _ store) as [e|stat] eqn:Estat; simpl; auto.
  match goal with
  | |- context [let (c, st') := ?body in _] =>
      destruct body as [c st'] eqn:Eb; assert (Forall Q (reported st'))
  end.
  { change st' with (snd (c, st')). rewrite <- Eb.
    destruct (fs.isDirectory stat); [apply Hrec; auto|].
    destruct (fs.isFile stat); simpl; auto.
    apply reports_searchInFile; auto. }
  destruct c; auto.
Qed.

Lemma reports_searchInFolder fuel :
  forall p st, Forall Q (reported st) ->
  Forall Q (reported (snd (searchInFolder fuel sp p st))).
Proof.
  induction fuel as [|fuel IH]; intros p st Hst; simpl; auto.
  destruct (token _ || _); simpl; auto.
  destruct (fs.readdir p store) as [e|entries]; simpl; auto.
  destruct (MemFSTextSearchProvider.searchInFolder_entries
              _ _ _ _ _ _ _ _ _ _ _ _) as [c st'] eqn:Ee. simpl.
  change st' with (snd (c, st')). rewrite <- Ee.
  apply reports_entries; auto.
Qed.

Lemma reports_includes_loop fuel folders :
  forall st, Forall Q (reported st) ->
  Forall Q (reported (snd (includes_loop fuel sp folders st))).
Proof.
  induction folders as [|folder rest IH]; intros st Hst; simpl; auto.
  destruct (token _ || _); simpl; auto.
  destruct (MemFSTextSearchProvider.searchInFolder _ _ _ _ _ _ _ _ _ _)
    as [c st'] eqn:Es.
  assert (Forall Q (reported st')).
  { change st' with (snd (c, st')). rewrite <- Es.
    apply reports_searchInFolder. exact Hst. }
  destruct c; auto.
Qed.

Lemma reports_run fuel :
  Forall Q (reported (snd (MemFSTextSearchProvider.run E memFs store query
                             options token fuel sp))).
Proof.
  unfold MemFSTextSearchProvider.run.
  destruct (MemFSTextSearchProvider.includes_loop _ _ _ _ _ _ _ _ _ _)
    as [c st'] eqn:Ei.
  assert (Forall Q (reported st')).
  { change st' with (snd (c, st')). rewrite <- Ei.
    apply reports_includes_loop. constructor. }
  destruct c; auto.
  all: destruct (includes options) as [[|? ?]|]; auto;
    apply reports_searchInFolder; auto.
Qed.

End Reports.

(** X20.  Whatever a plain text search reports, however it ends, is an
    occurrence of the search string: the Uri of the report was parsed
    from the path of a file that can be read, the report is at a line of
    that file, which is the preview; the range starts where the search
    string occurs in the line (letters folded unless the query is case
    sensitive) and is as long as the search string. *)
Theorem X20_literal_reports_are_occurrences fuel :
  isRegExp query = false ->
  Forall (report_in_file memFs store (occurrence query))
    (snd (provideTextSearchResults fuel)).
Proof.
  intros Hre.
  unfold MemFSTextSearchProvider.provideTextSearchResults. rewrite Hre.
  pose proof (reports_run None (occurrence query)) as H.
  specialize (H ltac:(
    intros _ line startIndex matchIndex Hi;
    split; [reflexivity|];
    now destruct (indexOf_some _ _ _ _ Hi) as (_ & _ & Hp & _))).
  specialize (H ltac:(intros re Hsp; discriminate) fuel).
  destruct (MemFSTextSearchProvider.run _ _ _ _ _ _ _ _) as [[] st];
    exact H.
Qed.

(** X21.  With an engine whose matches lie inside the line searched,
    every report of a regex search, however it ends, has a Uri parsed
    from the path of a file that can be read, is at a line of that file,
    which is the preview, and its range lies inside that line. *)
Theorem X21_regex_reports_inside_lines fuel :
  (forall re line, engine_sound E re line) ->
  isRegExp query = true ->
  Forall (report_in_file memFs store inside)
    (snd (provideTextSearchResults fuel)).
Proof.
  intros Hsound Hre.
  unfold MemFSTextSearchProvider.provideTextSearchResults. rewrite Hre.
  destruct (compile E _ _) as [re|]; [|constructor].
  pose proof (reports_run (Some re) inside) as H.
  specialize (H ltac:(intros Hsp; discriminate)).
  specialize (H ltac:(
    intros re' _ line i index len Hx;
    now destruct (Hsound re' line i index len Hx))).
  specialize (H fuel).
  destruct (MemFSTextSearchProvider.run _ _ _ _ _ _ _ _) as [[] st];
    exact H.
Qed.

End TextSearchMore.

(* ===================================================================== *)
(** * The further properties at work on the small store                  *)
(* ===================================================================== *)

Lemma X1_foreign_scheme_unavailable_witness :
  MemFS.readFile Examples.memFs (vscode.mkUri "file" "/main.ts")
    Examples.tree
  = (Throw (FsError (vscode.FileSystemError.Unavailable
                       "Unsupported scheme: file")), Examples.tree).
Proof.
  assert (Hne : vscode.scheme (vscode.mkUri "file" "/main.ts")
                <> MemFS.this_scheme Examples.memFs) by discriminate.
  pose proof (X1_foreign_scheme_unavailable Examples.memFs
                (vscode.mkUri "file" "/main.ts") (Examples.uri "/x") []
                (MemFS.mkWriteOptions true true) false false 1
                Examples.tree Hne) as H.
  cbv zeta in H. destruct H as (_ & _ & H & _). exact H.
Defined.

Lemma X2_only_FileSystemErrors_thrown_witness :
  fst (MemFS.stat Examples.memFs (Examples.uri "/gone") Examples.tree)
  = Throw (FsError (vscode.FileSystemError.FileNotFound
                      (Examples.uri "/gone"))) /\
  exists fe,
    FsError (vscode.FileSystemError.FileNotFound (Examples.uri "/gone"))
    = FsError fe.
Proof.
  split; [reflexivity|].
  apply (X2_only_FileSystemErrors_thrown Examples.memFs
           (Examples.uri "/gone") (Examples.uri "/x") []
           (MemFS.mkWriteOptions true true) false false 1 Examples.tree).
  left. reflexivity.
Defined.

Lemma X3_missing_path_FileNotFound_witness :
  MemFS.readFile Examples.memFs (Examples.uri "/main.ts/x") Examples.tree
  = (Throw (FsError (vscode.FileSystemError.FileNotFound
                       (Examples.uri "/main.ts/x"))), Examples.tree).
Proof.
  pose proof (X3_missing_path_FileNotFound Examples.memFs
                (Examples.uri "/main.ts/x") Examples.tree
                eq_refl eq_refl) as H.
  cbv zeta in H. destruct H as (_ & H & _). exact H.
Defined.

Lemma X4_readDirectory_of_a_file_witness :
  MemFS.readDirectory Examples.memFs (Examples.uri "/main.ts") Examples.tree
  = (Throw (FsError (vscode.FileSystemError.FileNotFound
                       (Examples.uri "/main.ts"))), Examples.tree).
Proof.
  exact (X4_readDirectory_of_a_file Examples.memFs (Examples.uri "/main.ts")
           Examples.tree (Examples.bytes "aaa") eq_refl eq_refl).
Defined.

Lemma X5_readDirectory_listing_witness :
  MemFS.readDirectory Examples.memFs (Examples.uri "/") Examples.tree
  = (Return [("lib", vscode.FileType.Directory);
             ("main.test.ts", vscode.FileType.File);
             ("main.ts", vscode.FileType.File)], Examples.tree).
Proof.
  assert (Hne : vscode.path (Examples.uri "/") <> "") by discriminate.
  exact (X5_readDirectory_listing Examples.memFs (Examples.uri "/")
           [("lib", fs.Dir [("main.ts",
                             fs.File (Examples.bytes "Foo bar foo"))]);
            ("main.test.ts", fs.File (Examples.bytes "test"));
            ("main.ts", fs.File (Examples.bytes "aaa"))]
           Examples.tree eq_refl Hne eq_refl eq_refl).
Defined.

Lemma X6_createDirectory_witness :
  let s' := snd (MemFS.createDirectory Examples.memFs (Examples.uri "/a/b")
                   Examples.tree) in
  (exists es, fs.resolve "/a/b" s' = Some (fs.Dir es)) /\
  fs.resolve "/main.ts" s' = Some (fs.File (Examples.bytes "aaa")) /\
  MemFS.createDirectory Examples.memFs (Examples.uri "/a/b") s'
  = (Return tt, s').
Proof.
  intros s'.
  destruct (X6_createDirectory Examples.memFs (Examples.uri "/a/b")
              Examples.tree eq_refl) as [H _].
  destruct (H eq_refl s' eq_refl) as (H1 & H2 & H3).
  split; [exact H1|]. split; [|exact H3].
  destruct (H2 ["main.ts"] (fs.File (Examples.bytes "aaa")) eq_refl)
    as (c' & Hc' & Hfile).
  rewrite <- (Hfile _ eq_refl). exact Hc'.
Defined.

Lemma X7_delete_existing_witness :
  (exists s',
     MemFS.delete Examples.memFs (Examples.uri "/lib") true Examples.tree
     = (Return tt, s') /\
     fs.lookup ["lib"; "main.ts"] (Some s') = None /\
     fs.lookup ["main.ts"] (Some s')
     = Some (fs.File (Examples.bytes "aaa"))) /\
  (exists m,
     MemFS.delete Examples.memFs (Examples.uri "/lib") false Examples.tree
     = (Throw (FsError (vscode.FileSystemError.Unavailable m)),
        Examples.tree)).
Proof.
  assert (Hne : path.segments (vscode.path_or_root (Examples.uri "/lib"))
                <> []) by discriminate.
  split.
  - destruct (X7_delete_existing Examples.memFs (Examples.uri "/lib") true
                Examples.tree
                (fs.Dir [("main.ts", fs.File (Examples.bytes "Foo bar foo"))])
                eq_refl eq_refl eq_refl Hne) as [H _].
    destruct (H (or_introl eq_refl)) as (s' & Hrun & Hgone & Hoff).
    exists s'. split; [exact Hrun|]. split.
    + exact (Hgone ["main.ts"]).
    + rewrite (Hoff ["main.ts"] eq_refl). reflexivity.
  - destruct (X7_delete_existing Examples.memFs (Examples.uri "/lib") false
                Examples.tree
                (fs.Dir [("main.ts", fs.File (Examples.bytes "Foo bar foo"))])
                eq_refl eq_refl eq_refl Hne) as [_ H].
    apply H; [reflexivity|]. eexists. eexists. reflexivity.
Defined.

Lemma X8_rename_to_fresh_path_witness :
  exists s',
    MemFS.rename Examples.memFs (Examples.uri "/main.ts")
      (Examples.uri "/lib/moved.ts") false Examples.tree = (Return tt, s') /\
    fs.resolve "/lib/moved.ts" s' = Some (fs.File (Examples.bytes "aaa")) /\
    fs.resolve "/main.ts" s' = None.
Proof.
  destruct (X8_rename_to_fresh_path Examples.memFs (Examples.uri "/main.ts")
              (Examples.uri "/lib/moved.ts") false Examples.tree
              (fs.File (Examples.bytes "aaa"))
              eq_refl eq_refl eq_refl eq_refl eq_refl eq_refl)
    as (s' & H1 & H2 & H3 & _).
  exists s'. repeat split; assumption.
Defined.


Lemma X10_copy_refusals_are_Unavailable_witness :
  (exists m,
     MemFS.copy Examples.memFs 1 (Examples.uri "/gone") (Examples.uri "/x")
       false Examples.tree
     = (Throw (FsError (vscode.FileSystemError.Unavailable m)),
        Examples.tree)) /\
  (exists m,
     MemFS.copy Examples.memFs 1 (Examples.uri "/main.ts")
       (Examples.uri "/main.test.ts") false Examples.tree
     = (Throw (FsError (vscode.FileSystemError.Unavailable m)),
        Examples.tree)).
Proof.
  split.
  - destruct (X10_copy_refusals_are_Unavailable Examples.memFs 1
                (Examples.uri "/gone") (Examples.uri "/x") false
                Examples.tree eq_refl eq_refl) as [H _].
    apply H. reflexivity.
  - destruct (X10_copy_refusals_are_Unavailable Examples.memFs 1
                (Examples.uri "/main.ts") (Examples.uri "/main.test.ts")
                false Examples.tree eq_refl eq_refl) as [_ H].
    apply H; reflexivity.
Defined.

Lemma X11_copy_file_witness :
  exists s',
    MemFS.copy Examples.memFs 1 (Examples.uri "/main.ts")
      (Examples.uri "/new/dir/copy.ts") false Examples.tree
    = (Return tt, s') /\
    MemFS.readFile Examples.memFs (Examples.uri "/new/dir/copy.ts") s'
    = (Return (Examples.bytes "aaa"), s') /\
    MemFS.readFile Examples.memFs (Examples.uri "/main.ts") s'
    = (Return (Examples.bytes "aaa"), s').
Proof.
  assert (Hanc : forall x r,
             path.segments (vscode.path_or_root (Examples.uri "/main.ts"))
             <> path.segments
                  (vscode.path_or_root (Examples.uri "/new/dir/copy.ts"))
                ++ x :: r).
  { intros x r H. vm_compute in H. discriminate H. }
  destruct (X11_copy_file Examples.memFs 1 (Examples.uri "/main.ts")
              (Examples.uri "/new/dir/copy.ts") false Examples.tree
              (Examples.bytes "aaa") eq_refl eq_refl eq_refl Hanc)
    as [Hpost Hruns].
  destruct (Hruns (or_intror eq_refl)) as [s' Hrun].
  exists s'. split; [exact Hrun|]. exact (Hpost s' Hrun).
Defined.

Lemma X12_writeFile_frame_witness :
  let s' := snd (MemFS.writeFile Examples.memFs (Examples.uri "/lib/new.ts")
                   (Examples.bytes "new") (MemFS.mkWriteOptions true true)
                   Examples.tree) in
  fs.lookup ["lib"; "main.ts"] (Some s')
  = Some (fs.File (Examples.bytes "Foo bar foo")).
Proof.
  intros s'.
  assert (Hnd : forall es,
             fs.resolve (vscode.path_or_root (Examples.uri "/lib/new.ts"))
               Examples.tree <> Some (fs.Dir es)).
  { intros es H. vm_compute in H. discriminate H. }
  rewrite (X12_writeFile_frame Examples.memFs (Examples.uri "/lib/new.ts")
             (Examples.bytes "new") (MemFS.mkWriteOptions true true)
             Examples.tree s' ["lib"; "main.ts"] eq_refl Hnd eq_refl
             eq_refl).
  reflexivity.
Defined.

Lemma X13_reset_empties_the_root_witness :
  Extension.reset Examples.tree = (Return tt, fs.Dir []).
Proof.
  exact (X13_reset_empties_the_root
           [("lib", fs.Dir [("main.ts",
                             fs.File (Examples.bytes "Foo bar foo"))]);
            ("main.test.ts", fs.File (Examples.bytes "test"));
            ("main.ts", fs.File (Examples.bytes "aaa"))] eq_refl eq_refl).
Defined.

Lemma X14_file_search_cancelled_witness :
  MemFSFileSearchProvider.provideFileSearchResults Examples.memFs
    Examples.tree (vscode.mkFileSearchQuery "main")
    (vscode.mkSearchOptions None None) (fun _ => true) 1
  = Return [].
Proof.
  exact (X14_file_search_cancelled Examples.memFs Examples.tree
           (vscode.mkFileSearchQuery "main")
           (vscode.mkSearchOptions None None) (fun _ => true) 0 eq_refl).
Defined.

Lemma X15_file_search_sound_witness :
  Forall (fun u =>
            vscode.scheme u = "memfs" /\
            fs.is_regular (vscode.path u) Examples.tree = true /\
            Str.includes
              (Str.toLowerCase (last (path.segments (vscode.path u)) ""))
              (Str.toLowerCase "Main.T") = true)
    [Examples.uri "/lib/main.ts"; Examples.uri "/main.test.ts";
     Examples.uri "/main.ts"].
Proof.
  exact (X15_file_search_sound Examples.memFs Examples.tree
           (vscode.mkFileSearchQuery "Main.T")
           (vscode.mkSearchOptions None None) Examples.never 3
           [Examples.uri "/lib/main.ts"; Examples.uri "/main.test.ts";
            Examples.uri "/main.ts"] eq_refl eq_refl eq_refl eq_refl).
Defined.

Lemma X16_file_search_complete_witness :
  exists rs,
    MemFSFileSearchProvider.provideFileSearchResults Examples.memFs
      Examples.tree (vscode.mkFileSearchQuery "Main.T")
      (vscode.mkSearchOptions None (Some 0)) Examples.never 3 = Return rs /\
    In (Examples.uri "/lib/main.ts") rs.
Proof.
  assert (Hfuel : fs.height Examples.tree < 3) by (simpl; lia).
  destruct (X16_file_search_complete Examples.memFs Examples.tree
              (vscode.mkFileSearchQuery "Main.T")
              (vscode.mkSearchOptions None (Some 0)) Examples.never 3
              eq_refl eq_refl eq_refl (fun _ => eq_refl)
              (or_intror eq_refl) (or_introl eq_refl) Hfuel)
    as (rs & Hrun & Hall).
  exists rs. split; [exact Hrun|].
  apply (Hall ["lib"; "main.ts"] (Examples.bytes "Foo bar foo"));
    [discriminate|reflexivity|reflexivity].
Defined.

Lemma X17_text_search_cancelled_witness :
  MemFSTextSearchProvider.provideTextSearchResults LiteralEngine.engine
    Examples.memFs Examples.tree (vscode.mkTextSearchQuery "a" false false)
    (vscode.mkSearchOptions None None) (fun _ => true) 1
  = (Return (vscode.mkComplete false), []).
Proof.
  pose proof (X17_text_search_cancelled LiteralEngine.engine Examples.memFs
                Examples.tree (vscode.mkTextSearchQuery "a" false false)
                (vscode.mkSearchOptions None None) (fun _ => true) 0
                eq_refl) as H.
  cbv zeta in H. destruct H as [_ _]. reflexivity.
Defined.

Lemma X18_no_limit_no_limitHit_witness :
  MemFSTextSearchProvider.provideTextSearchResults LiteralEngine.engine
    Examples.memFs Examples.tree (vscode.mkTextSearchQuery "a" false false)
    (vscode.mkSearchOptions None (Some 0)) Examples.never 12
  = (Return (vscode.mkComplete false),
     [MemFSTextSearchProvider.result_at (Examples.uri "/lib/main.ts") 0
        "Foo bar foo" 5 1;
      MemFSTextSearchProvider.result_at (Examples.uri "/main.ts") 0
        "aaa" 0 1;
      MemFSTextSearchProvider.result_at (Examples.uri "/main.ts") 0
        "aaa" 1 1;
      MemFSTextSearchProvider.result_at (Examples.uri "/main.ts") 0
        "aaa" 2 1]) /\
  vscode.limitHit (vscode.mkComplete false) = false.
Proof.
  split; [reflexivity|].
  apply (X18_no_limit_no_limitHit LiteralEngine.engine Examples.memFs
           Examples.tree (vscode.mkTextSearchQuery "a" false false)
           (vscode.mkSearchOptions None (Some 0)) Examples.never 12
           (vscode.mkComplete false)
           [MemFSTextSearchProvider.result_at (Examples.uri "/lib/main.ts") 0
              "Foo bar foo" 5 1;
            MemFSTextSearchProvider.result_at (Examples.uri "/main.ts") 0
              "aaa" 0 1;
            MemFSTextSearchProvider.result_at (Examples.uri "/main.ts") 0
              "aaa" 1 1;
            MemFSTextSearchProvider.result_at (Examples.uri "/main.ts") 0
              "aaa" 2 1]).
  - right. reflexivity.
  - reflexivity.
Defined.

Lemma X19_empty_search_string_loops_witness :
  let r := MemFSTextSearchProvider.searchInFile LiteralEngine.engine
             Examples.memFs Examples.tree
             (vscode.mkTextSearchQuery "" false false)
             (vscode.mkSearchOptions None None) Examples.never 7 None
             "/main.ts" (MemFSTextSearchProvider.mkState [] 0 false 0 0) in
  fst r = NoFuel /\
  List.length (MemFSTextSearchProvider.reported (snd r)) = 7.
Proof.
  exact (X19_empty_search_string_loops LiteralEngine.engine Examples.memFs
           Examples.tree (vscode.mkTextSearchQuery "" false false)
           (vscode.mkSearchOptions None None) Examples.never 7 "/main.ts"
           (Examples.bytes "aaa") (Examples.uri "/main.ts")
           (MemFSTextSearchProvider.mkState [] 0 false 0 0)
           eq_refl (fun _ => eq_refl) (or_introl eq_refl) eq_refl eq_refl
           eq_refl).
Defined.

Lemma X20_literal_reports_are_occurrences_witness :
  Forall (report_in_file Examples.memFs Examples.tree
            (occurrence (vscode.mkTextSearchQuery "foo" false false)))
    [MemFSTextSearchProvider.result_at (Examples.uri "/lib/main.ts") 0
       "Foo bar foo" 0 3;
     MemFSTextSearchProvider.result_at (Examples.uri "/lib/main.ts") 0
       "Foo bar foo" 8 3].
Proof.
  exact (X20_literal_reports_are_occurrences LiteralEngine.engine
           Examples.memFs Examples.tree
           (vscode.mkTextSearchQuery "foo" false false)
           (vscode.mkSearchOptions None None) Examples.never 12 eq_refl).
Defined.

Lemma X21_regex_reports_inside_lines_witness :
  Forall (report_in_file Examples.memFs Examples.tree inside)
    [MemFSTextSearchProvider.result_at (Examples.uri "/lib/main.ts") 0
       "Foo bar foo" 0 3;
     MemFSTextSearchProvider.result_at (Examples.uri "/lib/main.ts") 0
       "Foo bar foo" 8 3].
Proof.
  exact (X21_regex_reports_inside_lines LiteralEngine.engine
           Examples.memFs Examples.tree
           (vscode.mkTextSearchQuery "foo" true false)
           (vscode.mkSearchOptions None None) Examples.never 12
           literal_engine_sound eq_refl).
Defined.

Lemma X22_stat_after_writeFile_witness :
  let s' := snd (MemFS.writeFile Examples.memFs (Examples.uri "/lib/new.ts")
                   (Examples.bytes "let x") (MemFS.mkWriteOptions true true)
                   Examples.tree) in
  MemFS.stat Examples.memFs (Examples.uri "/lib/new.ts") s'
  = (Return (vscode.mkFileStat vscode.FileType.File 5), s').
Proof.
  intros s'.
  exact (X22_stat_after_writeFile Examples.memFs (Examples.uri "/lib/new.ts")
           (Examples.bytes "let x") (MemFS.mkWriteOptions true true)
           Examples.tree s' eq_refl (or_introl eq_refl) eq_refl).
Defined.
